(** * EnsEquil: adaptive ensemble runs and gradient statistics

    A shallow embedding of the parts of the EnsEquil package that decide
    when simulations are resubmitted and how gradient statistics are
    turned into recommended lambda values:

    - [EnsEquil/analyse/process_grads.py]  (module [ProcessGrads])
    - [EnsEquil/run/stage.py]              (module [Stage])
    - [EnsEquil/simulation.py]             (module [Simulation])
    - [EnsEquil/run/calculation.py]        (module [Calculation])

    The modules [Py], [Np], [Fs], [Dec] and [Str] hold what these files
    take from Python, numpy, the file system and [decimal]; [Float64] and
    [Float] hold the rounding of IEEE 754 double precision, and [Binary64]
    the binary64 arithmetic of the machine, against which [Float] is
    checked.  The definitions come first; the properties proved of them
    follow in the second part.

    Numbers.  The sums, means and integrals of the statistics code are
    idealised over the real numbers ([R]).  Where a float decides an
    integer the doubles are modelled: the quotient of
    [int(total_error / delta_er)] is the double quotient ([Float64], on
    the reals), and the duration bookkeeping of [Simulation.run] and the
    frame index of [Stage.analyse], which go through [str],
    [decimal.Decimal], [round], [/] and [int], are computed in double
    precision over the rationals ([Float]), so that they evaluate.  A
    real or rational number that is given as a float stands for the
    double nearest to it.  Exceptions are values of [result]. *)

From Stdlib Require Import String Ascii DecimalString.
From Stdlib Require Import Reals Lra Lia ZArith QArith Qabs Qround Qreals Bool Arith List.
From Stdlib Require Floats.
Close Scope Q_scope.
Close Scope R_scope.
Import ListNotations.
Open Scope string_scope.
Open Scope list_scope.
Open Scope nat_scope.

(** ** Exceptions and the error monad *)

Inductive exn : Type :=
| ValueError (msg : string)
| RuntimeError (msg : string)
| IndexError
| ZeroDivisionError
| OverflowError
| FileNotFoundError
| TypeError
| InvalidOperation
| NotImplementedError.

Inductive result (A : Type) : Type :=
| Ok (a : A)
| Raise (e : exn).
Arguments Ok {A} a.
Arguments Raise {A} e.

Definition bind {A B : Type} (m : result A) (k : A -> result B) : result B :=
  match m with
  | Ok a => k a
  | Raise e => Raise e
  end.

Notation "x <- m ;; k" := (bind m (fun x => k))
  (at level 61, m at next level, right associativity).

Fixpoint mapM {A B : Type} (f : A -> result B) (l : list A) : result (list B) :=
  match l with
  | [] => Ok []
  | a :: l' => b <- f a ;; bs <- mapM f l' ;; Ok (b :: bs)
  end.

(** A loop that threads a state through its iterations and stops at the
    first exception. *)
Fixpoint foldM {A S : Type} (f : S -> A -> result S) (l : list A) (s : S) : result S :=
  match l with
  | [] => Ok s
  | a :: l' => s' <- f s a ;; foldM f l' s'
  end.

(** ** Python sequences *)

Module Py.

(** [l[i]]: a negative index counts from the end, an index out of range
    raises [IndexError]. *)
Definition getitem {A : Type} (l : list A) (i : Z) : result A :=
  let n := Z.of_nat (length l) in
  let j := if (i <? 0)%Z then (i + n)%Z else i in
  if ((j <? 0) || (n <=? j))%Z then Raise IndexError
  else match nth_error l (Z.to_nat j) with
       | Some a => Ok a
       | None => Raise IndexError
       end.

(** [l[k:]]: a negative start counts from the end and is clipped at 0;
    a start past the end gives the empty list. *)
Definition slice_from {A : Type} (k : Z) (l : list A) : list A :=
  let n := Z.of_nat (length l) in
  let s := if (k <? 0)%Z then Z.max (k + n) 0 else k in
  skipn (Z.to_nat s) l.

(** [l[:k]] for a start of a list and [k >= 0] as the callers have it. *)
Definition slice_to {A : Type} (k : nat) (l : list A) : list A := firstn k l.

(** [enumerate(l)] *)
Definition enumerate {A : Type} (l : list A) : list (nat * A) :=
  combine (seq 0 (length l)) l.

End Py.

(** Strictly increasing lists of reals (the Stage's invariant on its
    lambda values). *)
Fixpoint strictly_increasing (l : list R) : Prop :=
  match l with
  | [] => True
  | a :: l' => match l' with
               | [] => True
               | b :: _ => (a < b)%R /\ strictly_increasing l'
               end
  end.


(** ** numpy on one-dimensional arrays, over the reals

    The helpers below stand for the numpy calls of [process_grads.py] and
    [stage.py].  They follow numpy's documented behaviour; where numpy
    would produce [inf] or [nan] (a division by zero inside an array
    operation) the model has no such value, and the theorems keep away
    from those inputs by hypothesis. *)

Module Np.
Local Open Scope R_scope.

(** [a.sum()] *)
Fixpoint sum (l : list R) : R :=
  match l with
  | [] => 0
  | a :: l' => a + sum l'
  end.

(** [f(l[0], l[1]), f(l[1], l[2]), ...] *)
Fixpoint adjacent {A B : Type} (f : A -> A -> B) (l : list A) : list B :=
  match l with
  | [] => []
  | a :: t => match t with
              | [] => []
              | b :: _ => f a b :: adjacent f t
              end
  end.

Fixpoint zip_with {A B C : Type} (f : A -> B -> C) (l : list A) (m : list B) : list C :=
  match l, m with
  | a :: l', b :: m' => f a b :: zip_with f l' m'
  | _, _ => []
  end.

(** [a * b] elementwise with numpy's broadcasting of one-dimensional
    operands: equal lengths, or one operand of length one. *)
Definition mul (a b : list R) : result (list R) :=
  if (length a =? length b)%nat then Ok (zip_with Rmult a b)
  else match a, b with
       | [x], _ => Ok (map (fun y => x * y) b)
       | _, [y] => Ok (map (fun x => x * y) a)
       | _, _ => Raise (ValueError "operands could not be broadcast together")
       end.

(** [np.diff(x)] *)
Definition diff (x : list R) : list R := adjacent (fun a b => b - a) x.

(** [np.trapz(y, x)]: [(diff(x) * (y[1:] + y[:-1]) / 2.0).sum()] *)
Definition trapz (y x : list R) : result R :=
  prod <- mul (diff x) (adjacent (fun a b => b + a) y) ;;
  Ok (sum (map (fun v => v / 2) prod)).

(** [int(x)] of a float: truncation towards zero. *)
Definition int (x : R) : Z :=
  if Rle_dec 0 x then Zfloor x else Zceil x.

(** Rounding to the nearest integer, ties to the even one. *)
Definition rint (x : R) : Z :=
  let f := Zfloor x in
  let r := x - IZR f in
  if Rlt_dec r (1 / 2) then f
  else if Rlt_dec (1 / 2) r then (f + 1)%Z
  else if Z.even f then f else (f + 1)%Z.

(** [np.round(x, decimals)] and Python's [round(x, ndigits)] *)
Definition round (x : R) (decimals : nat) : R :=
  IZR (rint (x * 10 ^ decimals)) / 10 ^ decimals.

(** [np.linspace(start, stop, num)] with the default [endpoint=True]:
    [num] samples [start + i * step]; the last one is set to [stop]. *)
Definition linspace (start stop : R) (num : Z) : result (list R) :=
  if (num <? 0)%Z then Raise (ValueError "Number of samples must be non-negative.")
  else
    let n := Z.to_nat num in
    let step := (stop - start) / INR (n - 1) in
    Ok (map (fun i => if ((1 <? n) && (i =? n - 1))%nat then stop
                      else start + INR i * step)
            (seq 0 n)).

(** The index search of [np.interp]: [for (i = 1; i < len && key >= arr[i]; ++i);
    return i - 1], given here the tail [arr[1:]].  numpy runs this scan
    for up to four sample points and a bisection with the same result on
    a non-decreasing array beyond that. *)
Fixpoint search (key : R) (rest : list R) : nat :=
  match rest with
  | [] => 0
  | a :: r => if Rle_dec a key then S (search key r) else 0
  end.

(** [np.interp(x, xp, fp)] for a scalar [x], with the default [left] and
    [right] values [fp[0]] and [fp[-1]]. *)
Definition interp (x : R) (xp fp : list R) : result R :=
  if (length xp =? 0)%nat then Raise (ValueError "array of sample points is empty")
  else if negb (length xp =? length fp)%nat then
    Raise (ValueError "fp and xp are not of the same length.")
  else if Rlt_dec (last xp 0) x then Ok (last fp 0)
  else if Rlt_dec x (hd 0 xp) then Ok (hd 0 fp)
  else
    let j := search x (tl xp) in
    if (j =? length xp - 1)%nat then Ok (nth j fp 0)
    else if Req_dec_T (nth j xp 0) x then Ok (nth j fp 0)
    else
      let slope := (nth (S j) fp 0 - nth j fp 0) / (nth (S j) xp 0 - nth j xp 0) in
      Ok (slope * (x - nth j xp 0) + nth j fp 0).

(** Membership in a list of string literals: [s in [...]] *)
Definition str_in (s : string) (l : list string) : bool :=
  existsb (String.eqb s) l.

End Np.

(** ** Doubles among the reals

    IEEE 754 binary64 with rounding to nearest, ties to even: 53 bits of
    mantissa, exponents from -1022 to 1023, and the spacing [2 ^ -1074]
    below the smallest normal double.  The floats of the model are the
    finite doubles; an operation whose result lies beyond them gives
    [Infinite], as the division of two floats does in numpy. *)

Module Float64.
Local Open Scope R_scope.

(** The scan for the exponent: the largest [k] from the start downwards
    with [2 ^ k <= x], and the last exponent tried when there is none. *)
Fixpoint exponent_from (fuel : nat) (k : Z) (x : R) : Z :=
  match fuel with
  | O => k
  | S fuel' => if Rle_dec (powerRZ 2 k) x then k else exponent_from fuel' (k - 1) x
  end.

(** The exponent of a real among the exponents of the normal doubles:
    [2 ^ e <= |x| < 2 ^ (e + 1)] where that lies between -1022 and
    1023. *)
Definition exponent (x : R) : Z := exponent_from 2045 1023 (Rabs x).

(** The spacing of the doubles around [x]. *)
Definition ulp (x : R) : R := powerRZ 2 (exponent x - 52).

(** Rounding to the nearest multiple of the spacing, ties to the even
    one. *)
Definition nearest (x : R) : R := IZR (Np.rint (x / ulp x)) * ulp x.

(** [sys.float_info.max] *)
Definition max : R := IZR (2 ^ 53 - 1) * powerRZ 2 971.

Inductive value : Type :=
| Finite (x : R)
| Infinite.

(** The float that an operation with the exact result [x] returns. *)
Definition of_exact (x : R) : value :=
  if Rlt_dec max (Rabs (nearest x)) then Infinite else Finite (nearest x).

(** The float a real stands for: the double nearest to it, and the largest
    double for a real beyond all of them. *)
Definition float (x : R) : R :=
  match of_exact x with
  | Finite y => y
  | Infinite => if Rle_dec 0 x then max else - max
  end.


End Float64.

(** ** analyse/process_grads.py *)

Module ProcessGrads.
Local Open Scope R_scope.

(** The attributes that [GradientData.__init__] stores, one entry per
    lambda window in window order.  [sems_overall] is
    [sqrt(sem_inter ** 2 + sem_intra ** 2)] of the same window and
    [sampling_times] is [end_times - start_times]. *)
Record GradientData : Type := {
  equilibrated : bool;
  lam_vals : list R;
  sampling_times : list R;
  means : list R;
  sems_overall : list R;
  sems_intra : list R;
  sems_inter : list R;
  vars_intra : list R;
  stat_ineffs : list R
}.

(** [self.n_lam = len(lam_vals)] *)
Definition n_lam (self : GradientData) : nat := length (lam_vals self).

(** One iteration of the smoothing loop of [get_sems]: index [i], element
    [sem] of the standardised series, [max_ind = len(sems) - 1]. *)
Definition sem_smooth (self : GradientData) (max_ind : Z) (i : nat) (sem : R) : result R :=
  if (i =? 0)%nat then
    nxt <- Py.getitem (sems_overall self) (Z.of_nat i + 1) ;;
    Ok ((sem + nxt) / 2)
  else if (Z.of_nat i =? max_ind)%Z then
    prv <- Py.getitem (sems_overall self) (Z.of_nat i - 1) ;;
    Ok ((sem + prv) / 2)
  else
    nxt <- Py.getitem (sems_overall self) (Z.of_nat i + 1) ;;
    prv <- Py.getitem (sems_overall self) (Z.of_nat i - 1) ;;
    Ok ((sem + nxt + prv) / 3).

(** [sems *= np.sqrt(self.sampling_times)]: the left operand is a Python
    list, so the product is a new array and the stored attribute is not
    changed. *)
Definition standardised_sems (self : GradientData) (origin : string) : result (list R) :=
  let sems := if String.eqb origin "inter" then sems_inter self else sems_intra self in
  Np.mul sems (map sqrt (sampling_times self)).

Definition get_sems (self : GradientData) (origin : string) (smoothen : bool)
  : result (list R) :=
  if negb (Np.str_in origin ["inter"; "intra"]) then
    Raise (ValueError "origin must be either 'inter' or 'intra'")
  else
    sems <- standardised_sems self origin ;;
    if negb smoothen then Ok sems
    else
      let max_ind := (Z.of_nat (length sems) - 1)%Z in
      mapM (fun '(i, sem) => sem_smooth self max_ind i sem) (Py.enumerate sems).

(** The error series that [get_integrated_error] integrates. *)
Definition y_vals (self : GradientData) (er_type origin : string) (smoothen : bool)
  : result (list R) :=
  if String.eqb er_type "sem" then get_sems self origin smoothen
  else Ok (map sqrt (vars_intra self)).

Definition get_integrated_error (self : GradientData) (er_type origin : string)
    (smoothen : bool) : result (list R) :=
  if negb (Np.str_in er_type ["sem"; "root_var"]) then
    Raise (ValueError "er_type must be either 'sem' or 'root_var'")
  else if negb (Np.str_in origin ["inter"; "intra"]) then
    Raise (ValueError "origin must be either 'inter' or 'intra'")
  else
    let x_vals := lam_vals self in
    y <- y_vals self er_type origin smoothen ;;
    let n_vals := length x_vals in
    mapM (fun i => Np.trapz (Py.slice_to (i + 1) y) (Py.slice_to (i + 1) x_vals))
         (seq 0 n_vals).

(** [int(total_error / delta_er) + 1]: the quotient is the double
    quotient of the two floats, and [int] truncates it towards zero.  A
    zero [delta_er] makes the numpy quotient [inf] or [nan], which [int]
    refuses, as it refuses a quotient beyond the largest double. *)
Definition derive_n_lam_vals (total_error delta_er : R) : result Z :=
  let t := Float64.float total_error in
  let d := Float64.float delta_er in
  if Req_dec_T d 0 then
    if Req_dec_T t 0 then Raise (ValueError "cannot convert float NaN to integer")
    else Raise OverflowError
  else match Float64.of_exact (t / d) with
       | Float64.Finite q => Ok (Np.int q + 1)%Z
       | Float64.Infinite => Raise OverflowError
       end.

Definition calculate_optimal_lam_vals (self : GradientData) (er_type : string)
    (delta_er : option R) (n_lam_vals : option Z) (sem_origin : string)
    (smoothen_sems : bool) : result (list R) :=
  match delta_er, n_lam_vals with
  | None, None => Raise (ValueError "Either delta_er or n_lam_vals must be provided.")
  | Some _, Some _ => Raise (ValueError "Only one of delta_er or n_lam_vals can be provided.")
  | _, _ =>
    integrated_errors <- get_integrated_error self er_type sem_origin smoothen_sems ;;
    total_error <- Py.getitem integrated_errors (-1) ;;
    n <- match n_lam_vals, delta_er with
         | Some n, _ => Ok n
         | None, Some d => derive_n_lam_vals total_error d
         | None, None => Raise (ValueError "Either delta_er or n_lam_vals must be provided.")
         end ;;
    requested_sem_vals <- Np.linspace 0 total_error n ;;
    mapM (fun requested_sem =>
            optimal_lam_val <- Np.interp requested_sem integrated_errors (lam_vals self) ;;
            Ok (Np.round optimal_lam_val 3))
         requested_sem_vals
  end.

(** [scipy.constants.gas_constant], in J mol^-1 K^-1. *)
Definition gas_constant : R := 8.314462618.

(** [beta = (4.184 * 1000) / (_R * temperature)], in mol kcal^-1, for a
    temperature other than zero. *)
Definition beta (temperature : R) : R := (4.184 * 1000) / (gas_constant * temperature).

(** One iteration of the inner loop of [get_predicted_overlap_mat]: the new
    value of [unnormalised_overlap], which is stored at
    [predicted_overlap_mat[base_index, base_index + i]]. *)
Definition overlap_step (self : GradientData) (beta : R) (base_index : nat)
    (unnormalised_overlap : R) (i : nat) : result R :=
  if negb (i =? 0)%nat then
    l1 <- Py.getitem (lam_vals self) (Z.of_nat base_index + Z.of_nat i) ;;
    l0 <- Py.getitem (lam_vals self) (Z.of_nat base_index + Z.of_nat i - 1) ;;
    let delta_lam := l1 - l0 in
    v1 <- Py.getitem (vars_intra self) (Z.of_nat base_index + Z.of_nat i) ;;
    v0 <- Py.getitem (vars_intra self) (Z.of_nat base_index + Z.of_nat i - 1) ;;
    let av_var := (v1 + v0) / 2 in
    Ok (unnormalised_overlap / (beta * delta_lam * sqrt av_var))
  else Ok unnormalised_overlap.

(** The inner loop over [i]: the values written to row [base_index] from
    the diagonal outwards. *)
Fixpoint overlap_loop (self : GradientData) (beta : R) (base_index : nat)
    (unnormalised_overlap : R) (idxs : list nat) : result (list R) :=
  match idxs with
  | [] => Ok []
  | i :: idxs' =>
    u <- overlap_step self beta base_index unnormalised_overlap i ;;
    rest <- overlap_loop self beta base_index u idxs' ;;
    Ok (u :: rest)
  end.

(** Row [base_index] of the matrix after the first pair of loops: the
    zeros of [np.zeros] left of the diagonal, then the values of the inner
    loop. *)
Definition upper_row (self : GradientData) (beta : R) (base_index : nat)
  : result (list R) :=
  vals <- overlap_loop self beta base_index 1 (seq 0 (n_lam self - base_index)) ;;
  Ok (repeat 0 base_index ++ vals).

Definition upper_triangle (self : GradientData) (beta : R) : result (list (list R)) :=
  mapM (upper_row self beta) (seq 0 (n_lam self)).

(** [m[i, j]] for an index inside the matrix. *)
Definition entry (m : list (list R)) (i j : nat) : R := nth j (nth i m []) 0.

(** [m + m.T - np.diag(np.diag(m))] for an [n] by [n] matrix. *)
Definition mirror (n : nat) (m : list (list R)) : list (list R) :=
  map (fun i => map (fun j => entry m i j
                              + (entry m j i - (if (i =? j)%nat then entry m i i else 0)))
                    (seq 0 n))
      (seq 0 n).

(** [row /= row.sum()] *)
Definition normalise_row (row : list R) : list R :=
  map (fun v => v / Np.sum row) row.

(** The matrix before the normalisation by row. *)
Definition mirrored_overlap_mat (self : GradientData) (temperature : R)
  : result (list (list R)) :=
  if Req_dec_T (gas_constant * temperature) 0 then Raise ZeroDivisionError
  else
    let beta := beta temperature in
    upper <- upper_triangle self beta ;;
    Ok (mirror (n_lam self) upper).

Definition get_predicted_overlap_mat (self : GradientData) (temperature : R)
  : result (list (list R)) :=
  m <- mirrored_overlap_mat self temperature ;;
  Ok (map normalise_row m).

(** A matrix given by its rows is symmetric. *)
Definition symmetric (m : list (list R)) : Prop :=
  forall i j : nat, (i < length m)%nat -> (j < length m)%nat -> entry m i j = entry m j i.

End ProcessGrads.

(** ** Files and decimal numbers *)

Module Fs.

(** A file system: the lines of each file that exists, every line with
    its newline as [readlines] returns it. *)
Definition files : Type := string -> option (list string).

Definition write (fs : files) (path : string) (lines : list string) : files :=
  fun p => if String.eqb p path then Some lines else fs p.

(** [open(path, "r").readlines()] *)
Definition readlines (fs : files) (path : string) : result (list string) :=
  match fs path with
  | Some lines => Ok lines
  | None => Raise FileNotFoundError
  end.

(** [line.startswith(p)] *)
Definition startswith (line p : string) : bool := String.prefix p line.

Definition newline : string := String (ascii_of_nat 10) EmptyString.

(** [str(n)] of a Python int *)
Definition str_of_int (n : Z) : string := NilZero.string_of_int (Z.to_int n).

End Fs.

Module Dec.
Local Open Scope Q_scope.

(** Truncation towards zero: [int(x)] of a float, and the integer
    quotient of [Decimal.__mod__]. *)
Definition trunc (x : Q) : Z := Z.quot (Qnum x) (Zpos (Qden x)).

(** [a % b] of [decimal.Decimal] in the default context of 28 digits:
    the remainder has the sign of the dividend; a zero divisor signals
    [InvalidOperation], and so does an integer quotient of more than 28
    digits ([DivisionImpossible]).  The remainder of two decimals of at
    most 17 digits is exact. *)
Definition rem (a b : Q) : result Q :=
  if Qeq_bool b 0 then Raise InvalidOperation
  else
    let q := trunc (a / b) in
    if (10 ^ 28 <=? Z.abs q)%Z then Raise InvalidOperation
    else Ok (a - b * inject_Z q).

(** Rounding to the nearest integer, ties to the even one. *)
Definition rint (x : Q) : Z :=
  let f := Qfloor x in
  match Qcompare (x - inject_Z f) (1 # 2) with
  | Lt => f
  | Gt => (f + 1)%Z
  | Eq => if Z.even f then f else (f + 1)%Z
  end.

(** [round(x, ndigits)] *)
Definition round (x : Q) (ndigits : nat) : Q :=
  inject_Z (rint (x * inject_Z (10 ^ Z.of_nat ndigits)))
  / inject_Z (10 ^ Z.of_nat ndigits).

End Dec.

(** ** Doubles among the rationals

    The same format as [Float64], on numbers that evaluate: the Python
    floats of [simulation.py] and of the frame index of [stage.py]. *)

Module Float.
Local Open Scope Q_scope.

(** The exponent [e] of a positive rational: [2 ^ e <= q < 2 ^ (e + 1)].
    The difference of the bit lengths of numerator and denominator is
    [e] or [e + 1]. *)
Definition ilog2 (q : Q) : Z :=
  let e := (Z.log2 (Qnum q) - Z.log2 (Zpos (Qden q)))%Z in
  if Qle_bool (Qpower 2 e) q then e else (e - 1)%Z.

(** The spacing of the doubles around [q]: [2 ^ (e - 52)], and
    [2 ^ -1074] below the smallest normal double [2 ^ -1022]. *)
Definition ulp (q : Q) : Q := Qpower 2 (Z.max (ilog2 (Qabs q)) (-1022) - 52).

(** Rounding to the nearest multiple of the spacing, ties to the even
    one. *)
Definition nearest (q : Q) : Q :=
  if Qeq_bool q 0 then 0 else Qred (inject_Z (Dec.rint (q / ulp q)) * ulp q).

(** [sys.float_info.max] *)
Definition max : Q := inject_Z ((2 ^ 53 - 1) * 2 ^ 971).

Inductive value : Type :=
| Finite (q : Q)
| Infinite.

(** The float that an operation with the exact result [q] returns. *)
Definition of_exact (q : Q) : value :=
  if Qle_bool (Qabs (nearest q)) max then Finite (nearest q) else Infinite.

(** The float a rational stands for: the double nearest to it, and the
    largest double for a rational beyond all of them. *)
Definition float (q : Q) : Q :=
  match of_exact q with
  | Finite x => x
  | Infinite => if Qle_bool 0 q then max else - max
  end.

(** [a / b] of two floats *)
Definition truediv (a b : Q) : result value :=
  if Qeq_bool b 0 then Raise ZeroDivisionError else Ok (of_exact (a / b)).

(** [a * b] of two floats *)
Definition mul (a b : Q) : value := of_exact (a * b).

(** [a + b] of two floats *)
Definition add (a b : Q) : value := of_exact (a + b).

(** [int(x)] of a float: truncation towards zero. *)
Definition int (v : value) : result Z :=
  match v with
  | Finite q => Ok (Dec.trunc q)
  | Infinite => Raise OverflowError
  end.

(** The exponent [k] of a positive rational in base ten:
    [10 ^ k <= q < 10 ^ (k + 1)], found next to the estimate
    [e * log10(2)] from the exponent in base two. *)
Definition ilog10 (q : Q) : Z :=
  let k := (ilog2 q * 30103 / 100000)%Z in
  if Qle_bool (Qpower 10 (k + 1)) q then (k + 1)%Z
  else if Qle_bool (Qpower 10 k) q then k
  else (k - 1)%Z.

(** The decimal of [n] significant digits that reads back as the positive
    double [x]: one of the two such decimals next to [x], the nearer one
    when both read back as [x]. *)
Definition digits (x : Q) (n : Z) : option Q :=
  let s := Qpower 10 (ilog10 x - n + 1) in
  let lo := inject_Z (Qfloor (x / s)) * s in
  let hi := lo + s in
  let back c := match of_exact c with
                | Finite y => Qeq_bool y x
                | Infinite => false
                end in
  match back lo, back hi with
  | true, true => Some (if Qle_bool (x - lo) (hi - x) then lo else hi)
  | true, false => Some lo
  | false, true => Some hi
  | false, false => None
  end.

(** The first number of digits, from [n] on, with such a decimal.
    Seventeen digits tell any two doubles apart. *)
Fixpoint shortest (x : Q) (n : Z) (fuel : nat) : Q :=
  match fuel with
  | O => x
  | S fuel' => match digits x n with
               | Some c => c
               | None => shortest x (n + 1) fuel'
               end
  end.

(** [Decimal(str(x))] of a float: [str] writes the shortest decimal that
    reads back as the float. *)
Definition repr (x : Q) : Q :=
  if Qeq_bool x 0 then 0
  else Qred (if Qle_bool 0 x then shortest x 1 17 else - shortest (- x) 1 17).

End Float.

(** ** The binary64 of the machine

    The primitive floats of the kernel are the doubles of the machine that
    runs it.  [prim_of_Q] is the double that Python reads from a decimal
    with a numerator and a denominator below [2 ^ 53], and [of_prim] the
    rational value of a finite double. *)

Module Binary64.
Local Open Scope Q_scope.

Definition of_prim (f : PrimFloat.float) : option Q :=
  match FloatOps.Prim2SF f with
  | SpecFloat.S754_zero _ => Some 0
  | SpecFloat.S754_finite s m e =>
    Some ((if s then - inject_Z (Zpos m) else inject_Z (Zpos m)) * Qpower 2 e)
  | _ => None
  end.

Definition prim_of_Z (z : Z) : PrimFloat.float :=
  let f := PrimFloat.of_uint63 (Uint63.of_Z (Z.abs z)) in
  if (z <? 0)%Z then PrimFloat.opp f else f.

Definition prim_of_Q (q : Q) : PrimFloat.float :=
  PrimFloat.div (prim_of_Z (Qnum q)) (prim_of_Z (Zpos (Qden q))).

(** The double of the machine and the float of the model are the same
    finite number. *)
Definition same (f : PrimFloat.float) (v : Float.value) : bool :=
  match of_prim f, v with
  | Some x, Float.Finite y => Qeq_bool x y
  | _, _ => false
  end.

(** The model reads the two decimals, divides, multiplies and adds them
    as the machine does. *)
Definition agree (ab : Q * Q) : bool :=
  let (a, b) := ab in
  same (prim_of_Q a) (Float.Finite (Float.float a))
  && same (prim_of_Q b) (Float.Finite (Float.float b))
  && same (PrimFloat.div (prim_of_Q a) (prim_of_Q b))
          (Float.of_exact (Float.float a / Float.float b))
  && same (PrimFloat.mul (prim_of_Q a) (prim_of_Q b))
          (Float.mul (Float.float a) (Float.float b))
  && same (PrimFloat.add (prim_of_Q a) (prim_of_Q b))
          (Float.add (Float.float a) (Float.float b)).

End Binary64.

(** ** Python strings and paths *)

Module Str.

(** The whitespace of [str.split()] and [str.strip()] among the ASCII
    characters: tab to carriage return, the four separators, the space. *)
Definition is_space (c : ascii) : bool :=
  let n := nat_of_ascii c in
  ((9 <=? n) && (n <=? 13)) || ((28 <=? n) && (n <=? 32)).

(** [s.split()]: the runs of characters between whitespace, none of them
    empty.  [cur] is the run being read. *)
Fixpoint split_from (s : string) (cur : option string) : list string :=
  match s with
  | EmptyString => match cur with Some t => [t] | None => [] end
  | String c r =>
    if is_space c then
      match cur with
      | Some t => t :: split_from r None
      | None => split_from r None
      end
    else
      split_from r (Some (match cur with Some t => t | None => EmptyString end
                          ++ String c EmptyString)%string)
  end.

Definition split (s : string) : list string := split_from s None.

(** [s.split(sep)] for a separator of one character: the pieces between
    the separators, empty ones included. *)
Fixpoint split_on_from (sep : ascii) (s : string) (cur : string) : list string :=
  match s with
  | EmptyString => [cur]
  | String c r =>
    if Ascii.eqb c sep then cur :: split_on_from sep r EmptyString
    else split_on_from sep r (cur ++ String c EmptyString)%string
  end.

Definition split_on (sep : ascii) (s : string) : list string :=
  split_on_from sep s EmptyString.

(** [sep.join(pieces)] *)
Fixpoint join (sep : string) (pieces : list string) : string :=
  match pieces with
  | [] => EmptyString
  | piece :: rest =>
    match rest with
    | [] => piece
    | _ :: _ => (piece ++ sep ++ join sep rest)%string
    end
  end.

(** [c in s] for a character [c] *)
Fixpoint contains (c : ascii) (s : string) : bool :=
  match s with
  | EmptyString => false
  | String d r => Ascii.eqb d c || contains c r
  end.

Fixpoint lstrip (s : string) : string :=
  match s with
  | EmptyString => EmptyString
  | String c r => if is_space c then lstrip r else s
  end.

Fixpoint reverse_onto (s acc : string) : string :=
  match s with
  | EmptyString => acc
  | String c r => reverse_onto r (String c acc)
  end.

(** [s.strip()] *)
Definition strip (s : string) : string :=
  reverse_onto (lstrip (reverse_onto (lstrip s) EmptyString)) EmptyString.

(** [os.path.join(a, b)] on a POSIX system: an absolute [b] replaces
    [a]. *)
Definition path_join (a b : string) : string :=
  if String.prefix "/" b then b
  else if String.eqb a "" then b
  else if String.eqb (String.substring (String.length a - 1) 1 a) "/" then (a ++ b)%string
  else (a ++ "/" ++ b)%string.

End Str.

(** ** simulation.py *)

Module Simulation.
Local Open Scope Q_scope.

(** Modelled from the spec: a [Job] of the virtual queue, with its
    identifier and the command submitted. *)
Record Job : Type := { job_id : nat; command : string }.

(** Modelled from the spec: [VirtualQueue] of [run/_virtual_queue.py],
    which is not among the files embedded here; it owns an ordered
    collection of jobs. *)
Record VirtualQueue : Type := { queue : list Job; next_id : nat }.

(** Modelled from the spec: [VirtualQueue.submit(command)] enqueues the
    command, and returns a job with a synthetic identifier at once. *)
Definition submit (vq : VirtualQueue) (cmd : string) : VirtualQueue * Job :=
  let j := {| job_id := next_id vq; command := cmd |} in
  ({| queue := queue vq ++ [j]; next_id := S (next_id vq) |}, j).

(** What a [Simulation] shares with the rest of the program: the files
    and the virtual queue of its stage. *)
Record world : Type := { fs : Fs.files; virtual_queue : VirtualQueue }.

Record t : Type := {
  lam : Q;
  run_no : nat;
  base_dir : string;
  input_dir : string;
  output_dir : string;
  job : option Job;
  _running : bool;
  tot_simtime : Q;
  timestep : Q;
  nrg_freq : Q;
  time_per_cycle : Q
}.

(** The attributes that [_add_attributes_from_simfile] derives from the
    values of [timestep] (in fs), [nmoves] and [energy frequency] read in
    [somd.cfg]: [(self.timestep, self.nrg_freq, self.time_per_cycle)]. *)
Definition attributes_from_simfile (timestep_fs nmoves energy_frequency : Q)
  : Q * Q * Q :=
  (timestep_fs / 1000000, energy_frequency, timestep_fs * nmoves / 1000000).

(** The loop of [_set_n_cycles]: the first line that starts with
    [ncycles =] is replaced. *)
Fixpoint replace_ncycles (lines : list string) (n_cycles : Z) : list string :=
  match lines with
  | [] => []
  | line :: rest =>
    if Fs.startswith line "ncycles =" then
      ("ncycles = " ++ Fs.str_of_int n_cycles ++ Fs.newline)%string :: rest
    else line :: replace_ncycles rest n_cycles
  end.

Definition cfg_path (self : t) : string := (input_dir self ++ "/somd.cfg")%string.

Definition _set_n_cycles (w : world) (self : t) (n_cycles : Z) : result world :=
  lines <- Fs.readlines (fs w) (cfg_path self) ;;
  Ok {| fs := Fs.write (fs w) (cfg_path self) (replace_ncycles lines n_cycles);
        virtual_queue := virtual_queue w |}.

Section Run.

(** The text of a float in an f-string. *)
Variable str_of_float : Q -> string.

Definition run_command (self : t) : string :=
  ("--chdir " ++ output_dir self ++ " run_somd.sh " ++ str_of_float (lam self))%string.

(** [self.tot_simtime + duration].  A sum beyond the largest double is
    [inf] in Python; the model, which has no infinite time, keeps the
    largest double, and the properties are stated for sums within the
    doubles. *)
Definition added_time (tot_simtime duration : Q) : Q :=
  match Float.add (Float.float tot_simtime) (Float.float duration) with
  | Float.Finite s => s
  | Float.Infinite => Float.float (Float.float tot_simtime + Float.float duration)
  end.

(** The assignments at the end of [run]: the job, the running flag and
    the accumulated time. *)
Definition submitted (self : t) (j : Job) (duration : Q) : t :=
  {| lam := lam self; run_no := run_no self; base_dir := base_dir self;
     input_dir := input_dir self; output_dir := output_dir self;
     job := Some j;
     _running := true;
     tot_simtime := added_time (tot_simtime self) duration;
     timestep := timestep self; nrg_freq := nrg_freq self;
     time_per_cycle := time_per_cycle self |}.

(** [int(duration / self.time_per_cycle)] *)
Definition n_cycles_of (duration time_per_cycle : Q) : result Z :=
  q <- Float.truediv (Float.float duration) (Float.float time_per_cycle) ;;
  Float.int q.

(** [Simulation.run(duration)]: the world and the simulation after the
    call, and whether the call returned or raised. *)
Definition run (w : world) (self : t) (duration : Q) : world * t * result unit :=
  match Dec.rem (Float.repr (Float.float duration))
                (Float.repr (Float.float (time_per_cycle self))) with
  | Raise e => (w, self, Raise e)
  | Ok remainder =>
    if negb (Qeq_bool (Dec.round (Float.float remainder) 4) 0) then
      (w, self, Raise (ValueError "Duration must be a multiple of the time per cycle."))
    else
      match n_cycles_of duration (time_per_cycle self) with
      | Raise e => (w, self, Raise e)
      | Ok n_cycles =>
        match _set_n_cycles w self n_cycles with
        | Raise e => (w, self, Raise e)
        | Ok w1 =>
          let (vq, j) := submit (virtual_queue w1) (run_command self) in
          ({| fs := fs w1; virtual_queue := vq |}, submitted self j duration, Ok tt)
        end
      end
  end.

End Run.

(** *** The running property and kill *)

(** Modelled from the spec: two jobs are the same job when identifier and
    command agree. *)
Definition job_eqb (a b : Job) : bool :=
  (job_id a =? job_id b)%nat && String.eqb (command a) (command b).

(** [self.job in self.virtual_queue.queue] *)
Definition job_in_queue (j : option Job) (vq : VirtualQueue) : bool :=
  match j with
  | None => false
  | Some j => existsb (job_eqb j) (queue vq)
  end.

Definition set_running (self : t) (value : bool) : t :=
  {| lam := lam self; run_no := run_no self; base_dir := base_dir self;
     input_dir := input_dir self; output_dir := output_dir self;
     job := job self;
     _running := value;
     tot_simtime := tot_simtime self;
     timestep := timestep self; nrg_freq := nrg_freq self;
     time_per_cycle := time_per_cycle self |}.

(** The [running] property: the flag is refreshed from the queue and
    returned. *)
Definition running (w : world) (self : t) : t * bool :=
  let r := job_in_queue (job self) (virtual_queue w) in
  (set_running self r, r).

(** Modelled from the spec: [VirtualQueue.kill(job)] asks for the end of
    the job, which leaves the queue; a job that is not queued any more is
    no error. *)
Definition queue_kill (vq : VirtualQueue) (j : Job) : VirtualQueue :=
  {| queue := filter (fun x => negb (job_eqb j x)) (queue vq); next_id := next_id vq |}.

(** [Simulation.kill()] *)
Definition kill (w : world) (self : t) : world * t * result unit :=
  match job self with
  | None => (w, self, Raise (ValueError "No job found. Cannot kill job."))
  | Some j =>
    ({| fs := fs w; virtual_queue := queue_kill (virtual_queue w) j |},
     set_running self false, Ok tt)
  end.

(** *** The attributes read from the configuration *)

Section Parsing.

(** [float(s)] and [int(s)] of a string. *)
Variable float_of_string : string -> result Q.
Variable int_of_string : string -> result Z.

(** The values found so far by the loop of
    [_add_attributes_from_simfile]: [(timestep, nmoves, nrg_freq)]. *)
Definition found : Type := (option Q * option Q * option Q)%type.

(** The body of that loop for one line; every matching line overwrites
    the value found before. *)
Definition read_attribute (acc : found) (line : string) : result found :=
  let '(timestep, nmoves, nrg_freq) := acc in
  timestep <-
    (if Fs.startswith line "timestep =" then
       piece <- Py.getitem (Str.split_on "=" line) 1 ;;
       word <- Py.getitem (Str.split piece) 0 ;;
       v <- float_of_string word ;;
       Ok (Some v)
     else Ok timestep) ;;
  nmoves <-
    (if Fs.startswith line "nmoves =" then
       piece <- Py.getitem (Str.split_on "=" line) 1 ;;
       v <- float_of_string piece ;;
       Ok (Some v)
     else Ok nmoves) ;;
  nrg_freq <-
    (if Fs.startswith line "energy frequency =" then
       piece <- Py.getitem (Str.split_on "=" line) 1 ;;
       v <- float_of_string piece ;;
       Ok (Some v)
     else Ok nrg_freq) ;;
  Ok (timestep, nmoves, nrg_freq).

(** [_add_attributes_from_simfile]: the attributes
    [(self.timestep, self.nrg_freq, self.time_per_cycle)] read from
    [somd.cfg]. *)
Definition _add_attributes_from_simfile (files : Fs.files) (input_dir : string)
  : result (Q * Q * Q) :=
  lines <- Fs.readlines files (input_dir ++ "/somd.cfg")%string ;;
  acc <- foldM read_attribute lines (None, None, None) ;;
  match acc with
  | (Some timestep, Some nmoves, Some nrg_freq) =>
    Ok (attributes_from_simfile timestep nmoves nrg_freq)
  | _ => Raise (ValueError "Could not find timestep or nmoves in somd.cfg.")
  end.

(** *** The gradients of the output file *)

(** The body of the loop of [read_gradients] for a line that is no
    comment: the step and the gradient of the line. *)
Definition read_sample (endstate : bool) (vals : list string) : result (Z * Q) :=
  v0 <- Py.getitem vals 0 ;;
  step <- int_of_string (Str.strip v0) ;;
  grad <-
    (if negb endstate then
       v2 <- Py.getitem vals 2 ;;
       float_of_string (Str.strip v2)
     else
       v5 <- Py.getitem vals 5 ;;
       energy_start <- float_of_string (Str.strip v5) ;;
       vl <- Py.getitem vals (-1) ;;
       energy_end <- float_of_string (Str.strip vl) ;;
       Ok (energy_end - energy_start)) ;;
  Ok (step, grad).

(** The loop over the lines: the steps and the gradients so far. *)
Fixpoint read_samples (endstate : bool) (lines : list string)
  : result (list Z * list Q) :=
  match lines with
  | [] => Ok ([], [])
  | line :: rest =>
    let vals := Str.split line in
    if negb (Fs.startswith line "#") then
      sample <- read_sample endstate vals ;;
      more <- read_samples endstate rest ;;
      Ok (fst sample :: fst more, snd sample :: snd more)
    else read_samples endstate rest
  end.

(** The file that [read_gradients] opens. *)
Definition gradients_path (self : t) (equilibrated_only : bool) : string :=
  if equilibrated_only then Str.path_join (output_dir self) "simfile_equilibrated.dat"
  else Str.path_join (output_dir self) "/simfile.dat".

(** [read_gradients(equilibrated_only, endstate)]: the times and the
    gradients. *)
Definition read_gradients (files : Fs.files) (self : t)
    (equilibrated_only endstate : bool) : result (list Q * list Q) :=
  lines <- Fs.readlines files (gradients_path self equilibrated_only) ;;
  samples <- read_samples endstate lines ;;
  let times := map (fun x => inject_Z x * timestep self) (fst samples) in
  Ok (times, snd samples).

End Parsing.


End Simulation.

(** ** run/stage.py *)

Module Stage.

(** Modelled from the spec: [LamWindow] of [run/lambda_window.py], which is
    not among the files embedded here; the attributes that [stage.py] reads.
    [tot_simtime] is the time accumulated over the repeats, [_equilibrated]
    and [equil_time] are the cached results of the equilibration
    detection. *)
Record LamWindow : Type := {
  lam : R;
  ensemble_size : nat;
  sims : list Simulation.t;
  tot_simtime : Q;
  _equilibrated : bool;
  equil_time : option Q
}.

(** The attributes of a [Stage] that the run loop and the analysis use.
    [running_wins] holds references to windows of [lam_windows], kept here
    as their positions in that list. *)
Record t : Type := {
  lam_vals : list R;
  lam_windows : list LamWindow;
  running_wins : list nat;
  _maximally_efficient : bool;
  kill_thread : bool;
  runtime_constant : option R;
  output_dir : string
}.

(** *** The trapezoidal weights of the lambda windows *)

Section Weights.
Local Open Scope R_scope.

(** The body of the loop of the [lam_val_weights] property for index [i]
    and element [lam_val]. *)
Definition lam_val_weight (lam_vals : list R) (i : nat) (lam_val : R) : result R :=
  if (i =? 0)%nat then
    nxt <- Py.getitem lam_vals (Z.of_nat i + 1) ;;
    Ok (0.5 * (nxt - lam_val))
  else if (Z.of_nat i =? Z.of_nat (length lam_vals) - 1)%Z then
    prv <- Py.getitem lam_vals (Z.of_nat i - 1) ;;
    Ok (0.5 * (lam_val - prv))
  else
    nxt <- Py.getitem lam_vals (Z.of_nat i + 1) ;;
    prv <- Py.getitem lam_vals (Z.of_nat i - 1) ;;
    Ok (0.5 * (nxt - prv)).

Definition lam_val_weights (lam_vals : list R) : result (list R) :=
  mapM (fun '(i, lam_val) => lam_val_weight lam_vals i lam_val)
       (Py.enumerate lam_vals).

End Weights.

(** *** The extraction of the equilibrated region *)

(** The number of lines before the data: the leading lines that start
    with [#]. *)
Fixpoint non_data_lines (lines : list string) : nat :=
  match lines with
  | [] => 0
  | line :: rest => if Fs.startswith line "#" then S (non_data_lines rest) else 0
  end.

(** The lines that [_write_equilibrated_data] writes, in order: the header
    [lines[:non_data_lines]], then [lines[equil_index + non_data_lines:]]. *)
Definition equilibrated_lines (lines : list string) (equil_index : Z) : list string :=
  let n := non_data_lines lines in
  Py.slice_to n lines ++ Py.slice_from (equil_index + Z.of_nat n) lines.

Definition _write_equilibrated_data (fs : Fs.files) (in_simfile out_simfile : string)
    (equil_index : Z) : result Fs.files :=
  lines <- Fs.readlines fs in_simfile ;;
  Ok (Fs.write fs out_simfile (equilibrated_lines lines equil_index)).

(** [int(equil_time / (timestep * nrg_freq)) - 1], in double precision.
    A product beyond the largest double is [inf], and the quotient by it
    is zero. *)
Definition equil_index (equil_time timestep nrg_freq : Q) : result Z :=
  q <- match Float.mul (Float.float timestep) (Float.float nrg_freq) with
       | Float.Finite p => Float.truediv (Float.float equil_time) p
       | Float.Infinite => Ok (Float.Finite 0)
       end ;;
  n <- Float.int q ;;
  Ok (n - 1)%Z.

(** The header of a simulation file and its data rows, as the interface
    of the output stream describes them. *)
Fixpoint header_of (lines : list string) : list string :=
  match lines with
  | [] => []
  | line :: rest => if Fs.startswith line "#" then line :: header_of rest else []
  end.

Fixpoint data_rows_of (lines : list string) : list string :=
  match lines with
  | [] => []
  | line :: rest => if Fs.startswith line "#" then data_rows_of rest else lines
  end.

(** *** The analysis *)

Inductive event : Type :=
| LogInfo (msg : string)
| LogError (msg : string)
| Mbar
| Plot (what : string)
| StatsWritten.

Definition is_log (e : event) : bool :=
  match e with
  | LogInfo _ | LogError _ => true
  | _ => false
  end.

Record world : Type := { fs : Fs.files; events : list event }.

(** State and exceptions: what a method does to the files and the record
    of what it did, and what it returns or raises. *)
Definition M (A : Type) : Type := world -> world * result A.

Definition ret {A : Type} (a : A) : M A := fun w => (w, Ok a).
Definition raise {A : Type} (e : exn) : M A := fun w => (w, Raise e).
Definition bindM {A B : Type} (m : M A) (k : A -> M B) : M B :=
  fun w => match m w with
           | (w', Ok a) => k a w'
           | (w', Raise e) => (w', Raise e)
           end.
Definition emit (e : event) : M unit :=
  fun w => ({| fs := fs w; events := events w ++ [e] |}, Ok tt).
Definition lift {A : Type} (r : result A) : M A := fun w => (w, r).
Definition on_files (f : Fs.files -> result Fs.files) : M unit :=
  fun w => match f (fs w) with
           | Ok fs' => ({| fs := fs'; events := events w |}, Ok tt)
           | Raise e => (w, Raise e)
           end.

Notation "x <~ m ;; k" := (bindM m (fun x => k))
  (at level 61, m at next level, right associativity).
Notation "m ;;; k" := (bindM m (fun _ => k))
  (at level 61, right associativity).

Fixpoint forM_ {A : Type} (l : list A) (f : A -> M unit) : M unit :=
  match l with
  | [] => ret tt
  | a :: l' => f a ;;; forM_ l' f
  end.

(** What a refused analysis leaves behind: a [RuntimeError], the files as
    they were, and nothing but log entries added to the record. *)
Definition refused {A : Type} (w : world) (out : world * result A) : Prop :=
  exists msg logs,
    snd out = Raise (RuntimeError msg)
    /\ fs (fst out) = fs w
    /\ events (fst out) = events w ++ logs
    /\ forallb is_log logs = true.

Section Analyse.

(** The [running] and [failed_simulations] properties that [Stage]
    inherits from [SimulationRunner], and the free-energy estimator
    [run_mbar]; they are defined in files that are not embedded here. *)
Variable running : t -> bool.
Variable failed_simulations : t -> list Simulation.t.
Variable run_mbar : string -> nat -> bool -> M (list R * list R).
Variable ensemble_size_of : t -> nat.

(** The check of one window that all windows have equilibrated. *)
Definition check_equilibrated (win : LamWindow) : M unit :=
  if negb (_equilibrated win) then
    raise (RuntimeError "Not all lambda windows have equilibrated. Analysis cannot be performed.")
  else match equil_time win with
       | None => raise (RuntimeError "Despite equilibration being detected, no equilibration time was found.")
       | Some _ => ret tt
       end.

(** The removal of the unequilibrated data of one window. *)
Definition truncate_window (win : LamWindow) : M unit :=
  match equil_time win with
  | None => raise TypeError
  | Some time =>
    sim0 <~ lift (Py.getitem (sims win) 0) ;;
    idx <~ lift (equil_index time (Simulation.timestep sim0) (Simulation.nrg_freq sim0)) ;;
    forM_ (sims win) (fun sim =>
      on_files (fun fs =>
        _write_equilibrated_data fs
          (Simulation.output_dir sim ++ "/simfile.dat")%string
          (Simulation.output_dir sim ++ "/simfile_equilibrated.dat")%string
          idx))
  end.

Definition gradient_plots : list string :=
  ["mean"; "intra_run_variance"; "sem"; "stat_ineff"; "integrated_sem";
   "integrated_var"; "sq_sem_sim_time"; "pred_best_simtime"].

(** [Stage.analyse].  The plotting helpers and the [GradientData] built
    for them appear as the events of their calls; what they read, and an
    exception of theirs, is not modelled. *)
Definition analyse (self : t) (get_frnrg subsampling : bool)
  : M (option (list R * list R)) :=
  if running self then
    raise (RuntimeError "Cannot perform analysis as the Stage is still running")
  else
    let failed_sims_list := failed_simulations self in
    match failed_sims_list with
    | _ :: _ =>
      emit (LogError "Unable to perform analysis as several simulations did not complete successfully") ;;;
      emit (LogError "Please check the output in the following directories:") ;;;
      forM_ failed_sims_list (fun failed_sim => emit (LogError (Simulation.base_dir failed_sim))) ;;;
      raise (RuntimeError "Unable to perform analysis as several simulations did not complete successfully")
    | [] =>
      forM_ (lam_windows self) check_equilibrated ;;;
      res <~ (if get_frnrg then
                emit (LogInfo "Computing free energy changes using the MBAR") ;;;
                forM_ (lam_windows self) truncate_window ;;;
                r <~ run_mbar (output_dir self) (ensemble_size_of self) subsampling ;;
                emit Mbar ;;;
                emit StatsWritten ;;;
                emit (Plot "overlap_mats") ;;;
                emit (Plot "mbar_pmf") ;;;
                emit (Plot "predicted_overlap_mats") ;;;
                ret (Some r)
              else ret None) ;;
      emit (LogInfo "Plotting RMSDs") ;;;
      emit (LogInfo "Plotting gradients data") ;;;
      forM_ gradient_plots (fun plot_type => emit (Plot plot_type)) ;;;
      emit (Plot "gradient_hists") ;;;
      emit (Plot "gradient_timeseries") ;;;
      emit (LogInfo "Plotting equilibration times") ;;;
      emit (Plot "equilibration_time") ;;;
      emit StatsWritten ;;;
      ret res
    end.

End Analyse.

(** *** The adaptive run loop for maximal efficiency *)

Section Efficiency.
Local Open Scope R_scope.

(** [GradientData(lam_winds, equilibrated)], which reads the gradients of
    every simulation from its output file, and [LamWindow.run(duration)];
    the first depends on files and on the autocorrelation module, the
    second on [lambda_window.py]. *)
Variable new_GradientData : list LamWindow -> bool -> result ProcessGrads.GradientData.
Variable win_run : LamWindow -> R -> result LamWindow.

(** What the other threads and the scheduler do between two polls:
    whether [kill_thread] is found set at poll [p], and whether the
    [running] property of window [k] is true at poll [p]. *)
Variable kill_requested : nat -> bool.
Variable win_running : nat -> nat -> bool.

(** [l[i] = v] *)
Fixpoint set_nth {A : Type} (l : list A) (i : nat) (v : A) : list A :=
  match l, i with
  | [], _ => []
  | _ :: l', O => v :: l'
  | a :: l', S i' => a :: set_nth l' i' v
  end.

(** [l.remove(x)]: the first occurrence goes. *)
Fixpoint remove_first (x : nat) (l : list nat) : list nat :=
  match l with
  | [] => []
  | y :: l' => if (x =? y)%nat then l' else y :: remove_first x l'
  end.

Definition with_windows (self : t) (wins : list LamWindow) (rw : list nat) : t :=
  {| lam_vals := lam_vals self; lam_windows := wins; running_wins := rw;
     _maximally_efficient := _maximally_efficient self;
     kill_thread := kill_thread self;
     runtime_constant := runtime_constant self;
     output_dir := output_dir self |}.

Definition set_maximally_efficient (self : t) : t :=
  {| lam_vals := lam_vals self; lam_windows := lam_windows self;
     running_wins := running_wins self;
     _maximally_efficient := true;
     kill_thread := kill_thread self;
     runtime_constant := runtime_constant self;
     output_dir := output_dir self |}.

(** The body of [for i, win in enumerate(self.lam_windows)]. *)
Definition resubmit_step (maximum_runtime : R) (smooth_dg_sems : list R)
    (self : t) (iw : nat * LamWindow) : result t :=
  let (i, win) := iw in
  normalised_sem_dg <- Py.getitem smooth_dg_sems (Z.of_nat i) ;;
  runtime_constant <- match runtime_constant self with
                      | Some c => Ok c
                      | None => Raise TypeError
                      end ;;
  let predicted_run_time_max_eff := (1 / sqrt runtime_constant) * normalised_sem_dg in
  let predicted_run_time_max_eff :=
    if Rgt_dec predicted_run_time_max_eff (maximum_runtime * INR (ensemble_size win))
    then maximum_runtime * INR (ensemble_size win)
    else predicted_run_time_max_eff in
  let actual_run_time := Q2R (tot_simtime win) in
  if Rlt_dec actual_run_time (predicted_run_time_max_eff - 0.1) then
    let resubmit_time :=
      Np.round ((predicted_run_time_max_eff - actual_run_time) / INR (ensemble_size win)) 1 in
    if Rgt_dec resubmit_time 0 then
      win' <- win_run win resubmit_time ;;
      Ok (with_windows self (set_nth (lam_windows self) i win') (running_wins self ++ [i]))
    else Ok self
  else Ok self.

(** One pass of the outer loop once every window has stopped: the
    gradient data, the standard errors, the decision for each window and
    the flag. *)
Definition resubmit_pass (maximum_runtime : R) (self : t) : result t :=
  gradient_data <- new_GradientData (lam_windows self) false ;;
  smooth_dg_sems <- ProcessGrads.get_sems gradient_data "inter_delta_g" true ;;
  self' <- foldM (resubmit_step maximum_runtime smooth_dg_sems)
                 (Py.enumerate (lam_windows self)) self ;;
  match running_wins self' with
  | [] => Ok (set_maximally_efficient self')
  | _ :: _ => Ok self'
  end.

(** [for win in self.running_wins] at poll [p], a loop over a list that
    its body shortens: position [k] moves on by one in every iteration,
    whether the element there was removed or not. *)
Fixpoint poll_scan (fuel p k : nat) (rw : list nat) : list nat :=
  match fuel with
  | O => rw
  | S fuel' =>
    match nth_error rw k with
    | None => rw
    | Some w =>
      if win_running p w then poll_scan fuel' p (S k) rw
      else poll_scan fuel' p (S k) (remove_first w rw)
    end
  end.

Inductive drained : Type :=
| Drained (p : nat) (self : t)
| DrainKilled (self : t)
| StillRunning.

(** [while self.running_wins], from poll [p] on, for at most [fuel] polls. *)
Fixpoint drain (fuel p : nat) (self : t) : drained :=
  match running_wins self with
  | [] => Drained p self
  | _ :: _ =>
    match fuel with
    | O => StillRunning
    | S fuel' =>
      if kill_requested p then DrainKilled self
      else drain fuel' (S p)
             (with_windows self (lam_windows self)
                (poll_scan (length (running_wins self)) p 0 (running_wins self)))
    end
  end.

Inductive outcome : Type :=
| Returned (self : t)
| Raised (e : exn) (self : t)
| Unfinished.

(** [_run_loop_adaptive_efficiency]: at most [passes] passes of the outer
    loop, each waiting for at most [fuel] polls. *)
Fixpoint _run_loop_adaptive_efficiency (maximum_runtime : R) (passes fuel p : nat)
    (self : t) : outcome :=
  if _maximally_efficient self then Returned self
  else
    match passes with
    | O => Unfinished
    | S passes' =>
      match drain fuel p self with
      | StillRunning => Unfinished
      | DrainKilled self' => Returned self'
      | Drained p' self' =>
        match resubmit_pass maximum_runtime self' with
        | Raise e => Raised e self'
        | Ok self'' => _run_loop_adaptive_efficiency maximum_runtime passes' fuel p' self''
        end
      end
    end.

End Efficiency.

(** *** The lambda values of the configuration *)

Section LamVals.

(** [float(s)] of a string. *)
Variable float_of_string : string -> result Q.

(** The loop of [_get_lam_vals]: the pieces of the first line that starts
    with [lambda array =], and no piece when there is no such line. *)
Fixpoint lam_vals_str (lines : list string) : result (list string) :=
  match lines with
  | [] => Ok []
  | line :: rest =>
    if Fs.startswith line "lambda array =" then
      piece <- Py.getitem (Str.split_on "=" line) 1 ;;
      Ok (Str.split_on "," piece)
    else lam_vals_str rest
  end.

(** [_get_lam_vals]: the lambda values of [somd.cfg]. *)
Definition _get_lam_vals (files : Fs.files) (input_dir : string) : result (list Q) :=
  lines <- Fs.readlines files (input_dir ++ "/somd.cfg")%string ;;
  strs <- lam_vals_str lines ;;
  mapM float_of_string strs.

End LamVals.

(** *** Running a stage *)

Section Run.
Local Open Scope R_scope.

Variable new_GradientData : list LamWindow -> bool -> result ProcessGrads.GradientData.
Variable win_run : LamWindow -> R -> result LamWindow.
Variable kill_requested : nat -> bool.
Variable win_running : nat -> nat -> bool.





End Run.

(** The positions that one poll leaves in [running_wins] when every
    window there has stopped: the loop removes the element it looks at and
    steps over the one that takes its place. *)
Fixpoint skipped (l : list nat) : list nat :=
  match l with
  | [] => []
  | _ :: t => match t with
              | [] => []
              | b :: r => b :: skipped r
              end
  end.

End Stage.

(** ** analyse/process_grads.py: the construction of the gradient data *)

Module GradientDataInit.
Import ProcessGrads.
Local Open Scope R_scope.

(** [np.mean(a)] and [np.var(a)], the mean of the squared distances to
    the mean, of an array that is not empty. *)
Definition mean (l : list R) : R := Np.sum l / INR (length l).

Definition var (l : list R) : R :=
  mean (map (fun x => (x - mean l) * (x - mean l)) l).

(** Every [k]-th element, the first one after [skip] elements. *)
Fixpoint every (k : nat) (l : list R) (skip : nat) : list R :=
  match l with
  | [] => []
  | a :: r => match skip with
              | O => a :: every k r (k - 1)
              | S s => every k r s
              end
  end.

(** [a[::step]] *)
Definition subsample (l : list R) (step : Z) : result (list R) :=
  if (step =? 0)%Z then Raise (ValueError "slice step cannot be zero")
  else if (0 <? step)%Z then Ok (every (Z.to_nat step) l 0)
  else Ok (every (Z.to_nat (- step)) (rev l) 0).

(** [np.array(rows)] for rows of numbers: a window without repeat gives an
    array without row; rows of different lengths are refused (numpy 1.24
    and later). *)
Definition rectangular (rows : list (list R)) : result (list (list R)) :=
  match rows with
  | [] => Ok []
  | r :: rest =>
    if forallb (fun r' => (length r' =? length r)%nat) rest then Ok rows
    else Raise (ValueError "setting an array element with a sequence.")
  end.

Section Init.

(** The gradients that [sim.read_gradients(equilibrated_only=...)]
    returns, and [get_statistical_inefficiency] of the autocorrelation
    module. *)
Variable read_gradients : Simulation.t -> bool -> result (list R).
Variable get_statistical_inefficiency : list R -> R.

(** What the inner loop appends for one simulation. *)
Record sim_stats : Type := {
  s_gradients : list R;
  s_mean : R;
  s_stat_ineff : R;
  s_subsampled : list R;
  s_var : R;
  s_squared_sem : R
}.

Definition sim_statistics (equilibrated : bool) (sim : Simulation.t) : result sim_stats :=
  gradients <- read_gradients sim equilibrated ;;
  let stat_ineff := get_statistical_inefficiency gradients in
  let mean := mean gradients in
  subsampled_grads <- subsample gradients (Np.int stat_ineff) ;;
  let var := var subsampled_grads in
  let squared_sem := var / INR (length subsampled_grads) in
  Ok {| s_gradients := gradients; s_mean := mean; s_stat_ineff := stat_ineff;
        s_subsampled := subsampled_grads; s_var := var; s_squared_sem := squared_sem |}.

(** What the outer loop appends for one window. *)
Record wind_stats : Type := {
  w_lam : R;
  w_gradients : list (list R);
  w_mean : R;
  w_sem_tot : R;
  w_sem_intra : R;
  w_sem_inter : R;
  w_var_intra : R;
  w_stat_ineff : R
}.

Definition window_statistics (equilibrated : bool) (lam : Stage.LamWindow)
  : result wind_stats :=
  stats <- mapM (sim_statistics equilibrated) (Stage.sims lam) ;;
  let n_sims := INR (length (Stage.sims lam)) in
  let var_intra := mean (map s_var stats) in
  let squared_sem_intra := mean (map s_squared_sem stats) / n_sims in
  let stat_ineff := mean (map s_stat_ineff stats) in
  let squared_sem_inter := var (map s_mean stats) / n_sims in
  let mean_overall := mean (map s_mean stats) in
  let tot_sem := sqrt (squared_sem_inter + squared_sem_intra) in
  let sem_intra := sqrt squared_sem_intra in
  let sem_inter := sqrt squared_sem_inter in
  gradients <- rectangular (map s_gradients stats) ;;
  Ok {| w_lam := Stage.lam lam; w_gradients := gradients; w_mean := mean_overall;
        w_sem_tot := tot_sem; w_sem_intra := sem_intra; w_sem_inter := sem_inter;
        w_var_intra := var_intra; w_stat_ineff := stat_ineff |}.

(** [win.sims[0].tot_simtime] *)
Definition end_time (win : Stage.LamWindow) : result R :=
  sim <- Py.getitem (Stage.sims win) 0 ;;
  Ok (Q2R (Simulation.tot_simtime sim)).

(** The check that [times] makes of one window: a start time and the
    gradients of the first repeat. *)
Definition times_of (start : option R) (w : wind_stats) : result nat :=
  first <- Py.getitem (w_gradients w) 0 ;;
  match start with
  | Some _ => Ok (length first)
  | None => Raise TypeError
  end.

Fixpoint zipM {A B C : Type} (f : A -> B -> result C) (l : list A) (m : list B)
  : result (list C) :=
  match l, m with
  | a :: l', b :: m' => c <- f a b ;; cs <- zipM f l' m' ;; Ok (c :: cs)
  | _, _ => Ok []
  end.

(** [GradientData.__init__(lam_winds, equilibrated)]: the attributes
    kept of the gradient data. *)
Definition __init__ (lam_winds : list Stage.LamWindow) (equilibrated : bool)
  : result GradientData :=
  winds <- mapM (window_statistics equilibrated) lam_winds ;;
  first_win <- Py.getitem lam_winds 0 ;;
  first_sim <- Py.getitem (Stage.sims first_win) 0 ;;
  let stat_ineffs :=
    map (fun w => w_stat_ineff w * Q2R (Simulation.timestep first_sim)) winds in
  let start_times :=
    if equilibrated then map (fun win => option_map Q2R (Stage.equil_time win)) lam_winds
    else map (fun _ => Some 0) lam_winds in
  end_times <- mapM end_time lam_winds ;;
  _ <- zipM times_of start_times winds ;;
  sampling <- zipM (fun e s => match s with
                               | Some s => Ok (e - s)
                               | None => Raise TypeError
                               end) end_times start_times ;;
  Ok {| equilibrated := equilibrated;
        lam_vals := map w_lam winds;
        sampling_times := sampling;
        means := map w_mean winds;
        sems_overall := map w_sem_tot winds;
        sems_intra := map w_sem_intra winds;
        sems_inter := map w_sem_inter winds;
        vars_intra := map w_var_intra winds;
        stat_ineffs := stat_ineffs |}.

End Init.

End GradientDataInit.

(** ** run/calculation.py *)

Module Calculation.

Inductive LegType : Type := FREE | BOUND.

Definition leg_name (l : LegType) : string :=
  match l with FREE => "free" | BOUND => "bound" end.

(** [Calculation.required_legs] *)
Definition required_legs : list LegType := [FREE; BOUND].

Section Setup.

(** [Leg] of [run/leg.py], which is not among the files embedded here: its
    constructor and its [setup] method, which changes the leg and may
    raise. *)
Variable Leg : Type.
Variable new_Leg : LegType -> result Leg.
Variable leg_setup : Leg -> bool -> string -> bool -> bool -> Leg * result unit.

Record t : Type := {
  setup_complete : bool;
  legs : list Leg;
  log : list string;
  dumps : nat
}.

Definition info (self : t) (msg : string) : t :=
  {| setup_complete := setup_complete self; legs := legs self;
     log := log self ++ [msg]; dumps := dumps self |}.

(** The [legs] setter *)
Definition set_legs (self : t) (value : list Leg) : t :=
  let self := info self "Modifying/ creating legs" in
  {| setup_complete := setup_complete self; legs := value;
     log := log self; dumps := dumps self |}.

(** The body of [for leg_type in reversed(Calculation.required_legs)]; the
    leg is in [self.legs] before its [setup] runs. *)
Definition setup_leg (slurm : bool) (append_to_ligand_selection : string)
    (use_same_restraints short_ensemble_equil : bool)
    (self : t) (leg_type : LegType) : t * result unit :=
  let self := info self ("Setting up " ++ leg_name leg_type ++ " leg...")%string in
  match new_Leg leg_type with
  | Raise e => (self, Raise e)
  | Ok leg =>
    let (leg', r) := leg_setup leg slurm append_to_ligand_selection
                               use_same_restraints short_ensemble_equil in
    ({| setup_complete := setup_complete self; legs := legs self ++ [leg'];
        log := log self; dumps := dumps self |}, r)
  end.

Fixpoint setup_legs (slurm : bool) (append_to_ligand_selection : string)
    (use_same_restraints short_ensemble_equil : bool)
    (self : t) (leg_types : list LegType) : t * result unit :=
  match leg_types with
  | [] => (self, Ok tt)
  | leg_type :: rest =>
    match setup_leg slurm append_to_ligand_selection use_same_restraints
                    short_ensemble_equil self leg_type with
    | (self', Ok _) => setup_legs slurm append_to_ligand_selection use_same_restraints
                                  short_ensemble_equil self' rest
    | (self', Raise e) => (self', Raise e)
    end
  end.

(** [Calculation.setup]: the calculation after the call, and whether the
    call returned or raised. *)
Definition setup (self : t) (slurm : bool) (append_to_ligand_selection : string)
    (use_same_restraints short_ensemble_equil : bool) : t * result unit :=
  if setup_complete self then
    (info self "Setup already complete. Skipping...", Ok tt)
  else
    match setup_legs slurm append_to_ligand_selection use_same_restraints
                     short_ensemble_equil (set_legs self []) (rev required_legs) with
    | (self', Raise e) => (self', Raise e)
    | (self', Ok _) =>
      ({| setup_complete := true; legs := legs self';
          log := log self'; dumps := S (dumps self') |}, Ok tt)
    end.

End Setup.

(** *** The validation of the input *)

Section ValidateInput.

(** [PreparationStage] of [run/enums.py] with its members in the order of
    their definition, the table [Leg.required_input_files] of
    [run/leg.py], and [os.path.isfile]. *)
Variable PreparationStage : Type.
Variable preparation_stages : list PreparationStage.
Variable required_input_files : LegType -> PreparationStage -> list string.
Variable isfile : string -> bool.

(** The flag [files_absent] after the two inner loops for one
    preparation stage. *)
Definition files_absent (input_dir : string) (prep_stage : PreparationStage) : bool :=
  existsb (fun leg_type =>
             existsb (fun file => negb (isfile (input_dir ++ "/" ++ file)%string))
                     (required_input_files leg_type prep_stage))
          required_legs.

(** The outer loop over the stages given, the most advanced first. *)
Fixpoint first_complete (input_dir : string) (stages : list PreparationStage)
  : result PreparationStage :=
  match stages with
  | [] => Raise (ValueError "Could not find all required input files for any preparation stage.")
  | prep_stage :: rest =>
    if negb (files_absent input_dir prep_stage) then Ok prep_stage
    else first_complete input_dir rest
  end.

(** [_validate_input]: the value given to [self.prep_stage]. *)
Definition _validate_input (input_dir : string) : result PreparationStage :=
  first_complete input_dir (rev preparation_stages).

End ValidateInput.

End Calculation.

(** ** Closed forms and the words of the specification

    The definitions below are not part of the program.  They name the
    values that its loops compute, and properties that the specification
    states, so that the theorems can refer to them. *)

(** A call raises. *)
Definition raises {A : Type} (r : result A) : Prop := exists e, r = Raise e.


Section ClosedForms.
Local Open Scope R_scope.

(** Each element is below the next one. *)
Definition increasing_nth (l : list R) : Prop :=
  forall i, (S i < length l)%nat -> nth i l 0 < nth (S i) l 0.

(** The value of [np.interp(x, xp, fp)] for [x] between the first and the
    last sample point. *)
Definition segment (x : R) (xp fp : list R) : R :=
  let j := Np.search x (tl xp) in
  if (j =? length xp - 1)%nat then nth j fp 0
  else (nth (S j) fp 0 - nth j fp 0) / (nth (S j) xp 0 - nth j xp 0)
       * (x - nth j xp 0) + nth j fp 0.

(** Non-decreasing lists of reals. *)
Fixpoint non_decreasing (l : list R) : Prop :=
  match l with
  | [] => True
  | a :: l' => match l' with
               | [] => True
               | b :: _ => a <= b /\ non_decreasing l'
               end
  end.

(** Sample [i] of [np.linspace(start, stop, n)]. *)
Definition linspace_val (start stop : R) (n i : nat) : R :=
  if ((1 <? n) && (i =? n - 1))%nat then stop
  else start + INR i * ((stop - start) / INR (n - 1)).

(** The weight of window [i] in closed form. *)
Definition weight_at (l : list R) (i : nat) : R :=
  if (i =? 0)%nat then 0.5 * (nth 1 l 0 - nth 0 l 0)
  else if (i =? length l - 1)%nat then 0.5 * (nth i l 0 - nth (i - 1) l 0)
  else 0.5 * (nth (i + 1) l 0 - nth (i - 1) l 0).

(** The value of [np.trapz(y, x)] on arrays of one length. *)
Definition trapz_val (y x : list R) : R :=
  Np.sum (map (fun v => v / 2)
              (Np.zip_with Rmult (Np.diff x) (Np.adjacent (fun a b => b + a) y))).

(** The integral up to window [i]. *)
Definition prefix_integral (y x : list R) (i : nat) : R :=
  trapz_val (firstn (i + 1) y) (firstn (i + 1) x).

(** The integrated errors of an error series [y] over the lambda values
    [x]. *)
Definition integrated_errors (y x : list R) : list R :=
  map (prefix_integral y x) (seq 0 (length x)).

(** The lambda value for a requested error, rounded to three places. *)
Definition pick_lam (ie lams : list R) (requested_sem : R) : R :=
  Np.round (segment requested_sem ie lams) 3.

(** The block average over three points of a series, in the words of the
    specification: a window at an edge with its one neighbour, a window
    inside with both neighbours, all taken from the series itself. *)
Definition block_average (series : list R) : list R :=
  map (fun i =>
         if (i =? 0)%nat then (nth i series 0 + nth (i + 1) series 0) / 2
         else if (i =? length series - 1)%nat then
           (nth i series 0 + nth (i - 1) series 0) / 2
         else (nth i series 0 + nth (i + 1) series 0 + nth (i - 1) series 0) / 3)
      (seq 0 (length series)).

End ClosedForms.

(** ** Example inputs *)

Section CalculationExamples.
Import Calculation.

(** A calculation that has been set up, with legs that always succeed. *)
Definition done_calculation : t unit :=
  {| setup_complete := true; legs := [tt; tt]; log := []; dumps := 1 |}.

End CalculationExamples.

(** A stage whose second window has not equilibrated. *)
Definition unequilibrated_window : Stage.LamWindow :=
  {| Stage.lam := 1%R; Stage.ensemble_size := 1; Stage.sims := [];
     Stage.tot_simtime := 1%Q; Stage._equilibrated := false;
     Stage.equil_time := None |}.

Definition half_equilibrated_stage : Stage.t :=
  {| Stage.lam_vals := [0; 1]%R;
     Stage.lam_windows :=
       [ {| Stage.lam := 0%R; Stage.ensemble_size := 1; Stage.sims := [];
            Stage.tot_simtime := 1%Q; Stage._equilibrated := true;
            Stage.equil_time := Some 0%Q |};
         unequilibrated_window ];
     Stage.running_wins := [];
     Stage._maximally_efficient := false;
     Stage.kill_thread := false;
     Stage.runtime_constant := None;
     Stage.output_dir := "output" |}.

Definition empty_world : Stage.world :=
  {| Stage.fs := fun _ => None; Stage.events := [] |}.

(** A simulation of 0.1 ns per cycle and its configuration file. *)
Definition example_cfg : list string :=
  [ "nmoves = 25000" ++ Fs.newline;
    "ncycles = 5" ++ Fs.newline;
    "timestep = 4 * femtosecond" ++ Fs.newline ]%string.

Definition example_simulation : Simulation.t :=
  {| Simulation.lam := 0%Q; Simulation.run_no := 1;
     Simulation.base_dir := "lambda_0.000/run_01";
     Simulation.input_dir := "lambda_0.000/run_01/input";
     Simulation.output_dir := "lambda_0.000/run_01/output";
     Simulation.job := None; Simulation._running := false;
     Simulation.tot_simtime := 0%Q;
     Simulation.timestep := (4 # 1000000)%Q; Simulation.nrg_freq := 100%Q;
     Simulation.time_per_cycle := (1 # 10)%Q |}.

Definition example_world : Simulation.world :=
  {| Simulation.fs := Fs.write (fun _ => None) "lambda_0.000/run_01/input/somd.cfg" example_cfg;
     Simulation.virtual_queue := {| Simulation.queue := []; Simulation.next_id := 0 |} |}.

(** An output file of one header line and three samples, of a simulation
    with a timestep of 4 fs that writes an energy every 100 steps. *)
Definition example_simfile : list string :=
  [ "#   [step]      [potential kcal/mol]       [gradient kcal/mol]" ++ Fs.newline;
    "100  -9876.5  1.25" ++ Fs.newline;
    "200  -9875.0  1.50" ++ Fs.newline;
    "300  -9874.5  1.75" ++ Fs.newline ]%string.

Definition example_files : Fs.files :=
  Fs.write (fun _ => None) "output/simfile.dat" example_simfile.

Section GradientExamples.
Import ProcessGrads.
Local Open Scope R_scope.

Definition example_lam_vals : list R := [0; 0.25; 1].

(** Three windows run for 4 ns each, with an inter-run error of 3 and an
    intra-run error of 4 in every window, and so an overall error of 5. *)
Definition flat_gradient_data : GradientData :=
  {| equilibrated := false;
     lam_vals := [0; 0.5; 1];
     sampling_times := [4; 4; 4];
     means := [1.8; 1.6; 1.4];
     sems_overall := [5; 5; 5];
     sems_intra := [4; 4; 4];
     sems_inter := [3; 3; 3];
     vars_intra := [1; 1; 1];
     stat_ineffs := [1; 1; 1] |}.

(** The root of the intra-run variance of the three windows of
    [flat_gradient_data], which is the error series for [root_var]. *)
Definition flat_root_var : list R := map sqrt (vars_intra flat_gradient_data).


(** Two windows at 0 and 0.3 with an intra-run variance of 1: the total
    integrated error for [root_var] is 0.3. *)
Definition short_gradient_data : GradientData :=
  {| equilibrated := false;
     lam_vals := [0; 0.3];
     sampling_times := [4; 4];
     means := [1.8; 1.6];
     sems_overall := [5; 5];
     sems_intra := [4; 4];
     sems_inter := [3; 3];
     vars_intra := [1; 1];
     stat_ineffs := [1; 1] |}.

(** Three windows of one repeat each: the mean of a single repeat has no
    spread, so the inter-run error of every window is zero. *)
Definition single_repeat_gradient_data : GradientData :=
  {| equilibrated := false;
     lam_vals := [0; 0.5; 1];
     sampling_times := [4; 4; 4];
     means := [1.8; 1.6; 1.4];
     sems_overall := [4; 4; 4];
     sems_intra := [4; 4; 4];
     sems_inter := [0; 0; 0];
     vars_intra := [1; 1; 1];
     stat_ineffs := [1; 1; 1] |}.

End GradientExamples.

(** ** Further example inputs *)


(** A simulation whose output is in [output], and a window that has
    equilibrated after 0.4 ns with that simulation alone. *)
Definition output_simulation : Simulation.t :=
  {| Simulation.lam := 0%Q; Simulation.run_no := 1;
     Simulation.base_dir := "";
     Simulation.input_dir := "input";
     Simulation.output_dir := "output";
     Simulation.job := None; Simulation._running := false;
     Simulation.tot_simtime := 1%Q;
     Simulation.timestep := (4 # 1000000)%Q; Simulation.nrg_freq := 100%Q;
     Simulation.time_per_cycle := (1 # 10)%Q |}.

Definition equilibrated_window : Stage.LamWindow :=
  {| Stage.lam := 0%R; Stage.ensemble_size := 1;
     Stage.sims := [output_simulation];
     Stage.tot_simtime := 1%Q; Stage._equilibrated := true;
     Stage.equil_time := Some (4 # 10)%Q |}.

Definition equilibrated_files : Fs.files :=
  Fs.write (fun _ => None) "output/simfile_equilibrated.dat" example_simfile.

Definition example_stage_world : Stage.world :=
  {| Stage.fs := example_files; Stage.events := [] |}.

(** A configuration with the lambda values of a stage, given twice. *)
Definition lam_array_cfg : list string :=
  [ "nmoves = 25000" ++ Fs.newline;
    "lambda array = 0.0, 0.5, 1.0" ++ Fs.newline;
    "lambda array = 0.0, 1.0" ++ Fs.newline ]%string.

Definition lam_array_files : Fs.files :=
  Fs.write (fun _ => None) "input/somd.cfg" lam_array_cfg.

(** [float(s)] on the texts of the lambda values of [lam_array_cfg]. *)
Definition literal_float (s : string) : result Q :=
  let t := Str.strip s in
  if String.eqb t "0.0" then Ok 0%Q
  else if String.eqb t "0.5" then Ok (1 # 2)%Q
  else if String.eqb t "1.0" then Ok 1%Q
  else Raise (ValueError "could not convert string to float").

(** A line that holds nothing but whitespace. *)
Definition blank (line : string) : bool :=
  forallb Str.is_space (list_ascii_of_string line).

(** An output file at the root of the file system whose last line is
    empty, and the same samples in the output directory of a simulation. *)
Definition root_simfile_files : Fs.files :=
  Fs.write example_files "/simfile.dat" (example_simfile ++ [Fs.newline]).

(** Pairs of decimals from the durations, times per cycle, time steps and
    energy frequencies of the examples. *)
Definition float_samples : list (Q * Q) :=
  [ (3 # 10, 1 # 10); (10001 # 100000, 1 # 10); (5 # 100000, 1 # 10); (1 # 20, 1 # 10);
    (1 # 10, 2 # 10); (7 # 1000, 1 # 1000); (-3 # 10, 1 # 10); (1, 3 # 10);
    (4 # 1000000, 250); (4 # 1000000, 100); (48025 # 100000, 25 # 100000) ]%Q.

(** A simulation that has been submitted once for 0.1 ns. *)
Definition submitted_world : Simulation.world :=
  fst (fst (Simulation.run (fun _ => "0.0") example_world example_simulation (1 # 10)%Q)).

Definition submitted_simulation : Simulation.t :=
  snd (fst (Simulation.run (fun _ => "0.0") example_world example_simulation (1 # 10)%Q)).

(** The world after the number of cycles has been set to 7. *)
Definition recycled_world : Simulation.world :=
  {| Simulation.fs :=
       Fs.write (Simulation.fs example_world) (Simulation.cfg_path example_simulation)
                (Simulation.replace_ncycles example_cfg 7);
     Simulation.virtual_queue := Simulation.virtual_queue example_world |}.

(** The gradient data of a stage with one window, and of one with two. *)
Definition single_window_gradient_data : ProcessGrads.GradientData :=
  {| ProcessGrads.equilibrated := false;
     ProcessGrads.lam_vals := [0%R];
     ProcessGrads.sampling_times := [4%R];
     ProcessGrads.means := [1.8%R];
     ProcessGrads.sems_overall := [5%R];
     ProcessGrads.sems_intra := [4%R];
     ProcessGrads.sems_inter := [3%R];
     ProcessGrads.vars_intra := [1%R];
     ProcessGrads.stat_ineffs := [1%R] |}.

Definition two_window_gradient_data : ProcessGrads.GradientData :=
  {| ProcessGrads.equilibrated := false;
     ProcessGrads.lam_vals := [0%R; 1%R];
     ProcessGrads.sampling_times := [4%R; 4%R];
     ProcessGrads.means := [1.8%R; 1.4%R];
     ProcessGrads.sems_overall := [5%R; 5%R];
     ProcessGrads.sems_intra := [4%R; 4%R];
     ProcessGrads.sems_inter := [3%R; 3%R];
     ProcessGrads.vars_intra := [1%R; 4%R];
     ProcessGrads.stat_ineffs := [1%R; 1%R] |}.

(** The gradient data built from [equilibrated_window] alone, when every
    simulation has the two gradients 1 and 3 and a statistical
    inefficiency of 1. *)
Definition two_gradients (_ : Simulation.t) (_ : bool) : result (list R) :=
  Ok [1%R; 3%R].

Definition built_gradient_data : ProcessGrads.GradientData :=
  match GradientDataInit.__init__ two_gradients (fun _ => 1%R) [equilibrated_window] false with
  | Ok gd => gd
  | Raise _ => single_window_gradient_data
  end.

(** A calculation that has not been set up, with legs told apart by
    their names, and a leg whose [setup] fails. *)
Definition new_calculation : Calculation.t string :=
  {| Calculation.setup_complete := false; Calculation.legs := ["old"];
     Calculation.log := []; Calculation.dumps := 0 |}.

Definition named_leg (leg_type : Calculation.LegType) : result string :=
  Ok (Calculation.leg_name leg_type).

Definition ready_leg (leg : string) (_ : bool) (_ : string) (_ _ : bool)
  : string * result unit :=
  ((leg ++ " ready")%string, Ok tt).

Definition failing_leg (leg : string) (_ : bool) (_ : string) (_ _ : bool)
  : string * result unit :=
  ((leg ++ " failed")%string, Raise (RuntimeError "setup failed")).

(** Three preparation stages, of which the last needs a file that is not
    there. *)
Definition stage_files (_ : Calculation.LegType) (prep_stage : nat) : list string :=
  if prep_stage =? 3 then ["equilibrated.rst7"] else ["ligand.sdf"].

Definition only_ligand (path : string) : bool := String.eqb path "input/ligand.sdf".

(** * Properties *)

(** Feeds a lemma the premises that are among the hypotheses. *)
Ltac given H :=
  repeat match type of H with
         | ?A -> _ =>
           match type of A with
           | Prop => specialize (H ltac:(assumption))
           end
         end.

(** Equality of lists, and of lists of rows, entry by entry. *)
Ltac rows_eq :=
  repeat match goal with
         | |- (_ :: _) = (_ :: _) => apply f_equal2
         | |- @nil _ = @nil _ => reflexivity
         end.

(** ** Python sequences and loops *)

Lemma getitem_nth {A : Type} (l : list A) (i : nat) (d : A) :
  i < length l -> Py.getitem l (Z.of_nat i) = Ok (nth i l d).
Proof.
  intro Hi. unfold Py.getitem.
  assert (H0 : (Z.of_nat i <? 0)%Z = false) by (apply Z.ltb_ge; lia).
  assert (H1 : (Z.of_nat (length l) <=? Z.of_nat i)%Z = false) by (apply Z.leb_gt; lia).
  cbv zeta. rewrite H0. rewrite H0, H1, Nat2Z.id. cbn [orb].
  now rewrite (nth_error_nth' l d Hi).
Qed.

Lemma getitem_out_of_range {A : Type} (l : list A) (i : nat) :
  length l <= i -> Py.getitem l (Z.of_nat i) = Raise IndexError.
Proof.
  intro Hi. unfold Py.getitem.
  assert (H0 : (Z.of_nat i <? 0)%Z = false) by (apply Z.ltb_ge; lia).
  assert (H1 : (Z.of_nat (length l) <=? Z.of_nat i)%Z = true) by (apply Z.leb_le; lia).
  cbv zeta. rewrite H0. now rewrite H0, H1.
Qed.

Lemma nth_length_last {A : Type} (l : list A) (a d : A) :
  nth (length l) (a :: l) d = last (a :: l) d.
Proof.
  revert a. induction l as [|b l IH]; intro a; [reflexivity|].
  cbn [length]. change (nth (S (length l)) (a :: b :: l) d) with (nth (length l) (b :: l) d).
  rewrite IH. reflexivity.
Qed.

Lemma last_nth_pred {A : Type} (l : list A) (d : A) :
  last l d = nth (length l - 1) l d.
Proof.
  destruct l as [|a l]; [reflexivity|].
  cbn [length]. rewrite Nat.sub_succ, Nat.sub_0_r. symmetry. apply nth_length_last.
Qed.

Lemma getitem_last {A : Type} (l : list A) (d : A) :
  l <> [] -> Py.getitem l (-1) = Ok (last l d).
Proof.
  intro Hne. destruct l as [|a l']; [contradiction|].
  unfold Py.getitem. cbv zeta.
  change (-1 <? 0)%Z with true. cbv iota.
  assert (Hlen : (-1 + Z.of_nat (length (a :: l')) = Z.of_nat (length l'))%Z)
    by (cbn [length]; lia).
  rewrite Hlen.
  assert (H0 : (Z.of_nat (length l') <? 0)%Z = false) by (apply Z.ltb_ge; lia).
  assert (H1 : (Z.of_nat (length (a :: l')) <=? Z.of_nat (length l'))%Z = false)
    by (apply Z.leb_gt; cbn [length]; lia).
  rewrite H0, H1, Nat2Z.id. cbn [orb].
  assert (Hi : length l' < length (a :: l')) by (cbn; lia).
  rewrite (nth_error_nth' (a :: l') d Hi).
  now rewrite nth_length_last.
Qed.

Lemma mapM_ok {A B : Type} (f : A -> result B) (g : A -> B) (l : list A) :
  (forall a, In a l -> f a = Ok (g a)) -> mapM f l = Ok (map g l).
Proof.
  induction l as [|a l IH]; intro H; [reflexivity|].
  cbn. rewrite (H a (or_introl eq_refl)). cbn.
  rewrite IH by (intros b Hb; apply H; now right). reflexivity.
Qed.

Lemma mapM_length {A B : Type} (f : A -> result B) (l : list A) (bs : list B) :
  mapM f l = Ok bs -> length bs = length l.
Proof.
  revert bs. induction l as [|a l IH]; intros bs H; cbn in H.
  - now inversion H.
  - destruct (f a); cbn in H; [|discriminate].
    destruct (mapM f l); cbn in H; [|discriminate].
    inversion H; subst. cbn. f_equal. now apply IH.
Qed.

Lemma enumerate_from {A : Type} (l : list A) (d : A) (s : nat) :
  combine (seq s (length l)) l = map (fun i => (i, nth (i - s) l d)) (seq s (length l)).
Proof.
  revert s. induction l as [|a l IH]; intro s; [reflexivity|].
  cbn [length seq combine map]. rewrite Nat.sub_diag. cbn [nth]. f_equal.
  rewrite IH. apply map_ext_in. intros i Hi. apply in_seq in Hi.
  assert (E : i - s = S (i - S s)) by lia. rewrite E. reflexivity.
Qed.

Lemma enumerate_nth {A : Type} (l : list A) (d : A) :
  Py.enumerate l = map (fun i => (i, nth i l d)) (seq 0 (length l)).
Proof.
  unfold Py.enumerate. rewrite (enumerate_from l d 0).
  apply map_ext. intro i. now rewrite Nat.sub_0_r.
Qed.

(** ** Sums *)

Section SumProps.
Local Open Scope R_scope.

Lemma sum_app (l m : list R) : Np.sum (l ++ m) = Np.sum l + Np.sum m.
Proof. induction l as [|a l IH]; cbn; [lra | rewrite IH; lra]. Qed.

Lemma sum_nonneg (l : list R) : Forall (fun v => 0 <= v) l -> 0 <= Np.sum l.
Proof. induction 1; cbn; lra. Qed.

Lemma sum_scale (l : list R) (c : R) : Np.sum (map (fun v => v / c) l) = Np.sum l / c.
Proof. induction l as [|a l IH]; cbn; [lra | rewrite IH; lra]. Qed.

End SumProps.

(** ** Loops that succeed *)

Lemma mapM_nth {A B : Type} (f : A -> result B) (l : list A) (bs : list B)
    (i : nat) (d : A) (d' : B) :
  mapM f l = Ok bs -> i < length l -> f (nth i l d) = Ok (nth i bs d').
Proof.
  revert bs i. induction l as [|a l IH]; intros bs i H Hi; [cbn in Hi; lia|].
  cbn in H. destruct (f a) as [b|] eqn:Hfa; cbn in H; [|discriminate].
  destruct (mapM f l) as [bs'|] eqn:Hm; cbn in H; [|discriminate].
  inversion H; subst. destruct i as [|i]; cbn; [exact Hfa|].
  apply IH; [reflexivity | cbn in Hi; lia].
Qed.

Lemma mapM_exists {A B : Type} (f : A -> result B) (l : list A) :
  (forall a, In a l -> exists b, f a = Ok b) -> exists bs, mapM f l = Ok bs.
Proof.
  induction l as [|a l IH]; intro H; [now exists []|].
  destruct (H a (or_introl eq_refl)) as [b Hb].
  destruct IH as [bs Hbs]; [intros x Hx; apply H; now right|].
  exists (b :: bs). cbn. now rewrite Hb, Hbs.
Qed.

Lemma nth_map_seq {B : Type} (g : nat -> B) (n i : nat) (d : B) :
  i < n -> nth i (map g (seq 0 n)) d = g i.
Proof.
  intro Hi. rewrite (nth_indep _ d (g 0)) by (now rewrite length_map, length_seq).
  change (g 0) with (g 0) at 1.
  rewrite (map_nth g (seq 0 n) 0 i), seq_nth by exact Hi. reflexivity.
Qed.

Section OrderProps.
Local Open Scope R_scope.

Lemma strictly_increasing_tail (a : R) (l : list R) :
  strictly_increasing (a :: l) -> strictly_increasing l.
Proof. destruct l as [|b l]; cbn; tauto. Qed.

Lemma strictly_increasing_step (l : list R) (i : nat) :
  strictly_increasing l -> (S i < length l)%nat -> nth i l 0 < nth (S i) l 0.
Proof.
  revert i. induction l as [|a l IH]; intros i Hs Hi; [cbn in Hi; lia|].
  destruct i as [|i].
  - destruct l as [|b l]; [cbn in Hi; lia|]. cbn in Hs |- *. tauto.
  - change (nth i l 0 < nth (S i) l 0). apply IH.
    + now apply strictly_increasing_tail in Hs.
    + cbn in Hi. lia.
Qed.

Lemma Forall_nth_pos (l : list R) (i : nat) :
  Forall (fun v => 0 < v) l -> (i < length l)%nat -> 0 < nth i l 0.
Proof.
  intros H Hi. rewrite Forall_forall in H. apply H. now apply nth_In.
Qed.

Lemma Forall_nth_nonneg (l : list R) (i : nat) :
  Forall (fun v => 0 <= v) l -> 0 <= nth i l 0.
Proof.
  intro H. destruct (Nat.lt_ge_cases i (length l)) as [Hi | Hi].
  - rewrite Forall_forall in H. apply H. now apply nth_In.
  - rewrite nth_overflow by exact Hi. lra.
Qed.

Lemma sum_ge_member (l : list R) (x : R) :
  Forall (fun v => 0 <= v) l -> In x l -> x <= Np.sum l.
Proof.
  induction 1 as [|a l Ha Hl IH]; intro Hin; [destruct Hin|].
  cbn. destruct Hin as [-> | Hin].
  - pose proof (sum_nonneg l Hl). lra.
  - specialize (IH Hin). lra.
Qed.

End OrderProps.

(** ** Rounding *)

Section RoundingProps.
Local Open Scope R_scope.

Lemma int_is_floor (x : R) : 0 <= x -> Np.int x = Zfloor x.
Proof. intro Hx. unfold Np.int. destruct (Rle_dec 0 x); [reflexivity | contradiction]. Qed.

Lemma rint_bounds (x : R) : (Zfloor x <= Np.rint x <= Zfloor x + 1)%Z.
Proof.
  unfold Np.rint.
  destruct (Rlt_dec (x - IZR (Zfloor x)) (1 / 2)); [lia|].
  destruct (Rlt_dec (1 / 2) (x - IZR (Zfloor x))); [lia|].
  destruct (Z.even (Zfloor x)); lia.
Qed.

Lemma rint_monotone (x y : R) : x <= y -> (Np.rint x <= Np.rint y)%Z.
Proof.
  intro Hxy. pose proof (Zfloor_le x y Hxy) as Hf.
  destruct (Z.eq_dec (Zfloor x) (Zfloor y)) as [E | Hne].
  - unfold Np.rint. rewrite <- E.
    destruct (Rlt_dec (x - IZR (Zfloor x)) (1 / 2)) as [Hx | Hx].
    + destruct (Rlt_dec (y - IZR (Zfloor x)) (1 / 2)); [lia|].
      destruct (Rlt_dec (1 / 2) (y - IZR (Zfloor x))); [lia|].
      destruct (Z.even (Zfloor x)); lia.
    + destruct (Rlt_dec (1 / 2) (x - IZR (Zfloor x))) as [Hx' | Hx'].
      * destruct (Rlt_dec (y - IZR (Zfloor x)) (1 / 2)); [lra|].
        destruct (Rlt_dec (1 / 2) (y - IZR (Zfloor x))); [lia | lra].
      * destruct (Rlt_dec (y - IZR (Zfloor x)) (1 / 2)); [lra|].
        destruct (Rlt_dec (1 / 2) (y - IZR (Zfloor x))); [|lia].
        destruct (Z.even (Zfloor x)); lia.
  - pose proof (rint_bounds x). pose proof (rint_bounds y). lia.
Qed.

Lemma rint_IZR (z : Z) : Np.rint (IZR z) = z.
Proof.
  unfold Np.rint. rewrite ZfloorZ.
  destruct (Rlt_dec (IZR z - IZR z) (1 / 2)); [reflexivity | lra].
Qed.

Lemma pow10_positive (n : nat) : 0 < 10 ^ n.
Proof. apply pow_lt. lra. Qed.

Lemma round_monotone (x y : R) (decimals : nat) :
  x <= y -> Np.round x decimals <= Np.round y decimals.
Proof.
  intro Hxy. unfold Np.round. pose proof (pow10_positive decimals) as Hp.
  apply Rmult_le_compat_r; [left; now apply Rinv_0_lt_compat|].
  apply IZR_le, rint_monotone. nra.
Qed.

Lemma round_integer (z : Z) (decimals : nat) : Np.round (IZR z) decimals = IZR z.
Proof.
  unfold Np.round. pose proof (pow10_positive decimals) as Hp.
  replace (IZR z * 10 ^ decimals) with (IZR (z * 10 ^ Z.of_nat decimals)).
  - rewrite rint_IZR, mult_IZR.
    replace (IZR (10 ^ Z.of_nat decimals)) with (10 ^ decimals).
    + field. lra.
    + rewrite <- pow_IZR. reflexivity.
  - rewrite mult_IZR, <- pow_IZR. reflexivity.
Qed.

End RoundingProps.

(** ** Doubles *)

Section Float64Props.
Import Float64.
Local Open Scope R_scope.

(** The integer nearest to [x] is within one half of it. *)
Lemma rint_close (x : R) : IZR (Np.rint x) - 1 / 2 <= x <= IZR (Np.rint x) + 1 / 2.
Proof.
  pose proof (Zfloor_bound x) as Hf. unfold Np.rint.
  destruct (Rlt_dec (x - IZR (Zfloor x)) (1 / 2)) as [H | H]; [lra|].
  destruct (Rlt_dec (1 / 2) (x - IZR (Zfloor x))) as [H' | H'].
  - rewrite plus_IZR. lra.
  - destruct (Z.even (Zfloor x)); [lra | rewrite plus_IZR; lra].
Qed.

Lemma rint_unique (x : R) (m : Z) :
  IZR m - 1 / 2 < x < IZR m + 1 / 2 -> Np.rint x = m.
Proof.
  intros [Hlo Hhi]. pose proof (rint_close x) as [Hc1 Hc2].
  assert (H1 : IZR (Np.rint x) < IZR m + 1) by lra.
  assert (H2 : IZR m < IZR (Np.rint x) + 1) by lra.
  rewrite <- plus_IZR in H1, H2. apply lt_IZR in H1, H2. lia.
Qed.


Lemma pow2_positive (k : Z) : 0 < powerRZ 2 k.
Proof. apply powerRZ_lt. lra. Qed.

Lemma pow2_le (a b : Z) : (a <= b)%Z -> powerRZ 2 a <= powerRZ 2 b.
Proof.
  intro H. replace b with (a + Z.of_nat (Z.to_nat (b - a)))%Z by lia.
  rewrite powerRZ_add by lra. rewrite <- pow_powerRZ.
  pose proof (pow2_positive a) as Ha.
  pose proof (pow_R1_Rle 2 (Z.to_nat (b - a)) ltac:(lra)) as Hp.
  nra.
Qed.

Lemma pow2_IZR (n : Z) : (0 <= n)%Z -> powerRZ 2 n = IZR (2 ^ n).
Proof.
  intro Hn. destruct n as [|p|p]; [reflexivity | | lia].
  change (2 ^ Z.pos p)%Z with (Z.pow_pos 2 p).
  now rewrite Zpower_pos_powerRZ.
Qed.

Lemma exponent_from_bounds (fuel : nat) (k : Z) (x : R) :
  let e := exponent_from fuel k x in
  (k - Z.of_nat fuel <= e <= k)%Z
  /\ ((e < k)%Z -> x < powerRZ 2 (e + 1))
  /\ ((k - Z.of_nat fuel < e)%Z -> powerRZ 2 e <= x).
Proof.
  revert k. induction fuel as [|fuel IH]; intro k; cbn [exponent_from].
  - cbv zeta. split; [lia|]. split; intro; lia.
  - destruct (Rle_dec (powerRZ 2 k) x) as [Hle | Hgt].
    + cbv zeta. split; [lia|]. split; [intro; lia | intro; exact Hle].
    + specialize (IH (k - 1)%Z). cbv zeta in IH |- *.
      destruct IH as [Hr [Hup Hlo]].
      split; [lia|]. split.
      * intros _.
        destruct (Z.eq_dec (exponent_from fuel (k - 1) x) (k - 1)) as [E | Hne].
        -- rewrite E. replace (k - 1 + 1)%Z with k by lia. lra.
        -- apply Hup. lia.
      * intro H. apply Hlo. lia.
Qed.

Lemma exponent_range (x : R) : (-1022 <= exponent x <= 1023)%Z.
Proof.
  pose proof (exponent_from_bounds 2045 1023 (Rabs x)) as [H _].
  unfold exponent. cbv zeta in H. lia.
Qed.

Lemma exponent_upper (x : R) :
  (exponent x < 1023)%Z -> Rabs x < powerRZ 2 (exponent x + 1).
Proof.
  pose proof (exponent_from_bounds 2045 1023 (Rabs x)) as [_ [H _]]. exact H.
Qed.

Lemma exponent_lower (x : R) :
  (-1022 < exponent x)%Z -> powerRZ 2 (exponent x) <= Rabs x.
Proof.
  pose proof (exponent_from_bounds 2045 1023 (Rabs x)) as [_ [_ H]].
  intro He. apply H. unfold exponent in He. lia.
Qed.

Lemma exponent_spec (x : R) (e : Z) :
  (-1022 <= e <= 1023)%Z ->
  powerRZ 2 e <= Rabs x < powerRZ 2 (e + 1) ->
  exponent x = e.
Proof.
  intros He [Hlo Hhi]. pose proof (exponent_range x) as Hr.
  destruct (Z.lt_trichotomy (exponent x) e) as [Hlt | [E | Hgt]]; [|exact E|].
  - pose proof (exponent_upper x ltac:(lia)) as Hu.
    pose proof (pow2_le (exponent x + 1) e ltac:(lia)). lra.
  - pose proof (exponent_lower x ltac:(lia)) as Hl.
    pose proof (pow2_le (e + 1) (exponent x) ltac:(lia)). lra.
Qed.





(** The value read off a mantissa and an exponent: when [2 ^ e <= |x| <
    2 ^ (e + 1)] and [m] is the integer nearest to [x / 2 ^ (e - 52)], the
    double nearest to [x] is [m * 2 ^ (e - 52)]. *)
Lemma nearest_eval (x : R) (e m : Z) :
  (-1022 <= e <= 1023)%Z ->
  powerRZ 2 e <= Rabs x < powerRZ 2 (e + 1) ->
  IZR m - 1 / 2 < x / powerRZ 2 (e - 52) < IZR m + 1 / 2 ->
  nearest x = IZR m * powerRZ 2 (e - 52).
Proof.
  intros He Hx Hm. unfold nearest, ulp.
  rewrite (exponent_spec x e He Hx). now rewrite (rint_unique _ m Hm).
Qed.

Lemma pow2_inv (n : Z) : (0 <= n)%Z -> powerRZ 2 (- n) = / IZR (2 ^ n).
Proof.
  intro Hn. rewrite <- pow2_IZR by exact Hn.
  apply (Rmult_eq_reg_l (powerRZ 2 n)); [|pose proof (pow2_positive n); lra].
  rewrite <- powerRZ_add by lra. rewrite Z.add_opp_diag_r, powerRZ_O.
  rewrite Rinv_r; [reflexivity | pose proof (pow2_positive n); lra].
Qed.


Lemma Rabs_scaled (m : Z) (u : R) : 0 < u -> Rabs (IZR m * u) = IZR (Z.abs m) * u.
Proof.
  intro Hu. rewrite Rabs_mult, <- abs_IZR. now rewrite (Rabs_pos_eq u) by lra.
Qed.







(** The float read off a mantissa and an exponent, for the result of an
    operation and for a number given as a float. *)
Lemma of_exact_eval (x : R) (e m : Z) :
  (-1022 <= e <= 1023)%Z ->
  (Z.abs m < 2 ^ 53)%Z ->
  powerRZ 2 e <= Rabs x < powerRZ 2 (e + 1) ->
  IZR m - 1 / 2 < x / powerRZ 2 (e - 52) < IZR m + 1 / 2 ->
  of_exact x = Finite (IZR m * powerRZ 2 (e - 52)).
Proof.
  intros He Hm Hx Hr. unfold of_exact. rewrite (nearest_eval x e m He Hx Hr).
  destruct (Rlt_dec max (Rabs (IZR m * powerRZ 2 (e - 52)))) as [Hov | _]; [|reflexivity].
  exfalso. rewrite Rabs_scaled in Hov by apply pow2_positive.
  unfold max in Hov.
  assert (H1 : IZR (Z.abs m) <= IZR (2 ^ 53 - 1)) by (apply IZR_le; lia).
  pose proof (pow2_le (e - 52) 971 ltac:(lia)) as H2.
  pose proof (pow2_positive (e - 52)) as H3.
  assert (H4 : 0 <= IZR (Z.abs m)) by (apply IZR_le; lia).
  assert (IZR (Z.abs m) * powerRZ 2 (e - 52) <= IZR (2 ^ 53 - 1) * powerRZ 2 971).
  { apply Rmult_le_compat; lra. }
  lra.
Qed.

Lemma float_eval (x : R) (e m : Z) :
  (-1022 <= e <= 1023)%Z ->
  (Z.abs m < 2 ^ 53)%Z ->
  powerRZ 2 e <= Rabs x < powerRZ 2 (e + 1) ->
  IZR m - 1 / 2 < x / powerRZ 2 (e - 52) < IZR m + 1 / 2 ->
  float x = IZR m * powerRZ 2 (e - 52).
Proof.
  intros He Hm Hx Hr. unfold float. now rewrite (of_exact_eval x e m He Hm Hx Hr).
Qed.

End Float64Props.

(** Powers of two with a literal exponent, as numerals. *)
Ltac pow2_consts :=
  repeat match goal with
         | |- context [powerRZ 2 (Zneg ?p)] =>
           change (powerRZ 2 (Zneg p)) with (powerRZ 2 (- Zpos p));
           rewrite (pow2_inv (Zpos p)) by lia;
           let v := eval vm_compute in (2 ^ Zpos p)%Z in
           change (2 ^ Zpos p)%Z with v
         | |- context [powerRZ 2 (Zpos ?p)] =>
           rewrite (pow2_IZR (Zpos p)) by lia;
           let v := eval vm_compute in (2 ^ Zpos p)%Z in
           change (2 ^ Zpos p)%Z with v
         | |- context [powerRZ 2 0] => rewrite powerRZ_O
         end.

(** Inequalities between literals and powers of two. *)
Ltac double_bounds :=
  cbn [Z.add Z.sub Z.opp Z.pos_sub Pos.add Pos.succ Pos.pred_double
       Z.succ_double Z.pred_double Z.double Pos.sub Pos.sub_mask Pos.double_mask
       Pos.succ_double_mask Pos.double_pred_mask];
  pow2_consts;
  try (unfold Rabs; destruct (Rcase_abs _));
  lra.

Section Float64Values.
Import Float64.
Local Open Scope R_scope.







(** The doubles next to 0.3 and 0.1, and their quotient
    [2.9999999999999996]. *)
Lemma float_03 : float 0.3 = 5404319552844595 * powerRZ 2 (-54).
Proof.
  now rewrite (float_eval 0.3 (-2) 5404319552844595);
    [ | lia | reflexivity | double_bounds | double_bounds ].
Qed.

Lemma float_01 : float 0.1 = 7205759403792794 * powerRZ 2 (-56).
Proof.
  now rewrite (float_eval 0.1 (-4) 7205759403792794);
    [ | lia | reflexivity | double_bounds | double_bounds ].
Qed.

Lemma quotient_03_01 :
  of_exact (float 0.3 / float 0.1) = Finite (6755399441055743 * powerRZ 2 (-51)).
Proof.
  rewrite float_03, float_01.
  now rewrite (of_exact_eval _ 1 6755399441055743);
    [ | lia | reflexivity | double_bounds | double_bounds ].
Qed.

(** The doubles among the reals are those among the rationals. *)
Lemma float64_agrees_with_float :
  float 0.3 = Q2R (Float.float (3 # 10))
  /\ float 0.1 = Q2R (Float.float (1 # 10))
  /\ of_exact (float 0.3 / float 0.1)
     = Finite (Q2R (match Float.of_exact (Float.float (3 # 10) / Float.float (1 # 10)) with
                    | Float.Finite q => q
                    | Float.Infinite => 0%Q
                    end)).
Proof.
  assert (E3 : Float.float (3 # 10) = (5404319552844595 # 18014398509481984)%Q)
    by (vm_compute; reflexivity).
  assert (E1 : Float.float (1 # 10) = (3602879701896397 # 36028797018963968)%Q)
    by (vm_compute; reflexivity).
  assert (Eq : Float.of_exact (Float.float (3 # 10) / Float.float (1 # 10))
               = Float.Finite (6755399441055743 # 2251799813685248)%Q)
    by (vm_compute; reflexivity).
  rewrite Eq, E3, E1, quotient_03_01, float_03, float_01.
  unfold Q2R. cbn [Qnum Qden].
  split; [|split; [|f_equal]]; pow2_consts; lra.
Qed.

End Float64Values.

(** ** Exceptions *)

Lemma raises_Raise {A : Type} (e : exn) : raises (@Raise A e).
Proof. now exists e. Qed.

Lemma not_raises_Ok {A : Type} (a : A) : ~ raises (Ok a).
Proof. intros [e He]; discriminate. Qed.

(** ** Calculation.setup *)

Section CalculationProps.
Import Calculation.

(** C9, as the code has it: [setup] on a calculation whose setup is
    complete records that in the log and returns; no exception is raised,
    no leg is created or set up, and nothing is saved. *)
Theorem setup_when_complete_returns :
  forall (Leg : Type) (new_Leg : LegType -> result Leg)
         (leg_setup : Leg -> bool -> string -> bool -> bool -> Leg * result unit)
         (self : t Leg) (slurm : bool) (sel : string) (same short : bool),
    setup_complete Leg self = true ->
    setup Leg new_Leg leg_setup self slurm sel same short
    = (info Leg self "Setup already complete. Skipping...", Ok tt).
Proof.
  intros Leg new_Leg leg_setup self slurm sel same short Hdone.
  unfold setup. now rewrite Hdone.
Qed.

Lemma setup_when_complete_returns_witness :
  setup_complete unit done_calculation = true
  /\ setup unit (fun _ => Ok tt) (fun l _ _ _ _ => (l, Ok tt)) done_calculation true "" true false
     = (info unit done_calculation "Setup already complete. Skipping...", Ok tt).
Proof.
  split; [reflexivity|].
  apply (setup_when_complete_returns unit (fun _ => Ok tt) (fun l _ _ _ _ => (l, Ok tt))
           done_calculation true "" true false).
  reflexivity.
Defined.

(** C9, as the specification has it, fails: the second [setup] does not
    raise. *)
Lemma setup_twice_does_not_raise :
  setup_complete unit done_calculation = true
  /\ ~ raises (snd (setup unit (fun _ => Ok tt) (fun l _ _ _ _ => (l, Ok tt))
                          done_calculation true "" true false)).
Proof.
  split; [reflexivity|]. cbn. apply not_raises_Ok.
Qed.

End CalculationProps.

(** ** Stage.analyse *)

Section AnalyseProps.
Import Stage.

Variable running : t -> bool.
Variable failed_simulations : t -> list Simulation.t.
Variable run_mbar : string -> nat -> bool -> M (list R * list R).
Variable ensemble_size_of : t -> nat.

Lemma forM_emit_errors (sims : list Simulation.t) (w : world) :
  exists logs,
    forM_ sims (fun s => emit (LogError (Simulation.base_dir s))) w
    = ({| fs := fs w; events := events w ++ logs |}, Ok tt)
    /\ forallb is_log logs = true.
Proof.
  revert w. induction sims as [|s sims IH]; intro w.
  - exists []. cbn. rewrite app_nil_r. destruct w; auto.
  - cbn [forM_]. unfold bindM. unfold emit at 1.
    destruct (IH {| fs := fs w; events := events w ++ [LogError (Simulation.base_dir s)] |})
      as [logs [Hrun Hlogs]].
    exists (LogError (Simulation.base_dir s) :: logs).
    rewrite Hrun. cbn. rewrite <- app_assoc. cbn. split; auto.
Qed.

Lemma check_all_unchanged (wins : list LamWindow) (w : world) :
  fst (forM_ wins check_equilibrated w) = w.
Proof.
  induction wins as [|win wins IH]; [reflexivity|].
  cbn. unfold bindM.
  destruct (check_equilibrated win w) as [w1 r] eqn:Hc.
  assert (w1 = w) as ->.
  { unfold check_equilibrated in Hc.
    destruct (_equilibrated win); cbn in Hc.
    - destruct (equil_time win); cbn in Hc; unfold ret, raise in Hc; congruence.
    - unfold raise in Hc; congruence. }
  destruct r; [exact IH | reflexivity].
Qed.

Lemma check_all_raises (wins : list LamWindow) (w : world) :
  (exists win, In win wins /\ _equilibrated win = false) ->
  exists msg, snd (forM_ wins check_equilibrated w) = Raise (RuntimeError msg).
Proof.
  induction wins as [|win wins IH]; intros [x [Hin Hx]]; [destruct Hin|].
  cbn. unfold bindM.
  destruct (check_equilibrated win w) as [w1 r] eqn:Hc.
  unfold check_equilibrated in Hc.
  destruct (_equilibrated win) eqn:He; cbn in Hc.
  - destruct (equil_time win); unfold ret, raise in Hc; inversion Hc; subst.
    + destruct Hin as [-> | Hin]; [congruence|].
      apply IH. now exists x.
    + cbn. eauto.
  - unfold raise in Hc. inversion Hc; subst. cbn. eauto.
Qed.

(** C3: [analyse] raises a [RuntimeError], and neither writes a file nor
    runs the estimator nor plots, when the stage is running, or when a
    simulation has failed, or when the [_equilibrated] flag of a window is
    false. *)
Theorem analyse_refused :
  forall (self : t) (get_frnrg subsampling : bool) (w : world),
    running self = true
    \/ failed_simulations self <> []
    \/ (exists win, In win (lam_windows self) /\ _equilibrated win = false) ->
    refused w (analyse running failed_simulations run_mbar ensemble_size_of
                       self get_frnrg subsampling w).
Proof.
  intros self gf ss w H. unfold analyse.
  destruct (running self) eqn:Hrun.
  { exists "Cannot perform analysis as the Stage is still running", [].
    cbn. rewrite app_nil_r. auto. }
  destruct (failed_simulations self) as [|s sims] eqn:Hfail.
  - destruct H as [H | [H | H]]; [discriminate | congruence |].
    unfold bindM at 1.
    pose proof (check_all_unchanged (lam_windows self) w) as Hw.
    destruct (check_all_raises (lam_windows self) w H) as [msg Hmsg].
    destruct (forM_ (lam_windows self) check_equilibrated w) as [w1 r].
    cbn in Hw, Hmsg. subst w1 r.
    exists msg, []. cbn. rewrite app_nil_r. auto.
  - unfold bindM at 1. unfold emit at 1.
    unfold bindM at 1. unfold emit at 1.
    unfold bindM at 1.
    match goal with |- context [forM_ (s :: sims) ?f ?w0] =>
      destruct (forM_emit_errors (s :: sims) w0) as [logs [Hlogs Hall]] end.
    rewrite Hlogs. cbn.
    exists "Unable to perform analysis as several simulations did not complete successfully",
           (LogError "Unable to perform analysis as several simulations did not complete successfully"
            :: LogError "Please check the output in the following directories:" :: logs).
    cbn. repeat split; auto.
    rewrite <- !app_assoc. reflexivity.
Qed.

End AnalyseProps.

Lemma analyse_refused_witness :
  (exists win, In win (Stage.lam_windows half_equilibrated_stage)
               /\ Stage._equilibrated win = false)
  /\ Stage.refused empty_world
       (Stage.analyse (fun _ => false) (fun _ => []) (fun _ _ _ => Stage.ret ([], []))
                      (fun _ => 1) half_equilibrated_stage true false empty_world).
Proof.
  assert (H : exists win, In win (Stage.lam_windows half_equilibrated_stage)
                          /\ Stage._equilibrated win = false).
  { exists unequilibrated_window. split; [right; left; reflexivity | reflexivity]. }
  split; [exact H|].
  exact (analyse_refused (fun _ => false) (fun _ => []) (fun _ _ _ => Stage.ret ([], []))
           (fun _ => 1) half_equilibrated_stage true false empty_world
           (or_intror (or_intror H))).
Defined.

(** ** The adaptive-efficiency loop *)

Section EfficiencyProps.
Import Stage.

Variable new_GradientData : list LamWindow -> bool -> result ProcessGrads.GradientData.
Variable win_run : LamWindow -> R -> result LamWindow.
Variable kill_requested : nat -> bool.
Variable win_running : nat -> nat -> bool.

Lemma get_sems_inter_delta_g (gd : ProcessGrads.GradientData) (smoothen : bool) :
  ProcessGrads.get_sems gd "inter_delta_g" smoothen
  = Raise (ValueError "origin must be either 'inter' or 'intra'").
Proof. reflexivity. Qed.

Lemma resubmit_pass_is_raise (maximum_runtime : R) (self : t) :
  exists e, resubmit_pass new_GradientData win_run maximum_runtime self = Raise e.
Proof.
  unfold resubmit_pass.
  destruct (new_GradientData (lam_windows self) false) as [gd|e]; cbn [bind].
  - rewrite get_sems_inter_delta_g. cbn [bind]. eauto.
  - eauto.
Qed.

(** C1, at the code: the pass that follows the wait never gets to the
    decision about any window.  [get_sems] is asked for the origin
    [inter_delta_g], which it refuses, so the pass raises: the
    [ValueError] of [get_sems] when the gradient data could be built, and
    the exception of that construction otherwise.  No standard error is
    extracted, no window is resubmitted and the flag is not set. *)
Theorem resubmit_pass_raises :
  forall (maximum_runtime : R) (self : t),
    match new_GradientData (lam_windows self) false with
    | Ok _ =>
      resubmit_pass new_GradientData win_run maximum_runtime self
      = Raise (ValueError "origin must be either 'inter' or 'intra'")
    | Raise e =>
      resubmit_pass new_GradientData win_run maximum_runtime self = Raise e
    end.
Proof.
  intros maximum_runtime self. unfold resubmit_pass.
  destruct (new_GradientData (lam_windows self) false) as [gd|e]; cbn [bind].
  - now rewrite get_sems_inter_delta_g.
  - reflexivity.
Qed.

Lemma drain_keeps_flag (fuel p : nat) (self : t) :
  match drain kill_requested win_running fuel p self with
  | Drained _ self' | DrainKilled self' =>
    _maximally_efficient self' = _maximally_efficient self
  | StillRunning => True
  end.
Proof.
  revert p self. induction fuel as [|fuel IH]; intros p self; cbn.
  - destruct (running_wins self); cbn; auto.
  - destruct (running_wins self) eqn:Hrw; cbn; auto.
    destruct (kill_requested p); cbn; auto.
    match goal with |- context [drain _ _ fuel (S p) ?s] => specialize (IH (S p) s) end.
    destruct (drain _ _ fuel _ _); cbn in *; auto.
Qed.

(** The loop as a whole never sets the flag: it comes back because it was
    asked to stop (or had nothing to do), it raises, or it is still
    waiting for its windows. *)
Lemma run_loop_never_sets_flag (maximum_runtime : R) (passes fuel p : nat) (self : t) :
  match _run_loop_adaptive_efficiency new_GradientData win_run kill_requested win_running
          maximum_runtime passes fuel p self with
  | Returned self' => _maximally_efficient self' = _maximally_efficient self
  | Raised _ _ | Unfinished => True
  end.
Proof.
  destruct passes as [|passes]; cbn.
  - destruct (_maximally_efficient self) eqn:Hflag; cbn; auto.
  - destruct (_maximally_efficient self) eqn:Hflag; cbn; auto.
    pose proof (drain_keeps_flag fuel p self) as Hd.
    destruct (drain kill_requested win_running fuel p self) as [p' self'|self'|]; cbn; auto.
    + destruct (resubmit_pass_is_raise maximum_runtime self') as [e He].
      rewrite He. exact I.
    + congruence.
Qed.

End EfficiencyProps.

(** ** Simulation.run *)

Section SimulationProps.
Import Simulation.
Local Open Scope Q_scope.

Variable str_of_float : Q -> string.






End SimulationProps.



(** The double quotient decides the number of cycles: 0.3 ns at 0.1 ns
    per cycle is run for two cycles, since [0.3 / 0.1] is
    [2.9999999999999996] in double precision; the time added is the
    double 0.3. *)
Lemma run_truncates_double_quotient :
  Simulation.n_cycles_of (3 # 10) (1 # 10) = Ok 2%Z
  /\ snd (Simulation.run (fun _ => "0.0") example_world example_simulation (3 # 10)%Q)
     = Ok tt
  /\ Simulation.tot_simtime
       (snd (fst (Simulation.run (fun _ => "0.0") example_world example_simulation
                    (3 # 10)%Q)))
     = Float.float (3 # 10)
  /\ Simulation.fs (fst (fst (Simulation.run (fun _ => "0.0") example_world
                                example_simulation (3 # 10)%Q)))
       "lambda_0.000/run_01/input/somd.cfg"
     = Some [ "nmoves = 25000" ++ Fs.newline;
              "ncycles = 2" ++ Fs.newline;
              "timestep = 4 * femtosecond" ++ Fs.newline ]%string.
Proof. repeat split; vm_compute; reflexivity. Qed.

(** A remainder of 0.00005 ns is refused: the double next to it lies above
    it, and rounds to 0.0001. *)
Lemma run_refuses_half_of_last_place :
  Simulation.run (fun _ => "0.0") example_world example_simulation (5 # 100000)%Q
  = (example_world, example_simulation,
     Raise (ValueError "Duration must be a multiple of the time per cycle.")).
Proof. vm_compute. reflexivity. Qed.

(** The doubles of the model are those of the machine on the samples. *)
Lemma floats_agree_with_binary64 : forallb Binary64.agree float_samples = true.
Proof. vm_compute. reflexivity. Qed.

(** A quotient of the two decimals with more than 28 digits makes
    [Decimal] signal [InvalidOperation], and nothing is changed. *)
Lemma run_refuses_long_quotient :
  Simulation.run (fun _ => "0.0") example_world example_simulation
    (inject_Z (10 ^ 30))%Q
  = (example_world, example_simulation, Raise InvalidOperation).
Proof. vm_compute. reflexivity. Qed.

(** ** Stage._write_equilibrated_data *)

Section ExtractionProps.
Import Stage.

Lemma header_is_slice (lines : list string) :
  Py.slice_to (non_data_lines lines) lines = header_of lines.
Proof.
  unfold Py.slice_to. induction lines as [|line rest IH]; [reflexivity|].
  cbn. destruct (Fs.startswith line "#"); cbn; [now rewrite IH | reflexivity].
Qed.

Lemma data_rows_are_rest (lines : list string) :
  skipn (non_data_lines lines) lines = data_rows_of lines.
Proof.
  induction lines as [|line rest IH]; [reflexivity|].
  cbn. destruct (Fs.startswith line "#"); cbn; [exact IH | reflexivity].
Qed.

(** From the first sample interval on, the file written is the header
    followed by the data rows from [equil_index] on. *)
Lemma equilibrated_lines_from_index (lines : list string) (equil_index : Z) :
  (0 <= equil_index)%Z ->
  equilibrated_lines lines equil_index
  = header_of lines ++ skipn (Z.to_nat equil_index) (data_rows_of lines).
Proof.
  intro Hidx. unfold equilibrated_lines. rewrite header_is_slice. f_equal.
  unfold Py.slice_from.
  assert (Hneg : (equil_index + Z.of_nat (non_data_lines lines) <? 0)%Z = false)
    by (apply Z.ltb_ge; lia).
  rewrite Hneg, <- data_rows_are_rest, skipn_skipn. f_equal. lia.
Qed.

(** C10, at the code: when the equilibration time is shorter than one
    sample interval (here 0 ns), [equil_index] is -1 and the data part
    starts one line before the data, so the last header line is written a
    second time; the file is not the header followed by data rows. *)
Theorem write_equilibrated_data_repeats_header :
  equil_index 0 (4 # 1000000) 100 = Ok (-1)%Z
  /\ (exists fs',
        _write_equilibrated_data example_files "output/simfile.dat"
          "output/simfile_equilibrated.dat" (-1) = Ok fs'
        /\ fs' "output/simfile_equilibrated.dat"
           = Some (header_of example_simfile ++ header_of example_simfile
                   ++ data_rows_of example_simfile))
  /\ equilibrated_lines example_simfile (-1)
     <> header_of example_simfile ++ data_rows_of example_simfile.
Proof.
  split; [vm_compute; reflexivity|]. split.
  - eexists. split; [reflexivity|]. vm_compute. reflexivity.
  - vm_compute. discriminate.
Qed.

(** Without a header the same index keeps the last row only. *)
Lemma write_equilibrated_data_without_header :
  equilibrated_lines (data_rows_of example_simfile) (-1)
  = [ "300  -9874.5  1.75" ++ Fs.newline ]%string.
Proof. vm_compute. reflexivity. Qed.

End ExtractionProps.

(** ** Stage.lam_val_weights *)

Section WeightsProps.
Import Stage.
Local Open Scope R_scope.

Lemma lam_val_weight_ok (l : list R) (i : nat) :
  (2 <= length l)%nat -> (i < length l)%nat ->
  lam_val_weight l i (nth i l 0) = Ok (weight_at l i).
Proof.
  intros Hlen Hi. unfold lam_val_weight, weight_at.
  destruct (i =? 0)%nat eqn:E0.
  - apply Nat.eqb_eq in E0. subst i.
    change (Z.of_nat 0 + 1)%Z with (Z.of_nat 1).
    rewrite (getitem_nth l 1 0) by lia. reflexivity.
  - apply Nat.eqb_neq in E0.
    destruct (i =? length l - 1)%nat eqn:E1.
    + assert (Ez : (Z.of_nat i =? Z.of_nat (length l) - 1)%Z = true)
        by (apply Nat.eqb_eq in E1; apply Z.eqb_eq; lia).
      rewrite Ez.
      replace (Z.of_nat i - 1)%Z with (Z.of_nat (i - 1)) by lia.
      rewrite (getitem_nth l (i - 1) 0) by lia. reflexivity.
    + assert (Ez : (Z.of_nat i =? Z.of_nat (length l) - 1)%Z = false)
        by (apply Nat.eqb_neq in E1; apply Z.eqb_neq; lia).
      rewrite Ez. apply Nat.eqb_neq in E1.
      replace (Z.of_nat i + 1)%Z with (Z.of_nat (i + 1)) by lia.
      replace (Z.of_nat i - 1)%Z with (Z.of_nat (i - 1)) by lia.
      rewrite (getitem_nth l (i + 1) 0) by lia.
      rewrite (getitem_nth l (i - 1) 0) by lia. reflexivity.
Qed.

Lemma lam_val_weights_ok (l : list R) :
  (2 <= length l)%nat ->
  lam_val_weights l = Ok (map (weight_at l) (seq 0 (length l))).
Proof.
  intro Hlen. unfold lam_val_weights. rewrite (enumerate_nth l 0).
  rewrite (mapM_ok _ (fun p => weight_at l (fst p))).
  - now rewrite map_map.
  - intros [i v] Hin. apply in_map_iff in Hin. destruct Hin as [j [Hj Hin]].
    inversion Hj; subst. apply in_seq in Hin. cbn [fst].
    apply lam_val_weight_ok; lia.
Qed.

Lemma weights_partial_sum (l : list R) (m : nat) :
  (1 <= m)%nat -> (m <= length l - 1)%nat ->
  Np.sum (map (weight_at l) (seq 0 m)) = 0.5 * (nth m l 0 + nth (m - 1) l 0) - nth 0 l 0.
Proof.
  intros H1 Hm. induction m as [|m IH]; [lia|].
  destruct (Nat.eq_dec m 0) as [-> | Hm0].
  - cbn. unfold weight_at. cbn. lra.
  - rewrite seq_S, map_app, sum_app, IH by lia. cbn [Nat.add map Np.sum].
    unfold weight_at.
    assert (E0 : (m =? 0)%nat = false) by (apply Nat.eqb_neq; lia).
    assert (E1 : (m =? length l - 1)%nat = false) by (apply Nat.eqb_neq; lia).
    rewrite E0, E1.
    replace (m + 1)%nat with (S m) by lia.
    replace (S m - 1)%nat with m by lia. lra.
Qed.

Lemma weights_total (l : list R) :
  (2 <= length l)%nat ->
  Np.sum (map (weight_at l) (seq 0 (length l))) = last l 0 - hd 0 l.
Proof.
  intro Hlen.
  replace (length l) with (S (length l - 1)) at 1 by lia.
  rewrite seq_S, map_app, sum_app, weights_partial_sum by lia.
  cbn [Nat.add map Np.sum]. unfold weight_at.
  assert (E0 : (length l - 1 =? 0)%nat = false) by (apply Nat.eqb_neq; lia).
  rewrite E0, Nat.eqb_refl, (last_nth_pred l 0).
  replace (hd 0 l) with (nth 0 l 0) by (destruct l; reflexivity). lra.
Qed.

(** C8, as the code has it: for strictly increasing lambda values, two at
    least, the weights are computed and sum to the last lambda value minus
    the first. *)
Theorem lam_val_weights_sum :
  forall lam_vals : list R,
    (2 <= length lam_vals)%nat ->
    strictly_increasing lam_vals ->
    exists weights,
      lam_val_weights lam_vals = Ok weights
      /\ Np.sum weights = last lam_vals 0 - hd 0 lam_vals.
Proof.
  intros lam_vals Hlen _.
  exists (map (weight_at lam_vals) (seq 0 (length lam_vals))). split.
  - now apply lam_val_weights_ok.
  - now apply weights_total.
Qed.

Lemma lam_val_weights_sum_witness :
  (2 <= length example_lam_vals)%nat
  /\ strictly_increasing example_lam_vals
  /\ exists weights,
      lam_val_weights example_lam_vals = Ok weights
      /\ Np.sum weights = last example_lam_vals 0 - hd 0 example_lam_vals.
Proof.
  assert (H1 : (2 <= length example_lam_vals)%nat) by (cbn; lia).
  assert (H2 : strictly_increasing example_lam_vals) by (cbn; repeat split; lra).
  split; [exact H1 | split; [exact H2 |]].
  exact (lam_val_weights_sum example_lam_vals H1 H2).
Defined.

(** C8, as the specification has it, fails: a single lambda value is a
    strictly increasing list, and the property raises [IndexError] on it
    when it looks for the second value. *)
Lemma lam_val_weights_single_value :
  strictly_increasing [0.5] /\ lam_val_weights [0.5] = Raise IndexError.
Proof. split; [exact I | reflexivity]. Qed.

End WeightsProps.

(** ** GradientData.get_sems *)

Section SemsProps.
Import ProcessGrads.
Local Open Scope R_scope.

Lemma sqrt_4 : sqrt 4 = 2.
Proof. replace 4 with (2 * 2) by lra. apply sqrt_square. lra. Qed.

Lemma flat_standardised : standardised_sems flat_gradient_data "inter" = Ok [6; 6; 6].
Proof.
  unfold standardised_sems. cbn. rewrite sqrt_4.
  repeat f_equal; lra.
Qed.

(** C7, at the code: the smoothed value of a window is not a block average
    of the standardised series.  The neighbours are read from
    [sems_overall], the overall error that is not standardised, and only
    the window itself comes from the standardised series of the chosen
    origin.  On windows whose standardised inter-run series is 6, 6, 6,
    whose block average is 6, 6, 6, [get_sems] returns 11/2, 16/3, 11/2. *)
Theorem get_sems_smoothens_with_overall :
  standardised_sems flat_gradient_data "inter" = Ok [6; 6; 6]
  /\ get_sems flat_gradient_data "inter" false = Ok [6; 6; 6]
  /\ block_average [6; 6; 6] = [6; 6; 6]
  /\ get_sems flat_gradient_data "inter" true = Ok [11 / 2; 16 / 3; 11 / 2]
  /\ get_sems flat_gradient_data "inter" true <> Ok (block_average [6; 6; 6]).
Proof.
  assert (Hsmooth : get_sems flat_gradient_data "inter" true = Ok [11 / 2; 16 / 3; 11 / 2]).
  { unfold get_sems. cbn [Np.str_in existsb String.eqb Ascii.eqb Bool.eqb orb negb].
    rewrite flat_standardised. cbn.
    change (Pos.to_nat 1) with 1%nat. change (Pos.to_nat 2) with 2%nat. cbn.
    repeat f_equal; lra. }
  assert (Hblock : block_average [6; 6; 6] = [6; 6; 6]).
  { unfold block_average. cbn. repeat f_equal; lra. }
  split; [exact flat_standardised|]. split.
  { unfold get_sems. cbn [Np.str_in existsb String.eqb Ascii.eqb Bool.eqb orb negb].
    rewrite flat_standardised. reflexivity. }
  split; [exact Hblock|]. split; [exact Hsmooth|].
  rewrite Hsmooth, Hblock. intro H. inversion H. lra.
Qed.

End SemsProps.

(** ** GradientData.get_predicted_overlap_mat *)

Section MatrixProps.
Import ProcessGrads.
Local Open Scope R_scope.

Lemma mirror_length (n : nat) (m : list (list R)) : length (mirror n m) = n.
Proof. unfold mirror. now rewrite length_map, length_seq. Qed.

Lemma mirror_entry (n : nat) (m : list (list R)) (i j : nat) :
  (i < n)%nat -> (j < n)%nat ->
  entry (mirror n m) i j
  = entry m i j + (entry m j i - (if (i =? j)%nat then entry m i i else 0)).
Proof.
  intros Hi Hj. unfold entry at 1, mirror.
  rewrite (nth_map_seq _ n i []) by exact Hi.
  now rewrite (nth_map_seq _ n j 0) by exact Hj.
Qed.

Lemma mirror_symmetric (n : nat) (m : list (list R)) : symmetric (mirror n m).
Proof.
  intros i j Hi Hj. rewrite mirror_length in Hi, Hj.
  rewrite !mirror_entry by assumption.
  destruct (Nat.eq_dec i j) as [-> | Hne]; [reflexivity|].
  assert (E1 : (i =? j)%nat = false) by (apply Nat.eqb_neq; lia).
  assert (E2 : (j =? i)%nat = false) by (apply Nat.eqb_neq; lia).
  rewrite E1, E2. lra.
Qed.

Lemma normalise_row_sum (row : list R) :
  Np.sum row <> 0 -> Np.sum (normalise_row row) = 1.
Proof.
  intro Hsum. unfold normalise_row. rewrite sum_scale. now field.
Qed.

Lemma mirror_row_sum (n : nat) (m : list (list R)) (i : nat) :
  (forall a b, 0 <= entry m a b) ->
  (forall a, (a < n)%nat -> entry m a a = 1) ->
  (i < n)%nat ->
  1 <= Np.sum (nth i (mirror n m) []).
Proof.
  intros Hnn Hdiag Hi. unfold mirror.
  rewrite (nth_map_seq _ n i []) by exact Hi.
  apply sum_ge_member.
  - apply Forall_forall. intros x Hx. apply in_map_iff in Hx.
    destruct Hx as [j [<- Hj]].
    destruct (Nat.eq_dec i j) as [<- | Hne].
    + rewrite Nat.eqb_refl. pose proof (Hnn i i). lra.
    + assert (E : (i =? j)%nat = false) by (apply Nat.eqb_neq; lia).
      rewrite E. pose proof (Hnn i j). pose proof (Hnn j i). lra.
  - apply in_map_iff. exists i. split; [|apply in_seq; lia].
    rewrite Nat.eqb_refl, (Hdiag i Hi). lra.
Qed.

End MatrixProps.

Section OverlapProps.
Import ProcessGrads.
Local Open Scope R_scope.

Variable self : GradientData.
Variable temperature : R.
Hypothesis vars_length : length (vars_intra self) = n_lam self.
Hypothesis lam_increasing : strictly_increasing (lam_vals self).
Hypothesis vars_positive : Forall (fun v => 0 < v) (vars_intra self).
Hypothesis temperature_positive : 0 < temperature.

Local Abbreviation beta := (ProcessGrads.beta temperature).

Lemma beta_positive : 0 < beta.
Proof.
  unfold ProcessGrads.beta, gas_constant. apply Rdiv_lt_0_compat; [lra|].
  apply Rmult_lt_0_compat; lra.
Qed.

Lemma overlap_step_positive (base_index i : nat) (u : R) :
  0 < u -> (base_index + i < n_lam self)%nat ->
  exists u', overlap_step self beta base_index u i = Ok u' /\ 0 < u'
             /\ (i = 0%nat -> u' = u).
Proof.
  intros Hu Hi. unfold overlap_step.
  destruct (i =? 0)%nat eqn:E0; cbn [negb].
  - exists u. repeat split; auto.
  - apply Nat.eqb_neq in E0. unfold n_lam in *.
    replace (Z.of_nat base_index + Z.of_nat i)%Z with (Z.of_nat (S (base_index + i - 1)))
      by lia.
    replace (Z.of_nat (S (base_index + i - 1)) - 1)%Z with (Z.of_nat (base_index + i - 1))
      by lia.
    set (k := (base_index + i - 1)%nat).
    assert (Hk : (S k < length (lam_vals self))%nat) by (unfold k; lia).
    rewrite (getitem_nth (lam_vals self) (S k) 0) by lia.
    rewrite (getitem_nth (lam_vals self) k 0) by lia.
    rewrite (getitem_nth (vars_intra self) (S k) 0) by lia.
    rewrite (getitem_nth (vars_intra self) k 0) by lia.
    cbn [bind]. eexists. split; [reflexivity|]. split; [|lia].
    pose proof (strictly_increasing_step _ k lam_increasing Hk) as Hlam.
    pose proof (Forall_nth_pos _ (S k) vars_positive ltac:(lia)) as Hv1.
    pose proof (Forall_nth_pos _ k vars_positive ltac:(lia)) as Hv0.
    apply Rdiv_lt_0_compat; [exact Hu|].
    apply Rmult_lt_0_compat.
    + apply Rmult_lt_0_compat; [apply beta_positive | lra].
    + apply sqrt_lt_R0. lra.
Qed.

Lemma overlap_loop_positive (base_index s len : nat) (u : R) :
  0 < u -> (base_index + s + len <= n_lam self)%nat ->
  exists vals, overlap_loop self beta base_index u (seq s len) = Ok vals
               /\ Forall (fun v => 0 < v) vals
               /\ length vals = len
               /\ (s = 0%nat -> (0 < len)%nat -> hd 0 vals = u).
Proof.
  revert s u. induction len as [|len IH]; intros s u Hu Hn.
  - exists []. cbn. repeat split; auto. intros _ H; lia.
  - cbn [seq overlap_loop].
    destruct (overlap_step_positive base_index s u Hu ltac:(lia)) as [u' [Hstep [Hu' Hfirst]]].
    rewrite Hstep. cbn [bind].
    destruct (IH (S s) u' Hu' ltac:(lia)) as [vals [Hloop [Hpos [Hlen _]]]].
    rewrite Hloop. cbn [bind].
    exists (u' :: vals).
    split; [reflexivity|]. split; [now constructor|]. split.
    + cbn. now rewrite Hlen.
    + intros Hs _. cbn. auto.
Qed.

Lemma upper_row_shape (base_index : nat) :
  (base_index < n_lam self)%nat ->
  exists row, upper_row self beta base_index = Ok row
              /\ Forall (fun v => 0 <= v) row
              /\ nth base_index row 0 = 1.
Proof.
  intro Hb. unfold upper_row.
  destruct (overlap_loop_positive base_index 0 (n_lam self - base_index) 1 ltac:(lra) ltac:(lia))
    as [vals [Hloop [Hpos [Hlen Hhd]]]].
  rewrite Hloop. cbn [bind]. eexists. split; [reflexivity|]. split.
  - apply Forall_app. split.
    + apply Forall_forall. intros x Hx. apply repeat_spec in Hx. lra.
    + eapply Forall_impl; [|exact Hpos]. cbn. intros; lra.
  - rewrite app_nth2 by (rewrite repeat_length; lia).
    rewrite repeat_length, Nat.sub_diag.
    destruct vals as [|v vals]; [cbn in Hlen; lia|].
    cbn. cbn in Hhd. apply Hhd; [reflexivity | lia].
Qed.

Lemma upper_triangle_shape :
  exists upper, upper_triangle self beta = Ok upper
                /\ (forall i j, 0 <= entry upper i j)
                /\ (forall i, (i < n_lam self)%nat -> entry upper i i = 1).
Proof.
  unfold upper_triangle.
  destruct (mapM_exists (upper_row self beta) (seq 0 (n_lam self))) as [upper Hupper].
  { intros b Hb. apply in_seq in Hb.
    destruct (upper_row_shape b ltac:(lia)) as [row [Hrow _]]. eauto. }
  exists upper. split; [exact Hupper|].
  assert (Hrows : forall i, (i < n_lam self)%nat ->
            upper_row self beta i = Ok (nth i upper [])).
  { intros i Hi.
    pose proof (mapM_nth _ _ _ i 0%nat [] Hupper ltac:(now rewrite length_seq)) as H.
    now rewrite seq_nth in H by exact Hi. }
  split.
  - intros i j. unfold entry.
    destruct (Nat.lt_ge_cases i (n_lam self)) as [Hi | Hi].
    + destruct (upper_row_shape i Hi) as [row [Hrow [Hnn _]]].
      rewrite (Hrows i Hi) in Hrow. inversion Hrow; subst.
      now apply Forall_nth_nonneg.
    + rewrite (nth_overflow upper).
      * destruct j; cbn; lra.
      * apply mapM_length in Hupper. rewrite length_seq in Hupper. lia.
  - intros i Hi. unfold entry.
    destruct (upper_row_shape i Hi) as [row [Hrow [_ Hdiag]]].
    rewrite (Hrows i Hi) in Hrow. now inversion Hrow; subst.
Qed.


End OverlapProps.

Section OverlapMatrix.
Import ProcessGrads.
Local Open Scope R_scope.

(** C6, as the code has it: on strictly increasing lambda values with
    positive intra-run variances, one for each of two windows or more, and
    at a positive temperature, the matrix is symmetric before the
    normalisation by row, and in the matrix returned, which is that
    matrix with every row divided by its sum, every row sums to 1. *)
Theorem predicted_overlap_rows_sum_to_one :
  forall (self : GradientData) (temperature : R),
    (2 <= n_lam self)%nat ->
    length (vars_intra self) = n_lam self ->
    strictly_increasing (lam_vals self) ->
    Forall (fun v => 0 < v) (vars_intra self) ->
    0 < temperature ->
  exists mirrored mat,
    mirrored_overlap_mat self temperature = Ok mirrored
    /\ symmetric mirrored
    /\ get_predicted_overlap_mat self temperature = Ok mat
    /\ mat = map normalise_row mirrored
    /\ length mat = n_lam self
    /\ Forall (fun row => Np.sum row = 1) mat.
Proof.
  intros self temperature _ Hlen Hlam Hvars Htemp.
  destruct (upper_triangle_shape self temperature Hlen Hlam Hvars Htemp)
    as [upper [Hupper [Hnn Hdiag]]].
  exists (mirror (n_lam self) upper), (map normalise_row (mirror (n_lam self) upper)).
  assert (Hm : mirrored_overlap_mat self temperature = Ok (mirror (n_lam self) upper)).
  { unfold mirrored_overlap_mat.
    destruct (Req_dec_T (gas_constant * temperature) 0) as [E | _].
    - exfalso. unfold gas_constant in E. nra.
    - cbv zeta. now rewrite Hupper. }
  split; [exact Hm|]. split; [apply mirror_symmetric|]. split.
  { unfold get_predicted_overlap_mat. now rewrite Hm. }
  split; [reflexivity|]. split.
  { now rewrite length_map, mirror_length. }
  apply Forall_forall. intros row Hrow. apply in_map_iff in Hrow.
  destruct Hrow as [r [<- Hr]]. apply normalise_row_sum.
  destruct (In_nth _ _ [] Hr) as [i [Hi Hnth]]. rewrite mirror_length in Hi.
  pose proof (mirror_row_sum (n_lam self) upper i Hnn Hdiag Hi) as Hge.
  rewrite Hnth in Hge. lra.
Qed.


Lemma predicted_overlap_rows_sum_to_one_witness :
  (2 <= n_lam flat_gradient_data)%nat
  /\ length (vars_intra flat_gradient_data) = n_lam flat_gradient_data
  /\ strictly_increasing (lam_vals flat_gradient_data)
  /\ Forall (fun v => 0 < v) (vars_intra flat_gradient_data)
  /\ 0 < 298
  /\ exists mirrored mat,
      mirrored_overlap_mat flat_gradient_data 298 = Ok mirrored
      /\ symmetric mirrored
      /\ get_predicted_overlap_mat flat_gradient_data 298 = Ok mat
      /\ mat = map normalise_row mirrored
      /\ length mat = n_lam flat_gradient_data
      /\ Forall (fun row => Np.sum row = 1) mat.
Proof.
  assert (H1 : (2 <= n_lam flat_gradient_data)%nat) by (cbn; lia).
  assert (H2 : length (vars_intra flat_gradient_data) = n_lam flat_gradient_data)
    by reflexivity.
  assert (H3 : strictly_increasing (lam_vals flat_gradient_data))
    by (cbn; repeat split; lra).
  assert (H4 : Forall (fun v => 0 < v) (vars_intra flat_gradient_data))
    by (cbn; repeat constructor; lra).
  assert (H5 : 0 < 298) by lra.
  repeat (split; [assumption|]).
  exact (predicted_overlap_rows_sum_to_one flat_gradient_data 298 H1 H2 H3 H4 H5).
Defined.

(** The overlap matrix of three windows with equal variances at 298 K:
    [c] is the overlap predicted for two neighbours, about 1.18. *)
Lemma flat_overlap_value :
  exists c, 0 < c /\ c <> 1 /\
    get_predicted_overlap_mat flat_gradient_data 298
    = Ok (map normalise_row [ [1; c; c * c]; [c; 1; c]; [c * c; c; 1] ]).
Proof.
  set (b := beta 298).
  assert (Hd : 0 < gas_constant * 298) by (unfold gas_constant; lra).
  assert (Hbeta : b * (gas_constant * 298) = 4184).
  { unfold b, beta, Rdiv. rewrite Rmult_assoc, Rinv_l by lra. lra. }
  assert (Hpos : 0 < b) by (unfold b, beta; apply Rdiv_lt_0_compat; lra).
  assert (Hlt : b < 2) by (unfold gas_constant in *; nra).
  exists (2 / b). split; [apply Rdiv_lt_0_compat; lra|]. split.
  { intro H. apply (f_equal (fun x => x * b)) in H.
    replace (2 / b * b) with 2 in H by (field; lra). lra. }
  unfold get_predicted_overlap_mat, mirrored_overlap_mat.
  destruct (Req_dec_T (gas_constant * 298) 0) as [E | _]; [lra|].
  cbv zeta. fold b.
  cbv -[Rplus Rminus Rmult Rdiv Rinv Ropp Rlt sqrt IZR b].
  replace ((1 + 1) / 2) with 1 by lra. rewrite sqrt_1.
  f_equal. rows_eq; field; nra.
Qed.

(** C6, as the specification has it, fails: dividing every row by its own
    sum does not keep the symmetry.  With three windows the row of the
    middle window has the larger sum, so entry (0, 1) is not entry (1, 0). *)
Lemma predicted_overlap_not_symmetric :
  (2 <= n_lam flat_gradient_data)%nat
  /\ Forall (fun v => 0 < v) (vars_intra flat_gradient_data)
  /\ exists mat,
      get_predicted_overlap_mat flat_gradient_data 298 = Ok mat
      /\ ~ symmetric mat.
Proof.
  split; [cbn; lia|]. split; [cbn; repeat constructor; lra|].
  destruct flat_overlap_value as [c [Hc [Hc1 Hmat]]].
  eexists. split; [exact Hmat|].
  intro Hsym. specialize (Hsym 0%nat 1%nat ltac:(cbn; lia) ltac:(cbn; lia)).
  unfold entry in Hsym. cbn in Hsym.
  assert (HA : 0 < 1 + (c + (c * c + 0))) by nra.
  assert (HB : 0 < c + (1 + (c + 0))) by nra.
  apply (f_equal (fun x => x * (1 + (c + (c * c + 0))) * (c + (1 + (c + 0))))) in Hsym.
  replace (c / (1 + (c + (c * c + 0))) * (1 + (c + (c * c + 0))) * (c + (1 + (c + 0))))
    with (c * (c + (1 + (c + 0)))) in Hsym by (field; lra).
  replace (c / (c + (1 + (c + 0))) * (1 + (c + (c * c + 0))) * (c + (1 + (c + 0))))
    with (c * (1 + (c + (c * c + 0)))) in Hsym by (field; lra).
  assert (Hcc : c * (c * (c - 1)) = 0) by lra.
  apply Rmult_integral in Hcc. destruct Hcc as [Hcc | Hcc]; [lra|].
  apply Rmult_integral in Hcc. destruct Hcc as [Hcc | Hcc]; lra.
Qed.

End OverlapMatrix.

(** ** GradientData.get_integrated_error *)

Section IntegratedErrorProps.
Import ProcessGrads.
Local Open Scope R_scope.

Lemma adjacent_length {A B : Type} (f : A -> A -> B) (l : list A) :
  length (Np.adjacent f l) = (length l - 1)%nat.
Proof.
  induction l as [|a l IH]; [reflexivity|].
  destruct l as [|b l]; [reflexivity|].
  cbn [Np.adjacent length] in *. rewrite IH. lia.
Qed.

Lemma trapz_ok (y x : list R) :
  length y = length x -> Np.trapz y x = Ok (trapz_val y x).
Proof.
  intro Hlen. unfold Np.trapz, Np.mul, Np.diff.
  rewrite !adjacent_length, Hlen, Nat.eqb_refl. reflexivity.
Qed.

Lemma integrated_error_closed (self : GradientData) (er_type origin : string)
    (smoothen : bool) (y : list R) :
  Np.str_in er_type ["sem"; "root_var"] = true ->
  Np.str_in origin ["inter"; "intra"] = true ->
  y_vals self er_type origin smoothen = Ok y ->
  length y = length (lam_vals self) ->
  get_integrated_error self er_type origin smoothen
  = Ok (map (prefix_integral y (lam_vals self)) (seq 0 (length (lam_vals self)))).
Proof.
  intros Her Hor Hy Hlen. unfold get_integrated_error.
  rewrite Her, Hor, Hy. cbn [negb bind].
  apply mapM_ok. intros i _. unfold Py.slice_to, prefix_integral.
  apply trapz_ok. rewrite !length_firstn, Hlen. reflexivity.
Qed.

Lemma trapz_val_cons (y0 y1 x0 x1 : R) (ys xs : list R) :
  trapz_val (y0 :: y1 :: ys) (x0 :: x1 :: xs)
  = (x1 - x0) * (y1 + y0) / 2 + trapz_val (y1 :: ys) (x1 :: xs).
Proof. reflexivity. Qed.

Lemma prefix_integral_0 (y x : list R) : prefix_integral y x 0 = 0.
Proof.
  unfold prefix_integral. cbn [Nat.add].
  destruct x as [|x0 x]; [reflexivity|].
  destruct y as [|y0 y]; reflexivity.
Qed.

Lemma prefix_integral_cons (y0 y1 x0 x1 : R) (ys xs : list R) (k : nat) :
  prefix_integral (y0 :: y1 :: ys) (x0 :: x1 :: xs) (S k)
  = (x1 - x0) * (y1 + y0) / 2 + prefix_integral (y1 :: ys) (x1 :: xs) k.
Proof.
  unfold prefix_integral. rewrite !Nat.add_1_r. cbn [firstn].
  apply trapz_val_cons.
Qed.

Lemma prefix_integral_step (y x : list R) (k : nat) :
  length y = length x ->
  strictly_increasing x ->
  Forall (fun v => 0 < v) y ->
  (S k < length x)%nat ->
  prefix_integral y x k < prefix_integral y x (S k).
Proof.
  revert y x. induction k as [|k IH]; intros y x Hlen Hinc Hpos Hk.
  - destruct x as [|x0 [|x1 xs]]; cbn in Hk; try lia.
    destruct y as [|y0 [|y1 ys]]; cbn in Hlen; try lia.
    rewrite prefix_integral_cons, !prefix_integral_0.
    inversion Hpos as [|? ? Hy0 Hpos']; subst.
    inversion Hpos' as [|? ? Hy1 _]; subst.
    cbn in Hinc. destruct Hinc as [Hx _]. nra.
  - destruct x as [|x0 [|x1 xs]]; cbn in Hk; try lia.
    destruct y as [|y0 [|y1 ys]]; cbn in Hlen; try lia.
    rewrite !prefix_integral_cons.
    assert (Hlt : prefix_integral (y1 :: ys) (x1 :: xs) k
                  < prefix_integral (y1 :: ys) (x1 :: xs) (S k)).
    { apply IH.
      - cbn. lia.
      - now apply strictly_increasing_tail in Hinc.
      - now inversion Hpos.
      - cbn. lia. }
    lra.
Qed.

End IntegratedErrorProps.

(** ** np.interp on increasing sample points *)

Section InterpProps.
Local Open Scope R_scope.

Lemma strictly_increasing_nth (l : list R) : strictly_increasing l -> increasing_nth l.
Proof. intros H i Hi. now apply strictly_increasing_step. Qed.

Lemma increasing_nth_le (l : list R) (i j : nat) :
  increasing_nth l -> (i <= j)%nat -> (j < length l)%nat -> nth i l 0 <= nth j l 0.
Proof.
  intros Hinc Hij Hj. induction j as [|j IH].
  - replace i with 0%nat by lia. lra.
  - destruct (Nat.eq_dec i (S j)) as [-> | Hne]; [lra|].
    specialize (IH ltac:(lia) ltac:(lia)). specialize (Hinc j Hj). lra.
Qed.

Lemma nth_tl (l : list R) (i : nat) : nth i (tl l) 0 = nth (S i) l 0.
Proof. destruct l as [|a l]; [destruct i; reflexivity | reflexivity]. Qed.

Lemma length_tl (l : list R) : length (tl l) = (length l - 1)%nat.
Proof. destruct l; cbn; lia. Qed.

Lemma search_le_length (key : R) (rest : list R) :
  (Np.search key rest <= length rest)%nat.
Proof.
  induction rest as [|a rest IH]; cbn; [lia|].
  destruct (Rle_dec a key); cbn; lia.
Qed.

Lemma search_prefix_le (key : R) (rest : list R) (i : nat) :
  (i < Np.search key rest)%nat -> nth i rest 0 <= key.
Proof.
  revert i. induction rest as [|a rest IH]; intros i Hi; cbn in Hi; [lia|].
  destruct (Rle_dec a key) as [Ha | Ha]; [|lia].
  destruct i as [|i]; cbn; [exact Ha | apply IH; lia].
Qed.

Lemma search_stop (key : R) (rest : list R) :
  (Np.search key rest < length rest)%nat -> key < nth (Np.search key rest) rest 0.
Proof.
  induction rest as [|a rest IH]; cbn; [lia|].
  destruct (Rle_dec a key) as [Ha | Ha]; cbn; intro H.
  - apply IH. lia.
  - lra.
Qed.

Lemma search_monotone (x x' : R) (rest : list R) :
  x <= x' -> (Np.search x rest <= Np.search x' rest)%nat.
Proof.
  intro Hxx. induction rest as [|a rest IH]; cbn; [lia|].
  destruct (Rle_dec a x) as [Ha | Ha].
  - destruct (Rle_dec a x') as [Ha' | Ha']; [lia | lra].
  - lia.
Qed.

Lemma search_all (key : R) (rest : list R) :
  (forall i, (i < length rest)%nat -> nth i rest 0 <= key) ->
  Np.search key rest = length rest.
Proof.
  induction rest as [|a rest IH]; intro H; cbn; [reflexivity|].
  destruct (Rle_dec a key) as [Ha | Ha].
  - f_equal. apply IH. intros i Hi. apply (H (S i)). cbn. lia.
  - exfalso. apply Ha. apply (H 0%nat). cbn. lia.
Qed.

Lemma hd_nth (l : list R) : hd 0 l = nth 0 l 0.
Proof. destruct l; reflexivity. Qed.

Lemma interp_in_range (x : R) (xp fp : list R) :
  xp <> [] -> length xp = length fp ->
  hd 0 xp <= x -> x <= last xp 0 ->
  Np.interp x xp fp = Ok (segment x xp fp).
Proof.
  intros Hne Hlen Hlo Hhi. unfold Np.interp, segment.
  assert (E0 : (length xp =? 0)%nat = false)
    by (apply Nat.eqb_neq; destruct xp; [contradiction | cbn; lia]).
  rewrite E0, Hlen, Nat.eqb_refl. cbn [negb].
  destruct (Rlt_dec (last xp 0) x) as [H | _]; [lra|].
  destruct (Rlt_dec x (hd 0 xp)) as [H | _]; [lra|].
  rewrite <- Hlen.
  destruct (Np.search x (tl xp) =? length xp - 1)%nat; [reflexivity|].
  destruct (Req_dec_T (nth (Np.search x (tl xp)) xp 0) x) as [E | _]; [|reflexivity].
  f_equal. rewrite E. unfold Rminus. rewrite Rplus_opp_r, Rmult_0_r. lra.
Qed.

Section Monotone.

Variables xp fp : list R.
Hypothesis xp_nonempty : xp <> [].
Hypothesis same_length : length xp = length fp.
Hypothesis xp_increasing : increasing_nth xp.
Hypothesis fp_increasing : increasing_nth fp.

Lemma search_in_range (x : R) : (Np.search x (tl xp) <= length xp - 1)%nat.
Proof. rewrite <- length_tl. apply search_le_length. Qed.

Lemma search_lower (x : R) : hd 0 xp <= x -> nth (Np.search x (tl xp)) xp 0 <= x.
Proof.
  intro Hlo. destruct (Np.search x (tl xp)) as [|j] eqn:Ej.
  - now rewrite <- hd_nth.
  - rewrite <- nth_tl. apply search_prefix_le. lia.
Qed.

Lemma search_upper (x : R) :
  (Np.search x (tl xp) < length xp - 1)%nat ->
  x < nth (S (Np.search x (tl xp))) xp 0.
Proof.
  intro Hj. rewrite <- nth_tl. apply search_stop. now rewrite length_tl.
Qed.

Lemma segment_lower (x : R) :
  hd 0 xp <= x -> nth (Np.search x (tl xp)) fp 0 <= segment x xp fp.
Proof.
  intro Hlo. unfold segment. pose proof (search_in_range x) as Hr.
  destruct (Nat.eqb_spec (Np.search x (tl xp)) (length xp - 1)) as [E | Hne]; [lra|].
  set (j := Np.search x (tl xp)) in *.
  assert (Hj : (S j < length xp)%nat) by lia.
  pose proof (xp_increasing j Hj) as Hx.
  pose proof (fp_increasing j ltac:(lia)) as Hf.
  pose proof (search_lower x Hlo) as Hl. fold j in Hl.
  assert (Hs : 0 < (nth (S j) fp 0 - nth j fp 0) / (nth (S j) xp 0 - nth j xp 0))
    by (apply Rdiv_lt_0_compat; lra).
  nra.
Qed.

Lemma segment_upper (x : R) :
  hd 0 xp <= x ->
  (Np.search x (tl xp) < length xp - 1)%nat ->
  segment x xp fp <= nth (S (Np.search x (tl xp))) fp 0.
Proof.
  intros Hlo Hj. unfold segment.
  destruct (Nat.eqb_spec (Np.search x (tl xp)) (length xp - 1)) as [E | Hne]; [lia|].
  pose proof (search_upper x Hj) as Hu.
  pose proof (search_lower x Hlo) as Hl.
  set (j := Np.search x (tl xp)) in *.
  pose proof (xp_increasing j ltac:(lia)) as Hx.
  pose proof (fp_increasing j ltac:(lia)) as Hf.
  set (dx := nth (S j) xp 0 - nth j xp 0) in *.
  set (df := nth (S j) fp 0 - nth j fp 0) in *.
  assert (Hdx : 0 < dx) by (unfold dx; lra).
  assert (Hdf : 0 < df) by (unfold df; lra).
  assert (Hs : df / dx * dx = df) by (field; lra).
  assert (Hp : 0 < df / dx) by (apply Rdiv_lt_0_compat; lra).
  assert (Hm : df / dx * (x - nth j xp 0) <= df / dx * dx)
    by (apply Rmult_le_compat_l; [lra | unfold dx; lra]).
  unfold df in Hs at 2. lra.
Qed.

Lemma segment_monotone (x x' : R) :
  hd 0 xp <= x -> x <= x' -> segment x xp fp <= segment x' xp fp.
Proof.
  intros Hlo Hxx.
  pose proof (search_monotone x x' (tl xp) Hxx) as Hjj.
  pose proof (search_in_range x') as Hr'.
  destruct (Nat.eq_dec (Np.search x (tl xp)) (Np.search x' (tl xp))) as [E | Hne].
  - unfold segment. rewrite <- E.
    destruct (Nat.eqb_spec (Np.search x (tl xp)) (length xp - 1)) as [_ | Hn]; [lra|].
    set (j := Np.search x (tl xp)) in *.
    pose proof (xp_increasing j ltac:(lia)) as Hx.
    pose proof (fp_increasing j ltac:(lia)) as Hf.
    assert (Hp : 0 < (nth (S j) fp 0 - nth j fp 0) / (nth (S j) xp 0 - nth j xp 0))
      by (apply Rdiv_lt_0_compat; lra).
    nra.
  - pose proof (segment_upper x Hlo ltac:(lia)) as Hu.
    pose proof (segment_lower x' ltac:(lra)) as Hl.
    pose proof (increasing_nth_le fp (S (Np.search x (tl xp))) (Np.search x' (tl xp))
                  fp_increasing ltac:(lia) ltac:(lia)) as Hmid.
    lra.
Qed.

Lemma segment_first : segment (hd 0 xp) xp fp = hd 0 fp.
Proof.
  unfold segment.
  assert (Ej : Np.search (hd 0 xp) (tl xp) = 0%nat).
  { destruct xp as [|a [|b rest]] eqn:Exp; [contradiction | reflexivity |].
    cbn. destruct (Rle_dec b a) as [Hba | _]; [|reflexivity].
    pose proof (xp_increasing 0%nat ltac:(cbn; lia)) as H. cbn in H. lra. }
  rewrite Ej, <- !hd_nth.
  destruct (0 =? length xp - 1)%nat; [reflexivity|].
  unfold Rminus. rewrite (Rplus_opp_r (hd 0 xp)), Rmult_0_r. lra.
Qed.

Lemma segment_last : segment (last xp 0) xp fp = last fp 0.
Proof.
  unfold segment.
  assert (Ej : Np.search (last xp 0) (tl xp) = (length xp - 1)%nat).
  { rewrite <- length_tl. apply search_all. intros i Hi.
    rewrite length_tl in Hi. rewrite nth_tl, last_nth_pred.
    apply increasing_nth_le; [exact xp_increasing | lia | lia]. }
  rewrite Ej, Nat.eqb_refl, (last_nth_pred fp), same_length. reflexivity.
Qed.

End Monotone.

End InterpProps.

(** ** np.linspace *)

Section LinspaceProps.
Local Open Scope R_scope.

Lemma linspace_ok (start stop : R) (num : Z) :
  (0 <= num)%Z ->
  Np.linspace start stop num
  = Ok (map (linspace_val start stop (Z.to_nat num)) (seq 0 (Z.to_nat num))).
Proof.
  intro Hnum. unfold Np.linspace.
  assert (E : (num <? 0)%Z = false) by (apply Z.ltb_ge; lia).
  rewrite E. reflexivity.
Qed.

Lemma linspace_val_first (stop : R) (n : nat) : linspace_val 0 stop n 0 = 0.
Proof.
  unfold linspace_val.
  destruct ((1 <? n) && (0 =? n - 1))%nat eqn:E.
  - apply andb_prop in E. destruct E as [E1 E2].
    apply Nat.ltb_lt in E1. apply Nat.eqb_eq in E2. lia.
  - cbn [INR]. lra.
Qed.

Lemma linspace_val_last (start stop : R) (n : nat) :
  (2 <= n)%nat -> linspace_val start stop n (n - 1) = stop.
Proof.
  intro Hn. unfold linspace_val.
  assert (E1 : (1 <? n)%nat = true) by (apply Nat.ltb_lt; lia).
  now rewrite E1, Nat.eqb_refl.
Qed.

Lemma linspace_val_inner (stop : R) (n i : nat) :
  0 <= stop -> (i < n)%nat ->
  0 <= linspace_val 0 stop n i <= stop
  /\ ((S i < n)%nat -> linspace_val 0 stop n i <= linspace_val 0 stop n (S i)).
Proof.
  intros Hstop Hi. unfold linspace_val.
  destruct (Nat.eq_dec n 1) as [-> | Hn1].
  { assert (i = 0)%nat as -> by lia. cbn [Nat.ltb Nat.leb andb INR].
    split; [lra | intro; lia]. }
  assert (E1 : (1 <? n)%nat = true) by (apply Nat.ltb_lt; lia).
  rewrite E1. cbn [andb].
  assert (Hm : 0 < INR (n - 1)) by (apply lt_0_INR; lia).
  set (m := INR (n - 1)) in *.
  assert (Hs : (stop - 0) / m * m = stop) by (field; lra).
  assert (Hp : 0 <= (stop - 0) / m) by (apply Rmult_le_pos; [lra | left; now apply Rinv_0_lt_compat]).
  assert (Hle : forall a, (a <= n - 1)%nat -> 0 <= INR a <= m).
  { intros a Ha. split; [apply pos_INR | unfold m; now apply le_INR]. }
  split.
  - destruct (i =? n - 1)%nat; [lra|].
    destruct (Hle i ltac:(lia)) as [H0 H1]. nra.
  - intro HS. destruct (Nat.eqb_spec i (n - 1)) as [E | _]; [lia|].
    destruct (Hle i ltac:(lia)) as [H0 H1].
    destruct (Nat.eqb_spec (S i) (n - 1)) as [E | _].
    + nra.
    + rewrite S_INR. nra.
Qed.

Lemma non_decreasing_map_seq (h : nat -> R) (s n : nat) :
  (forall i, (s <= i)%nat -> (S i < s + n)%nat -> h i <= h (S i)) ->
  non_decreasing (map h (seq s n)).
Proof.
  revert s. induction n as [|n IH]; intros s H; [exact I|].
  destruct n as [|n]; [exact I|].
  cbn [seq map non_decreasing]. split.
  - apply H; lia.
  - apply (IH (S s)). intros i Hi1 Hi2. apply H; lia.
Qed.

End LinspaceProps.

(** ** GradientData.calculate_optimal_lam_vals *)

Section OptimalLamVals.
Import ProcessGrads.
Local Open Scope R_scope.

Section Shape.

Variable self : GradientData.
Variables er_type sem_origin : string.
Variable smoothen_sems : bool.
Variable y : list R.
Hypothesis er_type_valid : Np.str_in er_type ["sem"; "root_var"] = true.
Hypothesis origin_valid : Np.str_in sem_origin ["inter"; "intra"] = true.
Hypothesis lam_nonempty : lam_vals self <> [].
Hypothesis lam_increasing : strictly_increasing (lam_vals self).
Hypothesis errors : y_vals self er_type sem_origin smoothen_sems = Ok y.
Hypothesis errors_length : length y = length (lam_vals self).
Hypothesis errors_positive : Forall (fun v => 0 < v) y.

Local Abbreviation nwin := (length (lam_vals self)).
Local Abbreviation ie := (integrated_errors y (lam_vals self)).

Lemma n_positive : (0 < nwin)%nat.
Proof. destruct (lam_vals self); [contradiction | cbn; lia]. Qed.

Lemma ie_computed :
  get_integrated_error self er_type sem_origin smoothen_sems = Ok ie.
Proof. now apply integrated_error_closed. Qed.

Lemma ie_length : length ie = nwin.
Proof. unfold integrated_errors. now rewrite length_map, length_seq. Qed.

Lemma ie_nonempty : ie <> [].
Proof.
  pose proof n_positive. pose proof ie_length.
  destruct ie; [cbn in *; lia | discriminate].
Qed.

Lemma ie_nth (i : nat) :
  (i < nwin)%nat -> nth i ie 0 = prefix_integral y (lam_vals self) i.
Proof. intro Hi. unfold integrated_errors. now apply nth_map_seq. Qed.

Lemma ie_increasing : increasing_nth ie.
Proof.
  intros i Hi. rewrite ie_length in Hi.
  rewrite !ie_nth by lia. apply prefix_integral_step; auto.
Qed.

Lemma ie_first : hd 0 ie = 0.
Proof.
  rewrite hd_nth, ie_nth by apply n_positive. apply prefix_integral_0.
Qed.

Lemma total_nonneg : 0 <= last ie 0.
Proof.
  pose proof n_positive as Hn. pose proof ie_length as Hl.
  assert (H : nth 0 ie 0 <= nth (length ie - 1) ie 0)
    by (apply increasing_nth_le; [apply ie_increasing | lia | lia]).
  rewrite <- hd_nth, ie_first in H. now rewrite last_nth_pred.
Qed.

Local Abbreviation pick := (pick_lam ie (lam_vals self)).

Lemma pick_computed (requested_sem : R) :
  0 <= requested_sem <= last ie 0 ->
  (optimal_lam_val <- Np.interp requested_sem ie (lam_vals self) ;;
   Ok (Np.round optimal_lam_val 3)) = Ok (pick requested_sem).
Proof.
  intros [Hlo Hhi].
  rewrite interp_in_range; [reflexivity | apply ie_nonempty | apply ie_length | | exact Hhi].
  now rewrite ie_first.
Qed.

Lemma pick_monotone (a b : R) : 0 <= a -> a <= b -> pick a <= pick b.
Proof.
  intros Ha Hab. unfold pick_lam. apply round_monotone.
  apply segment_monotone.
  - apply ie_length.
  - apply ie_increasing.
  - now apply strictly_increasing_nth.
  - now rewrite ie_first.
  - exact Hab.
Qed.

Lemma pick_first : pick 0 = Np.round (hd 0 (lam_vals self)) 3.
Proof.
  unfold pick_lam. pose proof (segment_first ie (lam_vals self) ie_nonempty ie_length ie_increasing) as H.
  rewrite ie_first in H. now rewrite H.
Qed.

Lemma pick_last : pick (last ie 0) = Np.round (last (lam_vals self) 0) 3.
Proof.
  unfold pick_lam.
  rewrite segment_last; [reflexivity | apply ie_length | apply ie_increasing].
Qed.

Lemma optimal_lam_vals_computed (k : Z) :
  (0 <= k)%Z ->
  calculate_optimal_lam_vals self er_type None (Some k) sem_origin smoothen_sems
  = Ok (map (fun i => pick (linspace_val 0 (last ie 0) (Z.to_nat k) i))
            (seq 0 (Z.to_nat k))).
Proof.
  intro Hk. unfold calculate_optimal_lam_vals.
  rewrite ie_computed. cbn [bind].
  rewrite (getitem_last ie 0 ie_nonempty). cbn [bind].
  rewrite linspace_ok by exact Hk. cbn [bind].
  rewrite (mapM_ok _ pick).
  - now rewrite map_map.
  - intros r Hr. apply in_map_iff in Hr. destruct Hr as [i [<- Hi]].
    apply in_seq in Hi. apply pick_computed.
    apply linspace_val_inner; [apply total_nonneg | lia].
Qed.

Lemma optimal_lam_vals_shape (k : Z) :
  (1 <= k)%Z ->
  exists vals,
    calculate_optimal_lam_vals self er_type None (Some k) sem_origin smoothen_sems = Ok vals
    /\ Z.of_nat (length vals) = k
    /\ non_decreasing vals
    /\ hd 0 vals = Np.round (hd 0 (lam_vals self)) 3
    /\ ((2 <= k)%Z -> last vals 0 = Np.round (last (lam_vals self) 0) 3).
Proof.
  intro Hk. eexists. split; [apply optimal_lam_vals_computed; lia|].
  set (K := Z.to_nat k). assert (HK : (1 <= K)%nat) by (unfold K; lia).
  split; [rewrite length_map, length_seq; unfold K; lia|].
  split; [|split].
  - apply non_decreasing_map_seq. intros i _ Hi.
    destruct (linspace_val_inner (last ie 0) K i total_nonneg ltac:(lia)) as [[H0 _] Hstep].
    apply pick_monotone; [exact H0 | apply Hstep; lia].
  - rewrite hd_nth, nth_map_seq by lia. rewrite linspace_val_first. apply pick_first.
  - intro H2. rewrite last_nth_pred, length_map, length_seq.
    rewrite nth_map_seq by lia.
    rewrite linspace_val_last by (unfold K; lia). apply pick_last.
Qed.

End Shape.

(** C5, as the code has it: on strictly increasing lambda values with a
    positive error for every window, a request for [k] values, two at
    least, returns exactly [k] values in non-decreasing order; the first
    is the first lambda value and the last is the last lambda value, both
    rounded to three decimal places. *)
Theorem optimal_lam_vals_count_order_ends :
  forall (self : GradientData) (er_type sem_origin : string) (smoothen_sems : bool)
         (y : list R) (k : Z),
    Np.str_in er_type ["sem"; "root_var"] = true ->
    Np.str_in sem_origin ["inter"; "intra"] = true ->
    lam_vals self <> [] ->
    strictly_increasing (lam_vals self) ->
    y_vals self er_type sem_origin smoothen_sems = Ok y ->
    length y = length (lam_vals self) ->
    Forall (fun v => 0 < v) y ->
    (2 <= k)%Z ->
    exists vals,
      calculate_optimal_lam_vals self er_type None (Some k) sem_origin smoothen_sems = Ok vals
      /\ Z.of_nat (length vals) = k
      /\ non_decreasing vals
      /\ hd 0 vals = Np.round (hd 0 (lam_vals self)) 3
      /\ last vals 0 = Np.round (last (lam_vals self) 0) 3.
Proof.
  intros self er_type sem_origin smoothen_sems y k Her Hor Hne Hinc Hy Hlen Hpos Hk.
  destruct (optimal_lam_vals_shape self er_type sem_origin smoothen_sems y
              Her Hor Hne Hinc Hy Hlen Hpos k ltac:(lia))
    as [vals [Hc [Hl [Hn [Hf Hlast]]]]].
  exists vals. repeat split; auto.
Qed.

End OptimalLamVals.

Section OptimalLamValsCases.
Import ProcessGrads.
Local Open Scope R_scope.

Lemma flat_root_var_positive : Forall (fun v => 0 < v) flat_root_var.
Proof. cbn. repeat constructor; apply sqrt_lt_R0; lra. Qed.

Lemma flat_lam_increasing : strictly_increasing (lam_vals flat_gradient_data).
Proof. cbn. repeat split; lra. Qed.

Lemma flat_lam_nonempty : lam_vals flat_gradient_data <> [].
Proof. discriminate. Qed.

Lemma optimal_lam_vals_count_order_ends_witness :
  Np.str_in "root_var" ["sem"; "root_var"] = true
  /\ Np.str_in "inter" ["inter"; "intra"] = true
  /\ lam_vals flat_gradient_data <> []
  /\ strictly_increasing (lam_vals flat_gradient_data)
  /\ y_vals flat_gradient_data "root_var" "inter" true = Ok flat_root_var
  /\ length flat_root_var = length (lam_vals flat_gradient_data)
  /\ Forall (fun v => 0 < v) flat_root_var
  /\ (2 <= 3)%Z
  /\ exists vals,
      calculate_optimal_lam_vals flat_gradient_data "root_var" None (Some 3%Z) "inter" true
      = Ok vals
      /\ Z.of_nat (length vals) = 3%Z
      /\ non_decreasing vals
      /\ hd 0 vals = Np.round (hd 0 (lam_vals flat_gradient_data)) 3
      /\ last vals 0 = Np.round (last (lam_vals flat_gradient_data) 0) 3.
Proof.
  assert (H1 : Np.str_in "root_var" ["sem"; "root_var"] = true) by reflexivity.
  assert (H2 : Np.str_in "inter" ["inter"; "intra"] = true) by reflexivity.
  assert (H5 : y_vals flat_gradient_data "root_var" "inter" true = Ok flat_root_var)
    by reflexivity.
  assert (H6 : length flat_root_var = length (lam_vals flat_gradient_data)) by reflexivity.
  assert (H8 : (2 <= 3)%Z) by lia.
  split; [exact H1|]. split; [exact H2|]. split; [exact flat_lam_nonempty|].
  split; [exact flat_lam_increasing|]. split; [exact H5|]. split; [exact H6|].
  split; [exact flat_root_var_positive|]. split; [exact H8|].
  exact (optimal_lam_vals_count_order_ends flat_gradient_data "root_var" "inter" true
           flat_root_var 3%Z H1 H2 flat_lam_nonempty flat_lam_increasing H5 H6
           flat_root_var_positive H8).
Defined.

(** C5, as the specification has it, fails: a request for one value
    returns the first lambda value alone, so the last value returned is
    not the last lambda value. *)
Lemma optimal_lam_vals_single_request :
  strictly_increasing (lam_vals flat_gradient_data)
  /\ last (lam_vals flat_gradient_data) 0 = 1
  /\ exists vals,
      calculate_optimal_lam_vals flat_gradient_data "root_var" None (Some 1%Z) "inter" true
      = Ok vals
      /\ length vals = 1%nat
      /\ last vals 0 = 0
      /\ last vals 0 <> Np.round (last (lam_vals flat_gradient_data) 0) 3.
Proof.
  split; [exact flat_lam_increasing|]. split; [reflexivity|].
  destruct (optimal_lam_vals_shape flat_gradient_data "root_var" "inter" true flat_root_var
              eq_refl eq_refl flat_lam_nonempty flat_lam_increasing eq_refl eq_refl
              flat_root_var_positive 1%Z ltac:(lia))
    as [vals [Hc [Hl [_ [Hf _]]]]].
  exists vals. split; [exact Hc|].
  assert (Hlen : length vals = 1%nat) by lia.
  destruct vals as [|v [|w vals]]; cbn in Hlen; try lia.
  cbn [hd lam_vals flat_gradient_data] in Hf. rewrite (round_integer 0 3) in Hf.
  cbn [last]. split; [reflexivity|]. split; [exact Hf|].
  rewrite Hf. cbn [lam_vals flat_gradient_data last].
  rewrite (round_integer 1 3). lra.
Qed.


(** With [delta_er] alone the call goes on as for the number of values
    derived from it, and raises what the derivation raises. *)
Lemma optimal_lam_vals_derived (self : GradientData) (er_type sem_origin : string)
    (smoothen_sems : bool) (delta_er : R) (ie : list R) :
  get_integrated_error self er_type sem_origin smoothen_sems = Ok ie ->
  ie <> [] ->
  match derive_n_lam_vals (last ie 0) delta_er with
  | Ok n =>
    calculate_optimal_lam_vals self er_type (Some delta_er) None sem_origin smoothen_sems
    = calculate_optimal_lam_vals self er_type None (Some n) sem_origin smoothen_sems
  | Raise e =>
    calculate_optimal_lam_vals self er_type (Some delta_er) None sem_origin smoothen_sems
    = Raise e
  end.
Proof.
  intros Hie Hne. unfold calculate_optimal_lam_vals. rewrite Hie. cbn [bind].
  rewrite (getitem_last ie 0 Hne). cbn [bind].
  destruct (derive_n_lam_vals (last ie 0) delta_er); reflexivity.
Qed.




(** The quotient is the double quotient: with a total integrated error of
    0.3 and a [delta_er] of 0.1 it is [2.9999999999999996], and the call
    returns three values, where the quotient of the two real numbers
    would ask for four. *)
Lemma optimal_lam_vals_double_quotient :
  last (integrated_errors [1; 1] (lam_vals short_gradient_data)) 0 = 0.3
  /\ derive_n_lam_vals 0.3 0.1 = Ok 3%Z
  /\ Z.add (Zfloor (0.3 / 0.1)) 1 = 4%Z
  /\ exists vals,
      calculate_optimal_lam_vals short_gradient_data "root_var" (Some 0.1) None "inter" true
      = Ok vals
      /\ length vals = 3%nat.
Proof.
  assert (Htot : last (integrated_errors [1; 1] (lam_vals short_gradient_data)) 0 = 0.3).
  { unfold integrated_errors.
    cbv -[Rplus Rminus Rmult Rdiv Rinv Ropp Rlt sqrt IZR]. lra. }
  assert (Hy : y_vals short_gradient_data "root_var" "inter" true = Ok [1; 1]).
  { cbn. now rewrite sqrt_1. }
  assert (Hpos : Forall (fun v => 0 < v) [1; 1]) by (repeat constructor; lra).
  assert (Hinc : strictly_increasing (lam_vals short_gradient_data)) by (cbn; lra).
  assert (Hne : lam_vals short_gradient_data <> []) by discriminate.
  assert (Her : Np.str_in "root_var" ["sem"; "root_var"] = true) by reflexivity.
  assert (Hor : Np.str_in "inter" ["inter"; "intra"] = true) by reflexivity.
  assert (Hlen : length [1; 1] = length (lam_vals short_gradient_data)) by reflexivity.
  assert (Hn : derive_n_lam_vals 0.3 0.1 = Ok 3%Z).
  { unfold derive_n_lam_vals. cbv zeta. rewrite quotient_03_01.
    destruct (Req_dec_T (Float64.float 0.1) 0) as [E | _].
    - rewrite float_01 in E. exfalso. revert E. double_bounds.
    - f_equal. rewrite int_is_floor by double_bounds.
      rewrite (Zfloor_eq 2); [reflexivity|]. double_bounds. }
  split; [exact Htot|]. split; [exact Hn|]. split.
  - rewrite (Zfloor_eq 3 (0.3 / 0.1)); [reflexivity|]. cbn. lra.
  - pose proof (ie_computed short_gradient_data "root_var" "inter" true [1; 1]) as Hie.
    given Hie.
    pose proof (ie_nonempty short_gradient_data [1; 1]) as Hnil. given Hnil.
    pose proof (optimal_lam_vals_derived short_gradient_data "root_var" "inter" true 0.1
                  _ Hie Hnil) as Hder.
    rewrite Htot, Hn in Hder.
    destruct (optimal_lam_vals_shape short_gradient_data "root_var" "inter" true [1; 1]
                Her Hor Hne Hinc Hy Hlen Hpos 3%Z ltac:(lia))
      as [vals [Hc [Hl _]]].
    exists vals. rewrite Hder. split; [exact Hc | lia].
Qed.

(** Without a positive error the first value can miss the first lambda
    value: when the integrated error is zero at every window, [np.interp]
    finds the requested error 0 at the last sample point, and every value
    returned is the last lambda value. *)
Lemma interp_on_zero_errors : Np.interp 0 [0; 0; 0] [0; 0.5; 1] = Ok 1.
Proof.
  unfold Np.interp. cbn [length Nat.eqb negb last hd tl].
  destruct (Rlt_dec 0 0) as [H | _]; [lra|].
  cbn [Np.search].
  destruct (Rle_dec 0 0) as [_ | H]; [|lra].
  reflexivity.
Qed.

Lemma optimal_lam_vals_zero_errors :
  strictly_increasing (lam_vals single_repeat_gradient_data)
  /\ calculate_optimal_lam_vals single_repeat_gradient_data "sem" None (Some 2%Z)
       "inter" false = Ok [1; 1].
Proof.
  split; [cbn; repeat split; lra|].
  assert (Hie : get_integrated_error single_repeat_gradient_data "sem" "inter" false
                = Ok [0; 0; 0]).
  { cbv -[Rplus Rminus Rmult Rdiv Rinv Ropp Rlt sqrt IZR].
    f_equal. rows_eq; lra. }
  unfold calculate_optimal_lam_vals. rewrite Hie. cbn [bind].
  rewrite (getitem_last [0; 0; 0] 0) by discriminate. cbn [bind last].
  rewrite linspace_ok by lia.
  change (Z.to_nat 2) with 2%nat. cbn [bind seq map].
  rewrite linspace_val_first.
  change (linspace_val 0 0 2 1) with (linspace_val 0 0 2 (2 - 1)).
  rewrite (linspace_val_last 0 0 2) by lia.
  cbn [mapM lam_vals single_repeat_gradient_data].
  rewrite interp_on_zero_errors. cbn [bind].
  now rewrite (round_integer 1 3).
Qed.

End OptimalLamValsCases.

(** * Further properties *)

(** ** The polls of the run loops *)

Section PollProps.
Import Stage.

Variable kill_requested : nat -> bool.
Variable win_running : nat -> nat -> bool.

Lemma remove_first_incl (w : nat) (l : list nat) : incl (remove_first w l) l.
Proof.
  induction l as [|y l IH]; cbn; [apply incl_refl|].
  destruct (w =? y); [apply incl_tl, incl_refl|].
  intros x [-> | Hx]; [now left | right; now apply IH].
Qed.

Lemma remove_first_keeps (w x : nat) (l : list nat) :
  In x l -> x <> w -> In x (remove_first w l).
Proof.
  induction l as [|y l IH]; intros Hin Hne; [destruct Hin|].
  cbn. destruct (Nat.eqb_spec w y) as [-> | Hwy].
  - destruct Hin as [-> | Hin]; [contradiction | exact Hin].
  - destruct Hin as [-> | Hin]; [now left | right; now apply IH].
Qed.

Lemma poll_scan_incl (fuel p k : nat) (rw : list nat) :
  incl (poll_scan win_running fuel p k rw) rw.
Proof.
  revert k rw. induction fuel as [|fuel IH]; intros k rw; cbn; [apply incl_refl|].
  destruct (nth_error rw k) as [w|]; [|apply incl_refl].
  destruct (win_running p w); [apply IH|].
  eapply incl_tran; [apply IH | apply remove_first_incl].
Qed.

Lemma poll_scan_keeps_running (fuel p k : nat) (rw : list nat) :
  incl (filter (win_running p) rw) (poll_scan win_running fuel p k rw).
Proof.
  revert k rw. induction fuel as [|fuel IH]; intros k rw; cbn.
  - intros x Hx. apply filter_In in Hx. tauto.
  - destruct (nth_error rw k) as [w|] eqn:Hk.
    + destruct (win_running p w) eqn:Hw; [apply IH|].
      intros x Hx. apply IH. apply filter_In in Hx. destruct Hx as [Hin Hrun].
      apply filter_In. split; [|exact Hrun].
      apply remove_first_keeps; [exact Hin | congruence].
    + intros x Hx. apply filter_In in Hx. tauto.
Qed.

(** X1: One poll of a run loop takes windows out of [running_wins] and adds
    none, and every window whose simulations are still running stays. *)
Theorem poll_removes_only_stopped_windows :
  forall (fuel p k : nat) (rw : list nat),
    incl (poll_scan win_running fuel p k rw) rw
    /\ incl (filter (win_running p) rw) (poll_scan win_running fuel p k rw).
Proof.
  intros fuel p k rw. split; [apply poll_scan_incl | apply poll_scan_keeps_running].
Qed.

Lemma remove_first_middle (w : nat) (kept rest : list nat) :
  ~ In w kept -> remove_first w (kept ++ w :: rest) = kept ++ rest.
Proof.
  induction kept as [|y kept IH]; intro Hnot; cbn.
  - now rewrite Nat.eqb_refl.
  - destruct (Nat.eqb_spec w y) as [-> | Hne]; [exfalso; apply Hnot; now left|].
    f_equal. apply IH. intro H. apply Hnot. now right.
Qed.

Lemma poll_scan_stopped (p fuel : nat) (kept rest : list nat) :
  NoDup (kept ++ rest) ->
  (forall w, In w rest -> win_running p w = false) ->
  length rest <= fuel ->
  poll_scan win_running fuel p (length kept) (kept ++ rest) = kept ++ skipped rest.
Proof.
  revert kept rest. induction fuel as [|fuel IH]; intros kept rest Hnd Hstop Hfuel.
  - destruct rest; [reflexivity | cbn in Hfuel; lia].
  - cbn [poll_scan]. destruct rest as [|w rest].
    + rewrite app_nil_r. cbn [skipped].
      rewrite (proj2 (nth_error_None kept (length kept))) by lia.
      now rewrite app_nil_r.
    + rewrite nth_error_app2, Nat.sub_diag by lia. cbn [nth_error].
      rewrite (Hstop w (or_introl eq_refl)).
      assert (Hnot : ~ In w kept).
      { intro Hin. apply NoDup_remove_2 in Hnd. apply Hnd.
        apply in_or_app. now left. }
      rewrite remove_first_middle by exact Hnot.
      apply NoDup_remove_1 in Hnd.
      destruct rest as [|b rest].
      * cbn [skipped]. rewrite app_nil_r.
        destruct fuel as [|fuel']; [reflexivity|]. cbn [poll_scan].
        now rewrite (proj2 (nth_error_None kept (S (length kept)))) by lia.
      * cbn [skipped].
        replace (kept ++ b :: rest) with ((kept ++ [b]) ++ rest)
          by (now rewrite <- app_assoc).
        replace (S (length kept)) with (length (kept ++ [b]))
          by (rewrite length_app; cbn; lia).
        rewrite IH.
        -- now rewrite <- app_assoc.
        -- now rewrite <- app_assoc.
        -- intros x Hx. apply Hstop. right. now right.
        -- cbn in Hfuel. lia.
Qed.

Lemma pairs_ind (P : list nat -> Prop) :
  P [] -> (forall a, P [a]) -> (forall a b r, P r -> P (a :: b :: r)) ->
  forall l, P l.
Proof.
  intros H0 H1 H2 l.
  assert (H : P l /\ forall a, P (a :: l)).
  { induction l as [|b l [IHl IHc]]; [split; auto|].
    split; [apply IHc|]. intro a. now apply H2. }
  apply H.
Qed.


(** The windows stepped over are those at the positions 1, 3, 5, ... *)
Lemma skipped_nth_error (l : list nat) (i : nat) :
  nth_error (skipped l) i = nth_error l (2 * i + 1).
Proof.
  revert i. induction l as [| a | a b r IH] using pairs_ind; intro i.
  - cbn [skipped]. now rewrite !nth_error_nil.
  - cbn [skipped]. replace (2 * i + 1) with (S (2 * i)) by lia.
    cbn [nth_error]. now rewrite !nth_error_nil.
  - cbn [skipped]. destruct i as [|i]; [reflexivity|].
    replace (2 * S i + 1) with (S (S (2 * i + 1))) by lia.
    cbn [nth_error]. apply IH.
Qed.

Lemma skipped_half (l : list nat) : length (skipped l) = Nat.div2 (length l).
Proof. induction l using pairs_ind; cbn in *; auto. Qed.

(** X2: When every window of [running_wins] has stopped, one pass of the
    poll removes the windows at the positions 0, 2, 4, ... only: the loop
    removes the window it looks at and so steps over the next one.  The
    windows at the positions 1, 3, 5, ... stay for a later poll, half of
    the windows rounded down: none of a single window, one of two or
    three. *)
Theorem poll_steps_over_every_second_window :
  forall (p : nat) (rw : list nat),
    NoDup rw ->
    (forall w, In w rw -> win_running p w = false) ->
    poll_scan win_running (length rw) p 0 rw = skipped rw
    /\ (forall i, nth_error (poll_scan win_running (length rw) p 0 rw) i
                  = nth_error rw (2 * i + 1))
    /\ length (poll_scan win_running (length rw) p 0 rw) = Nat.div2 (length rw).
Proof.
  intros p rw Hnd Hstop.
  pose proof (poll_scan_stopped p (length rw) [] rw Hnd Hstop (le_n _)) as H.
  cbn [app length] in H. rewrite H.
  split; [reflexivity|]. split; [apply skipped_nth_error | apply skipped_half].
Qed.








Section RunProps.

Variable new_GradientData : list LamWindow -> bool -> result ProcessGrads.GradientData.
Variable win_run : LamWindow -> R -> result LamWindow.



End RunProps.

End PollProps.

Lemma poll_steps_over_every_second_window_witness :
  NoDup [0; 1; 2]
  /\ (forall w, In w [0; 1; 2] -> (fun _ _ : nat => false) 0 w = false)
  /\ Stage.poll_scan (fun _ _ => false) 3 0 0 [0; 1; 2] = [1]
  /\ (forall i, nth_error (Stage.poll_scan (fun _ _ => false) 3 0 0 [0; 1; 2]) i
                = nth_error [0; 1; 2] (2 * i + 1))
  /\ length (Stage.poll_scan (fun _ _ => false) 3 0 0 [0; 1; 2]) = 1.
Proof.
  assert (H1 : NoDup [0; 1; 2]).
  { repeat constructor; cbn; intuition lia. }
  assert (H2 : forall w, In w [0; 1; 2] -> (fun _ _ : nat => false) 0 w = false)
    by reflexivity.
  split; [exact H1 | split; [exact H2 |]].
  exact (poll_steps_over_every_second_window (fun _ _ => false) 0 [0; 1; 2] H1 H2).
Defined.



(** ** Stage: the extraction of the equilibrated region, further *)

Section ExtractionFrame.
Import Stage.

Lemma header_and_rows (lines : list string) :
  header_of lines ++ data_rows_of lines = lines.
Proof.
  induction lines as [|line rest IH]; [reflexivity|].
  cbn. destruct (Fs.startswith line "#"); cbn; [now rewrite IH | reflexivity].
Qed.

(** X6: For an index that is not negative, [_write_equilibrated_data] writes
    to [out_simfile] the header of the input followed by its data rows
    from [equil_index] on, and changes no other file. *)
Theorem write_equilibrated_data_from_index :
  forall (fs : Fs.files) (in_simfile out_simfile : string) (equil_index : Z)
         (lines : list string),
    Fs.readlines fs in_simfile = Ok lines ->
    (0 <= equil_index)%Z ->
    exists fs',
      _write_equilibrated_data fs in_simfile out_simfile equil_index = Ok fs'
      /\ fs' out_simfile
         = Some (header_of lines ++ skipn (Z.to_nat equil_index) (data_rows_of lines))
      /\ forall path, path <> out_simfile -> fs' path = fs path.
Proof.
  intros fs i o idx lines Hread Hidx. unfold _write_equilibrated_data.
  rewrite Hread. cbn [bind]. eexists. split; [reflexivity|]. split.
  - unfold Fs.write. rewrite String.eqb_refl.
    now rewrite equilibrated_lines_from_index.
  - intros path Hpath. unfold Fs.write.
    destruct (String.eqb path o) eqn:E; [|reflexivity].
    apply String.eqb_eq in E. contradiction.
Qed.

(** The two ends of the range of indices: index 0 copies the input, and
    an index at or past the number of data rows leaves the header alone. *)
Lemma equilibrated_lines_ends :
  forall (lines : list string) (past : nat),
    equilibrated_lines lines 0 = lines
    /\ equilibrated_lines lines (Z.of_nat (length (data_rows_of lines) + past))
       = header_of lines.
Proof.
  intros lines past. split.
  - rewrite equilibrated_lines_from_index by lia. cbn [Z.to_nat skipn].
    apply header_and_rows.
  - rewrite equilibrated_lines_from_index by lia.
    rewrite skipn_all2 by lia. apply app_nil_r.
Qed.

Lemma rev_tail_differs (a b : list ascii) (s t : list ascii) (n : nat) :
  nth_error (rev s) n <> nth_error (rev t) n ->
  n < length s -> n < length t ->
  a ++ s <> b ++ t.
Proof.
  intros Hdiff Hs Ht Heq. apply (f_equal (@rev ascii)) in Heq.
  rewrite !rev_app_distr in Heq.
  apply (f_equal (fun l => nth_error l n)) in Heq.
  rewrite !nth_error_app1 in Heq by (rewrite length_rev; lia).
  contradiction.
Qed.

Lemma list_ascii_of_string_app (a b : string) :
  list_ascii_of_string (a ++ b) = (list_ascii_of_string a ++ list_ascii_of_string b)%list.
Proof. induction a as [|c a IH]; cbn; [reflexivity | now rewrite IH]. Qed.

Lemma simfile_is_not_equilibrated (a b : string) :
  (a ++ "/simfile.dat")%string <> (b ++ "/simfile_equilibrated.dat")%string.
Proof.
  intro H. apply (f_equal list_ascii_of_string) in H.
  rewrite !list_ascii_of_string_app in H. revert H.
  apply (rev_tail_differs _ _ _ _ 4); cbn; [discriminate | lia | lia].
Qed.

Section Truncate.

Lemma write_all_frame (sims : list Simulation.t) (idx : Z) (w : world) :
  let out := forM_ sims (fun sim =>
      on_files (fun fs =>
        _write_equilibrated_data fs
          (Simulation.output_dir sim ++ "/simfile.dat")%string
          (Simulation.output_dir sim ++ "/simfile_equilibrated.dat")%string
          idx)) w in
  events (fst out) = events w
  /\ forall path,
       (forall sim, In sim sims ->
          path <> (Simulation.output_dir sim ++ "/simfile_equilibrated.dat")%string) ->
       fs (fst out) path = fs w path.
Proof.
  cbv zeta.
  set (f := fun sim : Simulation.t =>
      on_files (fun fs =>
        _write_equilibrated_data fs
          (Simulation.output_dir sim ++ "/simfile.dat")%string
          (Simulation.output_dir sim ++ "/simfile_equilibrated.dat")%string
          idx)).
  revert w. induction sims as [|sim sims IH]; intro w.
  - cbn. auto.
  - assert (Hstep :
      forM_ (sim :: sims) f w
      = match Fs.readlines (fs w) (Simulation.output_dir sim ++ "/simfile.dat") with
        | Ok lines =>
          forM_ sims f
            {| fs := Fs.write (fs w)
                       (Simulation.output_dir sim ++ "/simfile_equilibrated.dat")
                       (equilibrated_lines lines idx);
               events := events w |}
        | Raise e => (w, Raise e)
        end).
    { cbn [forM_]. unfold bindM at 1. unfold f at 1. unfold on_files.
      unfold _write_equilibrated_data.
      destruct (Fs.readlines (fs w) (Simulation.output_dir sim ++ "/simfile.dat"));
        reflexivity. }
    rewrite Hstep.
    destruct (Fs.readlines (fs w) (Simulation.output_dir sim ++ "/simfile.dat"))
      as [lines|e].
    + match goal with |- context [forM_ sims f ?w0] => specialize (IH w0) end.
      destruct IH as [Hev Hfs]. split; [exact Hev|].
      intros path Hpath.
      etransitivity; [apply Hfs; intros s Hs; apply Hpath; now right|].
      cbn [fs]. unfold Fs.write.
      destruct (String.eqb path _) eqn:E; [|reflexivity].
      apply String.eqb_eq in E. exfalso. apply (Hpath sim); [now left | exact E].
    + cbn. auto.
Qed.

(** X7: The removal of the unequilibrated data of a window, whether it runs
    to its end or raises on the way, records nothing, writes to no file
    other than the [simfile_equilibrated.dat] of the simulations of the
    window, and so leaves every [simfile.dat] as it was. *)
Theorem truncate_window_writes_equilibrated_files_only :
  forall (win : LamWindow) (w : world),
    events (fst (truncate_window win w)) = events w
    /\ (forall path,
          (forall sim, In sim (sims win) ->
             path <> (Simulation.output_dir sim ++ "/simfile_equilibrated.dat")%string) ->
          fs (fst (truncate_window win w)) path = fs w path)
    /\ (forall dir,
          fs (fst (truncate_window win w)) (dir ++ "/simfile.dat")%string
          = fs w (dir ++ "/simfile.dat")%string).
Proof.
  intros win w.
  assert (H : events (fst (truncate_window win w)) = events w
              /\ forall path,
                   (forall sim, In sim (sims win) ->
                      path <> (Simulation.output_dir sim ++ "/simfile_equilibrated.dat")%string) ->
                   fs (fst (truncate_window win w)) path = fs w path).
  { unfold truncate_window. destruct (equil_time win) as [time|]; [|cbn; auto].
    unfold bindM, lift.
    destruct (Py.getitem (sims win) 0) as [sim0|e]; [|cbn; auto].
    destruct (equil_index time (Simulation.timestep sim0) (Simulation.nrg_freq sim0))
      as [idx|e]; [|cbn; auto].
    exact (write_all_frame (sims win) idx w). }
  destruct H as [Hev Hfs]. split; [exact Hev|]. split; [exact Hfs|].
  intro dir. apply Hfs. intros sim _. apply simfile_is_not_equilibrated.
Qed.

End Truncate.

End ExtractionFrame.

Lemma write_equilibrated_data_from_index_witness :
  Fs.readlines example_files "output/simfile.dat" = Ok example_simfile
  /\ (0 <= 1)%Z
  /\ exists fs',
      Stage._write_equilibrated_data example_files "output/simfile.dat"
        "output/simfile_equilibrated.dat" 1 = Ok fs'
      /\ fs' "output/simfile_equilibrated.dat"
         = Some (Stage.header_of example_simfile
                 ++ skipn 1 (Stage.data_rows_of example_simfile))
      /\ forall path, path <> "output/simfile_equilibrated.dat" ->
                      fs' path = example_files path.
Proof.
  assert (H1 : Fs.readlines example_files "output/simfile.dat" = Ok example_simfile)
    by reflexivity.
  assert (H2 : (0 <= 1)%Z) by lia.
  split; [exact H1 | split; [exact H2 |]].
  exact (write_equilibrated_data_from_index example_files "output/simfile.dat"
           "output/simfile_equilibrated.dat" 1 example_simfile H1 H2).
Defined.

Lemma truncate_window_writes_equilibrated_files_only_witness :
  (forall sim, In sim (Stage.sims equilibrated_window) ->
     "output/simfile.dat"
     <> (Simulation.output_dir sim ++ "/simfile_equilibrated.dat")%string)
  /\ Stage.fs (fst (Stage.truncate_window equilibrated_window example_stage_world))
       "output/simfile.dat"
     = Stage.fs example_stage_world "output/simfile.dat".
Proof.
  assert (H : forall sim, In sim (Stage.sims equilibrated_window) ->
     "output/simfile.dat"
     <> (Simulation.output_dir sim ++ "/simfile_equilibrated.dat")%string).
  { intros sim [<- | []]. discriminate. }
  split; [exact H|].
  exact (proj1 (proj2 (truncate_window_writes_equilibrated_files_only
                         equilibrated_window example_stage_world))
               "output/simfile.dat" H).
Defined.

(** ** Stage.lam_val_weights, further *)

Section WeightsSign.
Import Stage.
Local Open Scope R_scope.

Lemma weight_at_positive (l : list R) (i : nat) :
  (2 <= length l)%nat -> strictly_increasing l -> (i < length l)%nat ->
  0 < weight_at l i.
Proof.
  intros Hlen Hinc Hi. unfold weight_at.
  destruct (i =? 0)%nat eqn:E0.
  - pose proof (strictly_increasing_step l 0 Hinc ltac:(lia)). lra.
  - apply Nat.eqb_neq in E0. destruct (i =? length l - 1)%nat eqn:E1.
    + pose proof (strictly_increasing_step l (i - 1) Hinc ltac:(lia)) as H.
      replace (S (i - 1)) with i in H by lia. lra.
    + apply Nat.eqb_neq in E1.
      pose proof (strictly_increasing_step l (i - 1) Hinc ltac:(lia)) as H.
      replace (S (i - 1)) with i in H by lia.
      pose proof (strictly_increasing_step l i Hinc ltac:(lia)) as H'.
      replace (i + 1)%nat with (S i) by lia. lra.
Qed.

(** X8: For strictly increasing lambda values, two at least, there is one
    weight for each lambda value and every weight is positive. *)
Theorem lam_val_weights_positive :
  forall lam_vals : list R,
    (2 <= length lam_vals)%nat ->
    strictly_increasing lam_vals ->
    exists weights,
      lam_val_weights lam_vals = Ok weights
      /\ length weights = length lam_vals
      /\ Forall (fun v => 0 < v) weights.
Proof.
  intros l Hlen Hinc. exists (map (weight_at l) (seq 0 (length l))).
  split; [now apply lam_val_weights_ok|]. split.
  - now rewrite length_map, length_seq.
  - apply Forall_forall. intros v Hv. apply in_map_iff in Hv.
    destruct Hv as [i [<- Hi]]. apply in_seq in Hi.
    apply weight_at_positive; [exact Hlen | exact Hinc | lia].
Qed.

End WeightsSign.

Lemma lam_val_weights_positive_witness :
  (2 <= length example_lam_vals)%nat
  /\ strictly_increasing example_lam_vals
  /\ exists weights,
      Stage.lam_val_weights example_lam_vals = Ok weights
      /\ length weights = length example_lam_vals
      /\ Forall (fun v => (0 < v)%R) weights.
Proof.
  assert (H1 : (2 <= length example_lam_vals)%nat) by (cbn; lia).
  assert (H2 : strictly_increasing example_lam_vals) by (cbn; repeat split; lra).
  split; [exact H1 | split; [exact H2 |]].
  exact (lam_val_weights_positive example_lam_vals H1 H2).
Defined.

(** ** Stage._get_lam_vals *)

Section LamValsProps.
Import Stage.

Variable float_of_string : string -> result Q.

Lemma startswith_app (p rest : string) : Fs.startswith (p ++ rest) p = true.
Proof.
  unfold Fs.startswith. induction p as [|c p IH]; cbn.
  - now destruct rest.
  - destruct (ascii_dec c c) as [_|N]; [exact IH | contradiction].
Qed.

Lemma startswith_split (line p : string) :
  Fs.startswith line p = true -> exists rest, line = (p ++ rest)%string.
Proof.
  unfold Fs.startswith. revert line. induction p as [|c p IH]; intros line H.
  - now exists line.
  - destruct line as [|d line]; [discriminate|]. cbn in H.
    destruct (ascii_dec c d) as [->|N]; [|discriminate].
    destruct (IH line H) as [rest ->]. now exists rest.
Qed.

Lemma lam_vals_str_without_line (lines : list string) :
  (forall line, In line lines -> Fs.startswith line "lambda array =" = false) ->
  lam_vals_str lines = Ok [].
Proof.
  induction lines as [|line rest IH]; intro H; [reflexivity|].
  cbn [lam_vals_str]. rewrite (H line) by now left.
  apply IH. intros l Hl. apply H. now right.
Qed.

Lemma lam_vals_str_first_line (pre post : list string) (line : string) :
  (forall l, In l pre -> Fs.startswith l "lambda array =" = false) ->
  Fs.startswith line "lambda array =" = true ->
  lam_vals_str (pre ++ line :: post) = lam_vals_str [line].
Proof.
  intros Hpre Hline. induction pre as [|l pre IH].
  - cbn [app lam_vals_str]. now rewrite Hline.
  - cbn [app lam_vals_str]. rewrite (Hpre l) by now left.
    apply IH. intros l' Hl'. apply Hpre. now right.
Qed.

Lemma append_assoc (a b c : string) : ((a ++ b) ++ c = a ++ (b ++ c))%string.
Proof. induction a as [|x a IH]; cbn; [reflexivity | now rewrite IH]. Qed.

Lemma append_nil_r (a : string) : (a ++ "")%string = a.
Proof. induction a as [|x a IH]; cbn; [reflexivity | now rewrite IH]. Qed.

Lemma contains_app (c : ascii) (a b : string) :
  Str.contains c (a ++ b) = Str.contains c a || Str.contains c b.
Proof.
  induction a as [|x a IH]; cbn; [reflexivity|].
  now rewrite IH, orb_assoc.
Qed.

(** A text without the separator is one piece. *)
Lemma split_on_from_whole (sep : ascii) (s cur : string) :
  Str.contains sep s = false ->
  Str.split_on_from sep s cur = [(cur ++ s)%string].
Proof.
  revert cur. induction s as [|c s IH]; intros cur H; cbn.
  - now rewrite append_nil_r.
  - cbn in H. apply orb_false_iff in H. destruct H as [Hc Hs].
    rewrite Hc, (IH _ Hs), append_assoc. reflexivity.
Qed.

(** A piece ends at the first separator. *)
Lemma split_on_from_first (sep : ascii) (a b cur : string) :
  Str.contains sep a = false ->
  Str.split_on_from sep (a ++ String sep b) cur
  = (cur ++ a)%string :: Str.split_on_from sep b EmptyString.
Proof.
  revert cur. induction a as [|c a IH]; intros cur H; cbn.
  - now rewrite Ascii.eqb_refl, append_nil_r.
  - cbn in H. apply orb_false_iff in H. destruct H as [Hc Ha].
    rewrite Hc, (IH _ Ha), append_assoc. reflexivity.
Qed.

(** Splitting at the separator undoes the joining of pieces that do not
    hold it. *)
Lemma split_on_join (sep : ascii) (pieces : list string) :
  pieces <> [] ->
  (forall piece, In piece pieces -> Str.contains sep piece = false) ->
  Str.split_on sep (Str.join (String sep EmptyString) pieces) = pieces.
Proof.
  unfold Str.split_on. induction pieces as [|piece rest IH]; intros Hne Hall; [contradiction|].
  destruct rest as [|next rest].
  - cbn [Str.join]. rewrite split_on_from_whole by (apply Hall; now left). reflexivity.
  - change (Str.join (String sep EmptyString) (piece :: next :: rest))
      with (piece ++ String sep (Str.join (String sep EmptyString) (next :: rest)))%string.
    rewrite split_on_from_first by (apply Hall; now left).
    cbn [append]. f_equal. apply IH; [discriminate|].
    intros q Hq. apply Hall. now right.
Qed.

Lemma contains_join (c sep : ascii) (pieces : list string) :
  Ascii.eqb sep c = false ->
  (forall piece, In piece pieces -> Str.contains c piece = false) ->
  Str.contains c (Str.join (String sep EmptyString) pieces) = false.
Proof.
  intros Hsep. induction pieces as [|piece rest IH]; intro Hall; [reflexivity|].
  destruct rest as [|next rest].
  - apply Hall. now left.
  - change (Str.join (String sep EmptyString) (piece :: next :: rest))
      with (piece ++ String sep (Str.join (String sep EmptyString) (next :: rest)))%string.
    rewrite contains_app. cbn [Str.contains].
    rewrite (Hall piece) by now left. rewrite Hsep. cbn [orb].
    apply IH. intros q Hq. apply Hall. now right.
Qed.

(** The pieces of a line that gives the values after [lambda array =],
    separated by commas. *)
Lemma lam_vals_str_line (pieces : list string) :
  pieces <> [] ->
  (forall piece, In piece pieces ->
     Str.contains "," piece = false /\ Str.contains "=" piece = false) ->
  lam_vals_str [("lambda array =" ++ Str.join "," pieces)%string] = Ok pieces.
Proof.
  intros Hne Hall. cbn [lam_vals_str]. rewrite startswith_app.
  assert (Hno : Str.contains "=" (Str.join "," pieces) = false).
  { apply contains_join; [reflexivity|]. intros piece Hp. apply (Hall piece Hp). }
  assert (Hsplit : Str.split_on "," (Str.join "," pieces) = pieces).
  { apply split_on_join; [exact Hne|]. intros piece Hp. apply (Hall piece Hp). }
  set (values := Str.join "," pieces) in *.
  change ("lambda array =" ++ values)%string
    with ("lambda array " ++ String "=" values)%string.
  unfold Str.split_on at 1. rewrite split_on_from_first by reflexivity.
  rewrite (split_on_from_whole "=" values EmptyString Hno).
  change (Py.getitem [("" ++ "lambda array ")%string; ("" ++ values)%string] 1)
    with (Ok values).
  cbn [bind]. now rewrite Hsplit.
Qed.

(** X9: [_get_lam_vals] takes the lambda values from the first line of
    [somd.cfg] that starts with [lambda array =], and from no line after
    it: when that line gives texts separated by commas after the [=], the
    values returned are the floats of these texts, in their order (or the
    exception of the first text that is no float).  A configuration
    without such a line gives the empty list of lambda values, and no
    exception. *)
Theorem get_lam_vals_reads_first_line :
  forall (files : Fs.files) (input_dir : string) (lines : list string),
    files (input_dir ++ "/somd.cfg")%string = Some lines ->
    ((forall line, In line lines -> Fs.startswith line "lambda array =" = false) ->
     _get_lam_vals float_of_string files input_dir = Ok [])
    /\ (forall (pre post pieces : list string),
          lines = pre ++ ("lambda array =" ++ Str.join "," pieces)%string :: post ->
          (forall l, In l pre -> Fs.startswith l "lambda array =" = false) ->
          pieces <> [] ->
          (forall piece, In piece pieces ->
             Str.contains "," piece = false /\ Str.contains "=" piece = false) ->
          _get_lam_vals float_of_string files input_dir = mapM float_of_string pieces).
Proof.
  intros files input_dir lines Hfile. split.
  - intro Hnone. unfold _get_lam_vals, Fs.readlines. rewrite Hfile. cbn [bind].
    now rewrite lam_vals_str_without_line.
  - intros pre post pieces -> Hpre Hne Hall.
    unfold _get_lam_vals, Fs.readlines. rewrite Hfile. cbn [bind].
    rewrite lam_vals_str_first_line by (exact Hpre || apply startswith_app).
    now rewrite lam_vals_str_line.
Qed.

End LamValsProps.

Lemma get_lam_vals_reads_first_line_witness :
  lam_array_files "input/somd.cfg" = Some lam_array_cfg
  /\ lam_array_cfg
     = [hd "" lam_array_cfg]
       ++ ("lambda array =" ++ Str.join "," [" 0.0"; " 0.5"; " 1.0" ++ Fs.newline])%string
       :: skipn 2 lam_array_cfg
  /\ (forall l, In l [hd "" lam_array_cfg] -> Fs.startswith l "lambda array =" = false)
  /\ [" 0.0"; " 0.5"; (" 1.0" ++ Fs.newline)%string] <> []
  /\ (forall piece, In piece [" 0.0"; " 0.5"; (" 1.0" ++ Fs.newline)%string] ->
        Str.contains "," piece = false /\ Str.contains "=" piece = false)
  /\ Stage._get_lam_vals literal_float lam_array_files "input"
     = mapM literal_float [" 0.0"; " 0.5"; (" 1.0" ++ Fs.newline)%string]
  /\ mapM literal_float [" 0.0"; " 0.5"; (" 1.0" ++ Fs.newline)%string]
     = Ok [0; 1 # 2; 1]%Q.
Proof.
  assert (H1 : lam_array_files "input/somd.cfg" = Some lam_array_cfg) by reflexivity.
  assert (H2 : lam_array_cfg
               = [hd "" lam_array_cfg]
                 ++ ("lambda array ="
                     ++ Str.join "," [" 0.0"; " 0.5"; " 1.0" ++ Fs.newline])%string
                 :: skipn 2 lam_array_cfg)
    by reflexivity.
  assert (H3 : forall l, In l [hd "" lam_array_cfg] ->
                         Fs.startswith l "lambda array =" = false).
  { intros l [<- | []]. reflexivity. }
  assert (H4 : [" 0.0"; " 0.5"; (" 1.0" ++ Fs.newline)%string] <> []) by discriminate.
  assert (H5 : forall piece, In piece [" 0.0"; " 0.5"; (" 1.0" ++ Fs.newline)%string] ->
                 Str.contains "," piece = false /\ Str.contains "=" piece = false).
  { intros piece [<- | [<- | [<- | []]]]; split; reflexivity. }
  split; [exact H1 | split; [exact H2 | split; [exact H3 | split; [exact H4 |
    split; [exact H5 | split; [| reflexivity]]]]]].
  exact (proj2 (get_lam_vals_reads_first_line literal_float lam_array_files "input"
                  lam_array_cfg H1)
               [hd "" lam_array_cfg] (skipn 2 lam_array_cfg)
               [" 0.0"; " 0.5"; (" 1.0" ++ Fs.newline)%string] H2 H3 H4 H5).
Defined.

(** ** Simulation: the configuration, the queue and the gradients *)

Section SimulationMore.
Import Simulation.
Local Open Scope Q_scope.

Variable str_of_float : Q -> string.

Lemma ncycles_line_startswith (n : Z) :
  Fs.startswith ("ncycles = " ++ Fs.str_of_int n ++ Fs.newline) "ncycles =" = true.
Proof. reflexivity. Qed.

Lemma replace_ncycles_length (lines : list string) (n : Z) :
  length (replace_ncycles lines n) = length lines.
Proof.
  induction lines as [|line rest IH]; [reflexivity|].
  cbn [replace_ncycles]. destruct (Fs.startswith line "ncycles ="); cbn; congruence.
Qed.

Lemma replace_ncycles_first (pre post : list string) (line : string) (n : Z) :
  (forall l, In l pre -> Fs.startswith l "ncycles =" = false) ->
  Fs.startswith line "ncycles =" = true ->
  replace_ncycles (pre ++ line :: post) n
  = (pre ++ ("ncycles = " ++ Fs.str_of_int n ++ Fs.newline)%string :: post)%list.
Proof.
  intros Hpre Hline. induction pre as [|l pre IH]; cbn [app replace_ncycles].
  - now rewrite Hline.
  - rewrite (Hpre l) by now left. f_equal. apply IH.
    intros l' Hl'. apply Hpre. now right.
Qed.

Lemma replace_ncycles_absent (lines : list string) (n : Z) :
  (forall l, In l lines -> Fs.startswith l "ncycles =" = false) ->
  replace_ncycles lines n = lines.
Proof.
  induction lines as [|l lines IH]; intro H; [reflexivity|].
  cbn [replace_ncycles]. rewrite (H l) by now left. f_equal.
  apply IH. intros l' Hl'. apply H. now right.
Qed.

Lemma replace_ncycles_twice (lines : list string) (n m : Z) :
  replace_ncycles (replace_ncycles lines n) m = replace_ncycles lines m.
Proof.
  induction lines as [|line rest IH]; [reflexivity|].
  cbn [replace_ncycles]. destruct (Fs.startswith line "ncycles =") eqn:E.
  - cbn [replace_ncycles]. now rewrite ncycles_line_startswith.
  - cbn [replace_ncycles]. rewrite E. now rewrite IH.
Qed.

(** X10: [_set_n_cycles] rewrites the configuration with as many lines as it
    had: the first line that starts with [ncycles =] holds the new number
    of cycles, the lines before and after it are as they were, and a
    configuration without such a line is written back unchanged. *)
Theorem set_n_cycles_replaces_first_line :
  forall (w : world) (self : t) (n_cycles : Z) (lines : list string),
    fs w (cfg_path self) = Some lines ->
    exists w',
      _set_n_cycles w self n_cycles = Ok w'
      /\ virtual_queue w' = virtual_queue w
      /\ (forall path, path <> cfg_path self -> fs w' path = fs w path)
      /\ (exists lines', fs w' (cfg_path self) = Some lines'
            /\ length lines' = length lines
            /\ (forall pre line post,
                  lines = (pre ++ line :: post)%list ->
                  (forall l, In l pre -> Fs.startswith l "ncycles =" = false) ->
                  Fs.startswith line "ncycles =" = true ->
                  lines' = (pre ++ ("ncycles = " ++ Fs.str_of_int n_cycles
                                    ++ Fs.newline)%string :: post)%list)
            /\ ((forall l, In l lines -> Fs.startswith l "ncycles =" = false) ->
                lines' = lines)).
Proof.
  intros w self n lines Hfile. unfold _set_n_cycles, Fs.readlines.
  rewrite Hfile. cbn [bind]. eexists. split; [reflexivity|]. cbn [fs virtual_queue].
  split; [reflexivity|]. split.
  - intros path Hpath. unfold Fs.write.
    destruct (String.eqb path (cfg_path self)) eqn:E; [|reflexivity].
    apply String.eqb_eq in E. contradiction.
  - exists (replace_ncycles lines n). unfold Fs.write. rewrite String.eqb_refl.
    split; [reflexivity|]. split; [apply replace_ncycles_length|]. split.
    + intros pre line post -> Hpre Hline. now apply replace_ncycles_first.
    + apply replace_ncycles_absent.
Qed.

(** X11: Setting the number of cycles twice leaves the files that setting the
    second number alone leaves: the line written by the first call is the
    line that the second call replaces. *)
Theorem set_n_cycles_last_call_wins :
  forall (w w1 : world) (self : t) (n m : Z),
    _set_n_cycles w self n = Ok w1 ->
    exists w2 w2',
      _set_n_cycles w1 self m = Ok w2
      /\ _set_n_cycles w self m = Ok w2'
      /\ virtual_queue w2 = virtual_queue w2'
      /\ forall path, fs w2 path = fs w2' path.
Proof.
  intros w w1 self n m H. unfold _set_n_cycles, Fs.readlines in *.
  destruct (fs w (cfg_path self)) as [lines|] eqn:Hfile; [|discriminate].
  cbn [bind] in *. inversion H; subst w1; clear H. cbn [fs virtual_queue].
  unfold Fs.write at 1. rewrite String.eqb_refl. cbn [bind].
  eexists _, _. split; [reflexivity|]. split; [reflexivity|].
  cbn [fs virtual_queue]. split; [reflexivity|].
  intro path. unfold Fs.write. rewrite replace_ncycles_twice.
  now destruct (String.eqb path (cfg_path self)).
Qed.

(** X12: A call of [run] that raises, for whatever reason, leaves the files,
    the queue and the simulation as they were: no configuration is
    rewritten, no job is submitted and no time is added. *)
Theorem run_that_raises_changes_nothing :
  forall (w : world) (self : t) (duration : Q) (e : exn),
    snd (run str_of_float w self duration) = Raise e ->
    fst (run str_of_float w self duration) = (w, self).
Proof.
  intros w self duration e. unfold run.
  destruct (Dec.rem _ _) as [remainder|e0]; [|reflexivity].
  destruct (negb (Qeq_bool (Dec.round (Float.float remainder) 4) 0)); [reflexivity|].
  destruct (n_cycles_of duration (time_per_cycle self)) as [n_cycles|e2]; [|reflexivity].
  destruct (_set_n_cycles w self n_cycles) as [w1|e1]; [|reflexivity].
  destruct (submit (virtual_queue w1) (run_command str_of_float self)) as [vq j].
  cbn. discriminate.
Qed.

Lemma job_eqb_refl (j : Job) : job_eqb j j = true.
Proof. unfold job_eqb. now rewrite Nat.eqb_refl, String.eqb_refl. Qed.

Lemma killed_job_not_queued (j : Job) (l : list Job) :
  existsb (job_eqb j) (filter (fun x => negb (job_eqb j x)) l) = false.
Proof.
  induction l as [|x l IH]; [reflexivity|].
  cbn [filter]. destruct (job_eqb j x) eqn:E; cbn [negb]; [exact IH|].
  cbn [existsb]. now rewrite E, IH.
Qed.

(** X13: The life of a job: after a call of [run] that returns, the
    [running] property is true; [kill] then returns without an exception
    and without touching the files, after it the [running] property is
    false, and the time of the run stays added to [tot_simtime], which is
    the float sum of its value before the run and the duration, for a sum
    within the doubles. *)
Theorem run_then_kill :
  forall (w w1 : world) (self self1 : t) (duration : Q),
    run str_of_float w self duration = (w1, self1, Ok tt) ->
    snd (running w1 self1) = true
    /\ exists w2 self2,
         kill w1 self1 = (w2, self2, Ok tt)
         /\ fs w2 = fs w1
         /\ snd (running w2 self2) = false
         /\ _running self2 = false
         /\ (forall s,
               Float.add (Float.float (tot_simtime self)) (Float.float duration)
               = Float.Finite s ->
               tot_simtime self2 = s).
Proof.
  intros w w1 self self1 duration. unfold run.
  destruct (Dec.rem _ _) as [remainder|e0]; [|discriminate].
  destruct (negb (Qeq_bool (Dec.round (Float.float remainder) 4) 0)); [discriminate|].
  destruct (n_cycles_of duration (time_per_cycle self)) as [n_cycles|e2]; [|discriminate].
  destruct (_set_n_cycles w self n_cycles) as [w0|e1]; [|discriminate].
  unfold submit. intro H. inversion H; subst w1 self1; clear H.
  unfold running, kill, job_in_queue. cbn [job submitted virtual_queue queue snd fs].
  split.
  - rewrite existsb_app. cbn [existsb]. rewrite job_eqb_refl.
    now rewrite orb_true_r.
  - eexists _, _. split; [reflexivity|]. cbn [fs]. split; [reflexivity|].
    cbn [job set_running submitted virtual_queue queue_kill queue _running tot_simtime].
    split; [apply killed_job_not_queued|]. split; [reflexivity|].
    intros s Hs. unfold added_time. now rewrite Hs.
Qed.

End SimulationMore.

Lemma set_n_cycles_replaces_first_line_witness :
  Simulation.fs example_world (Simulation.cfg_path example_simulation) = Some example_cfg
  /\ exists w',
      Simulation._set_n_cycles example_world example_simulation 7 = Ok w'
      /\ Simulation.fs w' (Simulation.cfg_path example_simulation)
         = Some [ "nmoves = 25000" ++ Fs.newline;
                  "ncycles = 7" ++ Fs.newline;
                  "timestep = 4 * femtosecond" ++ Fs.newline ]%string.
Proof.
  assert (H : Simulation.fs example_world (Simulation.cfg_path example_simulation)
              = Some example_cfg) by reflexivity.
  split; [exact H|].
  destruct (set_n_cycles_replaces_first_line example_world example_simulation 7
              example_cfg H) as [w' [Hset [_ [_ [lines' [Hfile [_ [Hfirst _]]]]]]]].
  exists w'. split; [exact Hset|]. rewrite Hfile. f_equal.
  apply (Hfirst [hd "" example_cfg] (nth 1 example_cfg "") (skipn 2 example_cfg)).
  - reflexivity.
  - intros l [<- | []]. reflexivity.
  - reflexivity.
Defined.

Lemma set_n_cycles_last_call_wins_witness :
  Simulation._set_n_cycles example_world example_simulation 7 = Ok recycled_world
  /\ exists w2 w2',
      Simulation._set_n_cycles recycled_world example_simulation 9 = Ok w2
      /\ Simulation._set_n_cycles example_world example_simulation 9 = Ok w2'
      /\ Simulation.virtual_queue w2 = Simulation.virtual_queue w2'
      /\ forall path, Simulation.fs w2 path = Simulation.fs w2' path.
Proof.
  assert (H : Simulation._set_n_cycles example_world example_simulation 7
              = Ok recycled_world) by reflexivity.
  split; [exact H|].
  exact (set_n_cycles_last_call_wins example_world recycled_world example_simulation
           7 9 H).
Defined.

Lemma run_that_raises_changes_nothing_witness :
  snd (Simulation.run (fun _ => "0.0") example_world example_simulation (1 # 20)%Q)
  = Raise (ValueError "Duration must be a multiple of the time per cycle.")
  /\ fst (Simulation.run (fun _ => "0.0") example_world example_simulation (1 # 20)%Q)
     = (example_world, example_simulation).
Proof.
  assert (H : snd (Simulation.run (fun _ => "0.0") example_world example_simulation
                     (1 # 20)%Q)
              = Raise (ValueError "Duration must be a multiple of the time per cycle."))
    by (vm_compute; reflexivity).
  split; [exact H|].
  exact (run_that_raises_changes_nothing (fun _ => "0.0") example_world
           example_simulation (1 # 20)%Q _ H).
Defined.

Lemma run_then_kill_witness :
  Simulation.run (fun _ => "0.0") example_world example_simulation (1 # 10)%Q
  = (submitted_world, submitted_simulation, Ok tt)
  /\ Float.add (Float.float (Simulation.tot_simtime example_simulation))
               (Float.float (1 # 10))
     = Float.Finite (Float.float (1 # 10))
  /\ snd (Simulation.running submitted_world submitted_simulation) = true
  /\ exists w2 self2,
       Simulation.kill submitted_world submitted_simulation = (w2, self2, Ok tt)
       /\ Simulation.fs w2 = Simulation.fs submitted_world
       /\ snd (Simulation.running w2 self2) = false
       /\ Simulation._running self2 = false
       /\ (forall s,
             Float.add (Float.float (Simulation.tot_simtime example_simulation))
                       (Float.float (1 # 10)) = Float.Finite s ->
             Simulation.tot_simtime self2 = s).
Proof.
  assert (H : Simulation.run (fun _ => "0.0") example_world example_simulation (1 # 10)%Q
              = (submitted_world, submitted_simulation, Ok tt))
    by (vm_compute; reflexivity).
  split; [exact H|]. split; [vm_compute; reflexivity|].
  exact (run_then_kill (fun _ => "0.0") example_world submitted_world
           example_simulation submitted_simulation (1 # 10)%Q H).
Defined.

(** ** Simulation: what is read from the files *)

Section ParsingProps.
Import Simulation.
Local Open Scope Q_scope.

Variable float_of_string : string -> result Q.
Variable int_of_string : string -> result Z.

(** X14: [read_gradients(equilibrated_only=False)] joins the output directory
    with an absolute file name, so the output directory drops out: the
    file read is [/simfile.dat] whatever the simulation, and when there is
    no such file the call raises [FileNotFoundError] even though the
    simulation has written its [simfile.dat]. *)
Theorem read_gradients_opens_root_simfile :
  forall (files : Fs.files) (self : t) (endstate : bool),
    files "/simfile.dat" = None ->
    gradients_path self false = "/simfile.dat"
    /\ read_gradients float_of_string int_of_string files self false endstate
       = Raise FileNotFoundError.
Proof.
  intros files self endstate Hnone.
  assert (Hpath : gradients_path self false = "/simfile.dat") by reflexivity.
  split; [exact Hpath|].
  unfold read_gradients, Fs.readlines. rewrite Hpath, Hnone. reflexivity.
Qed.

Lemma read_samples_lengths (endstate : bool) (lines : list string)
    (steps : list Z) (grads : list Q) :
  read_samples float_of_string int_of_string endstate lines = Ok (steps, grads) ->
  length steps = length grads
  /\ length grads = length (filter (fun l => negb (Fs.startswith l "#")) lines).
Proof.
  revert steps grads. induction lines as [|line rest IH]; intros steps grads H.
  - cbn in H. inversion H. auto.
  - cbn [read_samples] in H. cbn [filter].
    destruct (negb (Fs.startswith line "#")).
    + destruct (read_sample float_of_string int_of_string endstate (Str.split line))
        as [sample|e]; cbn [bind] in H; [|discriminate].
      destruct (read_samples float_of_string int_of_string endstate rest)
        as [[steps' grads']|e]; cbn [bind] in H; [|discriminate].
      inversion H; subst. destruct (IH steps' grads' eq_refl) as [H1 H2].
      cbn [fst snd length]. split; congruence.
    + now apply IH.
Qed.

(** X15: When [read_gradients] returns, it returns one time and one gradient
    for every line of the file that does not start with [#], and none for
    the other lines. *)
Theorem read_gradients_one_sample_per_data_line :
  forall (files : Fs.files) (self : t) (equilibrated_only endstate : bool)
         (lines : list string) (times grads : list Q),
    files (gradients_path self equilibrated_only) = Some lines ->
    read_gradients float_of_string int_of_string files self equilibrated_only endstate
    = Ok (times, grads) ->
    length times = length grads
    /\ length grads = length (filter (fun l => negb (Fs.startswith l "#")) lines).
Proof.
  intros files self eq endstate lines times grads Hfile H.
  unfold read_gradients, Fs.readlines in H. rewrite Hfile in H. cbn [bind] in H.
  destruct (read_samples float_of_string int_of_string endstate lines)
    as [[steps grads']|e] eqn:Hs; cbn [bind] in H; [|discriminate].
  inversion H; subst. cbn [fst snd]. rewrite length_map.
  exact (read_samples_lengths endstate lines steps grads Hs).
Qed.

Lemma split_blank (chars : string) :
  blank chars = true -> Str.split_from chars None = [].
Proof.
  unfold blank. induction chars as [|c r IH]; intro H; [reflexivity|].
  cbn [list_ascii_of_string forallb] in H.
  apply andb_true_iff in H. destruct H as [Hc Hr].
  cbn [Str.split_from]. rewrite Hc. now apply IH.
Qed.

Lemma blank_is_no_comment (line : string) :
  blank line = true -> Fs.startswith line "#" = false.
Proof.
  unfold blank, Fs.startswith. destruct line as [|c r]; [reflexivity|].
  cbn [String.prefix list_ascii_of_string forallb]. intro H.
  apply andb_true_iff in H. destruct H as [Hc _].
  destruct (ascii_dec "#" c) as [<-|]; [discriminate | reflexivity].
Qed.

Lemma read_samples_blank_line (endstate : bool) (lines : list string) (line : string) :
  In line lines -> blank line = true ->
  raises (read_samples float_of_string int_of_string endstate lines).
Proof.
  intros Hin Hblank. induction lines as [|l rest IH]; [destruct Hin|].
  cbn [read_samples]. destruct Hin as [-> | Hin].
  - rewrite blank_is_no_comment by exact Hblank. cbn [negb].
    unfold Str.split. rewrite split_blank by exact Hblank.
    cbn. apply raises_Raise.
  - destruct (negb (Fs.startswith l "#")); [|now apply IH].
    destruct (read_sample float_of_string int_of_string endstate (Str.split l))
      as [sample|e]; cbn [bind]; [|apply raises_Raise].
    destruct (IH Hin) as [e He]. rewrite He. cbn [bind]. apply raises_Raise.
Qed.

(** X16: A line of whitespace alone, such as an empty last line, is not
    skipped: [read_gradients] raises on every file that holds one. *)
Theorem read_gradients_refuses_blank_line :
  forall (files : Fs.files) (self : t) (equilibrated_only endstate : bool)
         (lines : list string) (line : string),
    files (gradients_path self equilibrated_only) = Some lines ->
    In line lines ->
    blank line = true ->
    raises (read_gradients float_of_string int_of_string files self
              equilibrated_only endstate).
Proof.
  intros files self eq endstate lines line Hfile Hin Hblank.
  unfold read_gradients, Fs.readlines. rewrite Hfile. cbn [bind].
  destruct (read_samples_blank_line endstate lines line Hin Hblank) as [e He].
  rewrite He. cbn [bind]. apply raises_Raise.
Qed.

Ltac bind_cases H :=
  repeat match type of H with
         | context [bind ?m _] =>
           let E := fresh "E" in
           destruct m eqn:E; cbn [bind] in H; [|discriminate]
         end.

Lemma read_attribute_keeps (acc acc' : found) (line : string) :
  read_attribute float_of_string acc line = Ok acc' ->
  (Fs.startswith line "timestep =" = false -> fst (fst acc') = fst (fst acc))
  /\ (Fs.startswith line "nmoves =" = false -> snd (fst acc') = snd (fst acc))
  /\ (Fs.startswith line "energy frequency =" = false -> snd acc' = snd acc).
Proof.
  destruct acc as [[timestep nmoves] nrg_freq]. unfold read_attribute. intro H.
  destruct (Fs.startswith line "timestep =");
    destruct (Fs.startswith line "nmoves =");
    destruct (Fs.startswith line "energy frequency =");
    bind_cases H;
    repeat match goal with
           | E : Ok _ = Ok _ |- _ => inversion E; subst; clear E
           end;
    cbn [fst snd]; repeat split; intros; try discriminate; reflexivity.
Qed.

Lemma read_attributes_keep (lines : list string) (acc acc' : found) :
  foldM (read_attribute float_of_string) lines acc = Ok acc' ->
  ((forall l, In l lines -> Fs.startswith l "timestep =" = false) ->
   fst (fst acc') = fst (fst acc))
  /\ ((forall l, In l lines -> Fs.startswith l "nmoves =" = false) ->
      snd (fst acc') = snd (fst acc))
  /\ ((forall l, In l lines -> Fs.startswith l "energy frequency =" = false) ->
      snd acc' = snd acc).
Proof.
  revert acc. induction lines as [|line rest IH]; intros acc H.
  - cbn in H. inversion H. auto.
  - cbn [foldM] in H.
    destruct (read_attribute float_of_string acc line) as [acc1|e] eqn:Hline;
      cbn [bind] in H; [|discriminate].
    destruct (read_attribute_keeps acc acc1 line Hline) as [K1 [K2 K3]].
    destruct (IH acc1 H) as [R1 [R2 R3]].
    repeat split; intro Hno.
    + rewrite R1 by (intros l Hl; apply Hno; now right). apply K1, Hno. now left.
    + rewrite R2 by (intros l Hl; apply Hno; now right). apply K2, Hno. now left.
    + rewrite R3 by (intros l Hl; apply Hno; now right). apply K3, Hno. now left.
Qed.

(** X17: [_add_attributes_from_simfile] needs all three settings: when no line
    of [somd.cfg] starts with [timestep =], or none with [nmoves =], or
    none with [energy frequency =], the call raises. *)
Theorem add_attributes_needs_every_setting :
  forall (files : Fs.files) (input_dir : string) (lines : list string) (key : string),
    files (input_dir ++ "/somd.cfg")%string = Some lines ->
    In key ["timestep ="; "nmoves ="; "energy frequency ="] ->
    (forall l, In l lines -> Fs.startswith l key = false) ->
    raises (_add_attributes_from_simfile float_of_string files input_dir).
Proof.
  intros files input_dir lines key Hfile Hkey Hno.
  unfold _add_attributes_from_simfile, Fs.readlines. rewrite Hfile. cbn [bind].
  destruct (foldM (read_attribute float_of_string) lines (None, None, None))
    as [[[timestep nmoves] nrg_freq]|e] eqn:Hfold; cbn [bind]; [|apply raises_Raise].
  destruct (read_attributes_keep lines _ _ Hfold) as [K1 [K2 K3]]. cbn [fst snd] in *.
  destruct Hkey as [<- | [<- | [<- | []]]].
  - rewrite (K1 Hno). apply raises_Raise.
  - rewrite (K2 Hno). destruct timestep; apply raises_Raise.
  - rewrite (K3 Hno). destruct timestep; [destruct nmoves|]; apply raises_Raise.
Qed.

End ParsingProps.

Lemma read_gradients_opens_root_simfile_witness :
  example_files "/simfile.dat" = None
  /\ example_files (Simulation.output_dir output_simulation ++ "/simfile.dat")%string
     = Some example_simfile
  /\ Simulation.gradients_path output_simulation false = "/simfile.dat"
  /\ Simulation.read_gradients (fun _ => Ok 0%Q) (fun _ => Ok 0%Z) example_files
       output_simulation false false
     = Raise FileNotFoundError.
Proof.
  assert (H : example_files "/simfile.dat" = None) by reflexivity.
  split; [exact H | split; [reflexivity |]].
  exact (read_gradients_opens_root_simfile (fun _ => Ok 0%Q) (fun _ => Ok 0%Z)
           example_files output_simulation false H).
Defined.

Lemma read_gradients_one_sample_per_data_line_witness :
  equilibrated_files (Simulation.gradients_path output_simulation true)
  = Some example_simfile
  /\ Simulation.read_gradients (fun _ => Ok 0%Q) (fun _ => Ok 0%Z) equilibrated_files
       output_simulation true false
     = Ok (map (fun x => (inject_Z x * Simulation.timestep output_simulation)%Q)
               [0; 0; 0]%Z, [0; 0; 0]%Q)
  /\ length (map (fun x => (inject_Z x * Simulation.timestep output_simulation)%Q)
                 [0; 0; 0]%Z) = length [0; 0; 0]%Q
  /\ length [0; 0; 0]%Q
     = length (filter (fun l => negb (Fs.startswith l "#")) example_simfile).
Proof.
  assert (H1 : equilibrated_files (Simulation.gradients_path output_simulation true)
               = Some example_simfile) by reflexivity.
  assert (H2 : Simulation.read_gradients (fun _ => Ok 0%Q) (fun _ => Ok 0%Z)
                 equilibrated_files output_simulation true false
               = Ok (map (fun x => (inject_Z x * Simulation.timestep output_simulation)%Q)
                         [0; 0; 0]%Z, [0; 0; 0]%Q)) by reflexivity.
  split; [exact H1 | split; [exact H2 |]].
  exact (read_gradients_one_sample_per_data_line (fun _ => Ok 0%Q) (fun _ => Ok 0%Z)
           equilibrated_files output_simulation true false example_simfile _ _ H1 H2).
Defined.

Lemma read_gradients_refuses_blank_line_witness :
  root_simfile_files (Simulation.gradients_path output_simulation false)
  = Some (example_simfile ++ [Fs.newline])
  /\ In Fs.newline (example_simfile ++ [Fs.newline])
  /\ blank Fs.newline = true
  /\ raises (Simulation.read_gradients (fun _ => Ok 0%Q) (fun _ => Ok 0%Z)
               root_simfile_files output_simulation false false).
Proof.
  assert (H1 : root_simfile_files (Simulation.gradients_path output_simulation false)
               = Some (example_simfile ++ [Fs.newline])) by reflexivity.
  assert (H2 : In Fs.newline (example_simfile ++ [Fs.newline])).
  { apply in_or_app. right. now left. }
  assert (H3 : blank Fs.newline = true) by reflexivity.
  split; [exact H1 | split; [exact H2 | split; [exact H3 |]]].
  exact (read_gradients_refuses_blank_line (fun _ => Ok 0%Q) (fun _ => Ok 0%Z)
           root_simfile_files output_simulation false false
           (example_simfile ++ [Fs.newline]) Fs.newline H1 H2 H3).
Defined.

Lemma add_attributes_needs_every_setting_witness :
  Simulation.fs example_world
    (Simulation.input_dir example_simulation ++ "/somd.cfg")%string = Some example_cfg
  /\ In "energy frequency =" ["timestep ="; "nmoves ="; "energy frequency ="]
  /\ (forall l, In l example_cfg -> Fs.startswith l "energy frequency =" = false)
  /\ raises (Simulation._add_attributes_from_simfile (fun _ => Ok 0%Q)
               (Simulation.fs example_world) (Simulation.input_dir example_simulation)).
Proof.
  assert (H1 : Simulation.fs example_world
                 (Simulation.input_dir example_simulation ++ "/somd.cfg")%string
               = Some example_cfg) by reflexivity.
  assert (H2 : In "energy frequency =" ["timestep ="; "nmoves ="; "energy frequency ="]).
  { right. right. now left. }
  assert (H3 : forall l, In l example_cfg ->
                         Fs.startswith l "energy frequency =" = false).
  { intros l [<- | [<- | [<- | []]]]; reflexivity. }
  split; [exact H1 | split; [exact H2 | split; [exact H3 |]]].
  exact (add_attributes_needs_every_setting (fun _ => Ok 0%Q)
           (Simulation.fs example_world) (Simulation.input_dir example_simulation)
           example_cfg "energy frequency =" H1 H2 H3).
Defined.

(** ** GradientData: the integrated errors and the optimal lambda values, further *)

Section IntegratedErrorMore.
Import ProcessGrads.
Local Open Scope R_scope.

Lemma prefix_integral_increment (y x : list R) (k : nat) :
  length y = length x ->
  (S k < length x)%nat ->
  prefix_integral y x (S k) - prefix_integral y x k
  = (nth (S k) x 0 - nth k x 0) * (nth (S k) y 0 + nth k y 0) / 2.
Proof.
  revert y x. induction k as [|k IH]; intros y x Hlen Hk.
  - destruct x as [|x0 [|x1 xs]]; cbn in Hk; try lia.
    destruct y as [|y0 [|y1 ys]]; cbn in Hlen; try lia.
    rewrite prefix_integral_cons, !prefix_integral_0. cbn [nth]. lra.
  - destruct x as [|x0 [|x1 xs]]; cbn in Hk; try lia.
    destruct y as [|y0 [|y1 ys]]; cbn in Hlen; try lia.
    rewrite !prefix_integral_cons.
    specialize (IH (y1 :: ys) (x1 :: xs) ltac:(cbn; lia) ltac:(cbn; lia)).
    change (nth (S (S k)) (x0 :: x1 :: xs) 0) with (nth (S k) (x1 :: xs) 0).
    change (nth (S k) (x0 :: x1 :: xs) 0) with (nth k (x1 :: xs) 0).
    change (nth (S (S k)) (y0 :: y1 :: ys) 0) with (nth (S k) (y1 :: ys) 0).
    change (nth (S k) (y0 :: y1 :: ys) 0) with (nth k (y1 :: ys) 0).
    lra.
Qed.

(** X18: [get_integrated_error] returns one value for each window; the first
    is 0, and from a window to the next the value grows by the trapezoid
    between them: the distance of their lambda values times the mean of
    their errors. *)
Theorem integrated_error_grows_by_trapezoids :
  forall (self : GradientData) (er_type origin : string) (smoothen : bool) (y : list R),
    Np.str_in er_type ["sem"; "root_var"] = true ->
    Np.str_in origin ["inter"; "intra"] = true ->
    y_vals self er_type origin smoothen = Ok y ->
    length y = length (lam_vals self) ->
    exists ie,
      get_integrated_error self er_type origin smoothen = Ok ie
      /\ length ie = n_lam self
      /\ nth 0 ie 0 = 0
      /\ forall i, (S i < n_lam self)%nat ->
           nth (S i) ie 0 - nth i ie 0
           = (nth (S i) (lam_vals self) 0 - nth i (lam_vals self) 0)
             * (nth (S i) y 0 + nth i y 0) / 2.
Proof.
  intros self er_type origin smoothen y Her Hor Hy Hlen.
  eexists. split; [now apply (integrated_error_closed self er_type origin smoothen y)|].
  unfold n_lam. split; [now rewrite length_map, length_seq|]. split.
  - destruct (lam_vals self) as [|x0 xs] eqn:Hx; [reflexivity|].
    rewrite (nth_map_seq _ _ 0%nat 0) by (cbn; lia). apply prefix_integral_0.
  - intros i Hi. rewrite !nth_map_seq by lia.
    now apply prefix_integral_increment.
Qed.

End IntegratedErrorMore.

Section OptimalLamValsMore.
Import ProcessGrads.
Local Open Scope R_scope.

Section Given.

Variable self : GradientData.
Variables er_type sem_origin : string.
Variable smoothen_sems : bool.
Variable y : list R.
Hypothesis er_type_valid : Np.str_in er_type ["sem"; "root_var"] = true.
Hypothesis origin_valid : Np.str_in sem_origin ["inter"; "intra"] = true.
Hypothesis lam_nonempty : lam_vals self <> [].
Hypothesis lam_increasing : strictly_increasing (lam_vals self).
Hypothesis errors : y_vals self er_type sem_origin smoothen_sems = Ok y.
Hypothesis errors_length : length y = length (lam_vals self).
Hypothesis errors_positive : Forall (fun v => 0 < v) y.

Local Abbreviation ie := (integrated_errors y (lam_vals self)).
Local Abbreviation pick := (pick_lam ie (lam_vals self)).

Lemma ie_total_nonneg : 0 <= last ie 0.
Proof. pose proof (total_nonneg self y) as H. given H. exact H. Qed.

Lemma pick_within (r : R) :
  0 <= r <= last ie 0 ->
  Np.round (hd 0 (lam_vals self)) 3 <= pick r <= Np.round (last (lam_vals self) 0) 3.
Proof.
  intros [Hlo Hhi].
  pose proof (pick_first self y) as Hf. given Hf.
  pose proof (pick_last self y) as Hl. given Hl.
  pose proof (pick_monotone self y) as Hm. given Hm.
  rewrite <- Hf, <- Hl. split; apply Hm; lra.
Qed.

Lemma optimal_lam_vals_bounded (k : Z) :
  (0 <= k)%Z ->
  exists vals,
    calculate_optimal_lam_vals self er_type None (Some k) sem_origin smoothen_sems = Ok vals
    /\ Forall (fun v => Np.round (hd 0 (lam_vals self)) 3 <= v
                        <= Np.round (last (lam_vals self) 0) 3) vals.
Proof.
  intro Hk.
  pose proof (optimal_lam_vals_computed self er_type sem_origin smoothen_sems y) as Hc.
  given Hc. eexists. split; [apply Hc; exact Hk|].
  apply Forall_forall. intros v Hv. apply in_map_iff in Hv.
  destruct Hv as [i [<- Hi]]. apply in_seq in Hi. apply pick_within.
  apply linspace_val_inner; [apply ie_total_nonneg | lia].
Qed.


End Given.

(** X19: The lambda values that [calculate_optimal_lam_vals] returns never
    leave the range of the lambda values sampled: on strictly increasing
    lambda values with a positive error for every window, every value
    returned lies between the first and the last lambda value, rounded to
    three decimal places. *)
Theorem optimal_lam_vals_within_range :
  forall (self : GradientData) (er_type sem_origin : string) (smoothen_sems : bool)
         (y : list R) (k : Z),
    Np.str_in er_type ["sem"; "root_var"] = true ->
    Np.str_in sem_origin ["inter"; "intra"] = true ->
    lam_vals self <> [] ->
    strictly_increasing (lam_vals self) ->
    y_vals self er_type sem_origin smoothen_sems = Ok y ->
    length y = length (lam_vals self) ->
    Forall (fun v => 0 < v) y ->
    (0 <= k)%Z ->
    exists vals,
      calculate_optimal_lam_vals self er_type None (Some k) sem_origin smoothen_sems = Ok vals
      /\ Forall (fun v => Np.round (hd 0 (lam_vals self)) 3 <= v
                          <= Np.round (last (lam_vals self) 0) 3) vals.
Proof.
  intros self er_type sem_origin smoothen_sems y k Her Hor Hne Hinc Hy Hlen Hpos Hk.
  now apply (optimal_lam_vals_bounded self er_type sem_origin smoothen_sems y).
Qed.


End OptimalLamValsMore.

(** ** GradientData.get_sems on a single window *)

Section SemsSingle.
Import ProcessGrads.
Local Open Scope R_scope.


End SemsSingle.

Section GradientWitnesses.
Import ProcessGrads.
Local Open Scope R_scope.

Lemma integrated_error_grows_by_trapezoids_witness :
  Np.str_in "root_var" ["sem"; "root_var"] = true
  /\ Np.str_in "inter" ["inter"; "intra"] = true
  /\ y_vals flat_gradient_data "root_var" "inter" true = Ok flat_root_var
  /\ length flat_root_var = length (lam_vals flat_gradient_data)
  /\ exists ie,
      get_integrated_error flat_gradient_data "root_var" "inter" true = Ok ie
      /\ length ie = n_lam flat_gradient_data
      /\ nth 0 ie 0 = 0
      /\ forall i, (S i < n_lam flat_gradient_data)%nat ->
           nth (S i) ie 0 - nth i ie 0
           = (nth (S i) (lam_vals flat_gradient_data) 0
              - nth i (lam_vals flat_gradient_data) 0)
             * (nth (S i) flat_root_var 0 + nth i flat_root_var 0) / 2.
Proof.
  assert (H1 : Np.str_in "root_var" ["sem"; "root_var"] = true) by reflexivity.
  assert (H2 : Np.str_in "inter" ["inter"; "intra"] = true) by reflexivity.
  assert (H3 : y_vals flat_gradient_data "root_var" "inter" true = Ok flat_root_var)
    by reflexivity.
  assert (H4 : length flat_root_var = length (lam_vals flat_gradient_data))
    by reflexivity.
  split; [exact H1 | split; [exact H2 | split; [exact H3 | split; [exact H4 |]]]].
  exact (integrated_error_grows_by_trapezoids flat_gradient_data "root_var" "inter" true
           flat_root_var H1 H2 H3 H4).
Defined.

Lemma optimal_lam_vals_within_range_witness :
  Np.str_in "root_var" ["sem"; "root_var"] = true
  /\ Np.str_in "inter" ["inter"; "intra"] = true
  /\ lam_vals flat_gradient_data <> []
  /\ strictly_increasing (lam_vals flat_gradient_data)
  /\ y_vals flat_gradient_data "root_var" "inter" true = Ok flat_root_var
  /\ length flat_root_var = length (lam_vals flat_gradient_data)
  /\ Forall (fun v => 0 < v) flat_root_var
  /\ (0 <= 5)%Z
  /\ exists vals,
      calculate_optimal_lam_vals flat_gradient_data "root_var" None (Some 5%Z) "inter" true
      = Ok vals
      /\ Forall (fun v => Np.round (hd 0 (lam_vals flat_gradient_data)) 3 <= v
                          <= Np.round (last (lam_vals flat_gradient_data) 0) 3) vals.
Proof.
  assert (H1 : Np.str_in "root_var" ["sem"; "root_var"] = true) by reflexivity.
  assert (H2 : Np.str_in "inter" ["inter"; "intra"] = true) by reflexivity.
  assert (H5 : y_vals flat_gradient_data "root_var" "inter" true = Ok flat_root_var)
    by reflexivity.
  assert (H6 : length flat_root_var = length (lam_vals flat_gradient_data)) by reflexivity.
  assert (H8 : (0 <= 5)%Z) by lia.
  split; [exact H1|]. split; [exact H2|]. split; [exact flat_lam_nonempty|].
  split; [exact flat_lam_increasing|]. split; [exact H5|]. split; [exact H6|].
  split; [exact flat_root_var_positive|]. split; [exact H8|].
  exact (optimal_lam_vals_within_range flat_gradient_data "root_var" "inter" true
           flat_root_var 5%Z H1 H2 flat_lam_nonempty flat_lam_increasing H5 H6
           flat_root_var_positive H8).
Defined.



End GradientWitnesses.

(** ** GradientData.get_predicted_overlap_mat, further *)

Section OverlapEntries.
Import ProcessGrads.
Local Open Scope R_scope.

Variable self : GradientData.
Variable temperature : R.
Hypothesis vars_length : length (vars_intra self) = n_lam self.
Hypothesis lam_increasing : strictly_increasing (lam_vals self).
Hypothesis vars_positive : Forall (fun v => 0 < v) (vars_intra self).
Hypothesis temperature_positive : 0 < temperature.

Local Abbreviation beta := (ProcessGrads.beta temperature).

Lemma upper_row_entries (base_index : nat) :
  (base_index < n_lam self)%nat ->
  exists row, upper_row self beta base_index = Ok row
              /\ length row = n_lam self
              /\ (forall j, (j < base_index)%nat -> nth j row 0 = 0)
              /\ (forall j, (base_index <= j)%nat -> (j < n_lam self)%nat ->
                            0 < nth j row 0).
Proof.
  intro Hb. unfold upper_row.
  destruct (overlap_loop_positive self temperature vars_length lam_increasing
              vars_positive temperature_positive
              base_index 0 (n_lam self - base_index) 1 ltac:(lra) ltac:(lia))
    as [vals [Hloop [Hpos [Hlen _]]]].
  rewrite Hloop. cbn [bind]. eexists. split; [reflexivity|]. split; [|split].
  - rewrite length_app, repeat_length, Hlen. lia.
  - intros j Hj. rewrite app_nth1 by (rewrite repeat_length; lia).
    apply nth_repeat_lt. exact Hj.
  - intros j Hj Hn. rewrite app_nth2 by (rewrite repeat_length; lia).
    rewrite repeat_length. apply Forall_nth_pos; [exact Hpos | lia].
Qed.

Lemma mirrored_entries :
  exists mirrored,
    mirrored_overlap_mat self temperature = Ok mirrored
    /\ length mirrored = n_lam self
    /\ (forall i, (i < n_lam self)%nat -> length (nth i mirrored []) = n_lam self)
    /\ (forall i j, (i < n_lam self)%nat -> (j < n_lam self)%nat ->
                    0 < entry mirrored i j)
    /\ (forall i j, (i < n_lam self)%nat -> (j < n_lam self)%nat ->
                    entry mirrored i j = entry mirrored j i)
    /\ (forall i, (i < n_lam self)%nat -> entry mirrored i i = 1).
Proof.
  destruct (upper_triangle_shape self temperature vars_length lam_increasing
              vars_positive temperature_positive) as [upper [Hupper [_ Hdiag]]].
  assert (Hrows : forall i, (i < n_lam self)%nat ->
            upper_row self beta i = Ok (nth i upper [])).
  { intros i Hi. unfold upper_triangle in Hupper.
    pose proof (mapM_nth _ _ _ i 0%nat [] Hupper ltac:(now rewrite length_seq)) as H.
    now rewrite seq_nth in H by exact Hi. }
  assert (Hzero : forall i j, (i < n_lam self)%nat -> (j < i)%nat -> entry upper i j = 0).
  { intros i j Hi Hj. destruct (upper_row_entries i Hi) as [row [Hrow [_ [Hz _]]]].
    rewrite (Hrows i Hi) in Hrow. inversion Hrow; subst. unfold entry. now apply Hz. }
  assert (Hpos : forall i j, (i <= j)%nat -> (j < n_lam self)%nat -> 0 < entry upper i j).
  { intros i j Hij Hj. destruct (upper_row_entries i ltac:(lia)) as [row [Hrow [_ [_ Hp]]]].
    rewrite (Hrows i ltac:(lia)) in Hrow. inversion Hrow; subst. unfold entry.
    now apply Hp. }
  exists (mirror (n_lam self) upper).
  assert (Hm : mirrored_overlap_mat self temperature = Ok (mirror (n_lam self) upper)).
  { unfold mirrored_overlap_mat.
    destruct (Req_dec_T (gas_constant * temperature) 0) as [E | _].
    - exfalso. unfold gas_constant in E. nra.
    - cbv zeta. now rewrite Hupper. }
  split; [exact Hm|]. split; [apply mirror_length|]. split; [|split; [|split]].
  - intros i Hi. unfold mirror. rewrite (nth_map_seq _ _ i []) by exact Hi.
    now rewrite length_map, length_seq.
  - intros i j Hi Hj. rewrite mirror_entry by assumption.
    destruct (Nat.eqb_spec i j) as [<- | Hne].
    + pose proof (Hpos i i (le_n _) Hi). lra.
    + destruct (Nat.lt_ge_cases i j) as [Hlt | Hge].
      * pose proof (Hpos i j ltac:(lia) Hj). rewrite (Hzero j i Hj Hlt). lra.
      * pose proof (Hpos j i ltac:(lia) Hi). rewrite (Hzero i j Hi ltac:(lia)). lra.
  - intros i j Hi Hj. apply mirror_symmetric; now rewrite mirror_length.
  - intros i Hi. rewrite mirror_entry by assumption.
    rewrite Nat.eqb_refl, (Hdiag i Hi). lra.
Qed.

Lemma sum_positive (l : list R) :
  l <> [] -> Forall (fun v => 0 < v) l -> 0 < Np.sum l.
Proof.
  intros Hne Hpos. destruct l as [|a l]; [contradiction|].
  inversion Hpos as [|? ? Ha Hl]; subst. cbn [Np.sum].
  assert (0 <= Np.sum l).
  { apply sum_nonneg. eapply Forall_impl; [|exact Hl]. cbn. intros; lra. }
  lra.
Qed.

Lemma normalise_row_entries (row : list R) :
  Forall (fun v => 0 < v) row ->
  Forall (fun v => 0 < v <= 1) (normalise_row row).
Proof.
  intro Hpos. destruct row as [|a row]; [constructor|].
  assert (Hsum : 0 < Np.sum (a :: row)) by (apply sum_positive; [discriminate | exact Hpos]).
  unfold normalise_row. apply Forall_forall. intros v Hv. apply in_map_iff in Hv.
  destruct Hv as [x [<- Hx]].
  assert (Hx0 : 0 < x) by (rewrite Forall_forall in Hpos; now apply Hpos).
  assert (Hle : x <= Np.sum (a :: row)).
  { apply sum_ge_member; [|exact Hx].
    eapply Forall_impl; [|exact Hpos]. cbn. intros; lra. }
  split.
  - now apply Rdiv_lt_0_compat.
  - apply (Rmult_le_reg_r (Np.sum (a :: row))); [exact Hsum|].
    unfold Rdiv. rewrite Rmult_assoc, Rinv_l by lra. lra.
Qed.

Lemma predicted_overlap_entries :
  exists mat,
    get_predicted_overlap_mat self temperature = Ok mat
    /\ length mat = n_lam self
    /\ Forall (fun row => length row = n_lam self
                          /\ Forall (fun v => 0 < v <= 1) row) mat.
Proof.
  destruct mirrored_entries as [m [Hm [Hlen [Hrows [Hpos _]]]]].
  exists (map normalise_row m). split; [|split].
  - unfold get_predicted_overlap_mat. now rewrite Hm.
  - now rewrite length_map.
  - apply Forall_forall. intros row Hrow. apply in_map_iff in Hrow.
    destruct Hrow as [r [<- Hr]].
    destruct (In_nth _ _ [] Hr) as [i [Hi Hnth]]. rewrite Hlen in Hi.
    split.
    + unfold normalise_row. rewrite length_map, <- Hnth. now apply Hrows.
    + apply normalise_row_entries. apply Forall_forall. intros v Hv.
      destruct (In_nth _ _ 0 Hv) as [j [Hj Hvj]].
      rewrite <- Hnth in Hj, Hvj. rewrite (Hrows i Hi) in Hj.
      rewrite <- Hvj. now apply (Hpos i j).
Qed.

Lemma two_window_overlap_symmetric :
  n_lam self = 2%nat ->
  exists mat,
    get_predicted_overlap_mat self temperature = Ok mat /\ symmetric mat.
Proof.
  intro Hn.
  destruct mirrored_entries as [m [Hm [Hlen [Hrows [Hpos [Hsym Hdiag]]]]]].
  exists (map normalise_row m). split.
  { unfold get_predicted_overlap_mat. now rewrite Hm. }
  rewrite Hn in *.
  pose proof (Hrows 0%nat ltac:(lia)) as Hr0. pose proof (Hrows 1%nat ltac:(lia)) as Hr1.
  pose proof (Hdiag 0%nat ltac:(lia)) as Hd0. pose proof (Hdiag 1%nat ltac:(lia)) as Hd1.
  pose proof (Hsym 0%nat 1%nat ltac:(lia) ltac:(lia)) as Hs.
  pose proof (Hpos 0%nat 1%nat ltac:(lia) ltac:(lia)) as Hp.
  unfold entry in *.
  destruct m as [|r0 [|r1 [|? ?]]]; cbn in Hlen; try lia.
  cbn [nth] in *.
  destruct r0 as [|a [|b [|? ?]]]; cbn in Hr0; try lia.
  destruct r1 as [|c [|d [|? ?]]]; cbn in Hr1; try lia.
  cbn [nth] in *. subst a d c.
  intros i j Hi Hj. cbn in Hi, Hj.
  destruct i as [|[|i]]; destruct j as [|[|j]]; try lia; try reflexivity;
    unfold entry; cbn; f_equal; lra.
Qed.

End OverlapEntries.

(** X22: Every entry of the predicted overlap matrix is a share of its row:
    on strictly increasing lambda values with one positive intra-run
    variance per window and at a positive temperature, the matrix has one
    row and one column for each window and every entry is above 0 and at
    most 1. *)
Theorem predicted_overlap_entries_are_shares :
  forall (self : ProcessGrads.GradientData) (temperature : R),
    length (ProcessGrads.vars_intra self) = ProcessGrads.n_lam self ->
    strictly_increasing (ProcessGrads.lam_vals self) ->
    Forall (fun v => (0 < v)%R) (ProcessGrads.vars_intra self) ->
    (0 < temperature)%R ->
    exists mat,
      ProcessGrads.get_predicted_overlap_mat self temperature = Ok mat
      /\ length mat = ProcessGrads.n_lam self
      /\ Forall (fun row => length row = ProcessGrads.n_lam self
                            /\ Forall (fun v => (0 < v <= 1)%R) row) mat.
Proof.
  intros self temperature H1 H2 H3 H4.
  now apply predicted_overlap_entries.
Qed.

(** X23: With two windows the two rows have the same sum, and the matrix
    returned is symmetric. *)
Theorem predicted_overlap_of_two_windows_symmetric :
  forall (self : ProcessGrads.GradientData) (temperature : R),
    ProcessGrads.n_lam self = 2 ->
    length (ProcessGrads.vars_intra self) = ProcessGrads.n_lam self ->
    strictly_increasing (ProcessGrads.lam_vals self) ->
    Forall (fun v => (0 < v)%R) (ProcessGrads.vars_intra self) ->
    (0 < temperature)%R ->
    exists mat,
      ProcessGrads.get_predicted_overlap_mat self temperature = Ok mat
      /\ ProcessGrads.symmetric mat.
Proof.
  intros self temperature Hn H1 H2 H3 H4.
  now apply two_window_overlap_symmetric.
Qed.

Section OverlapWitnesses.
Import ProcessGrads.
Local Open Scope R_scope.

Lemma predicted_overlap_entries_are_shares_witness :
  length (vars_intra flat_gradient_data) = n_lam flat_gradient_data
  /\ strictly_increasing (lam_vals flat_gradient_data)
  /\ Forall (fun v => 0 < v) (vars_intra flat_gradient_data)
  /\ 0 < 298
  /\ exists mat,
      get_predicted_overlap_mat flat_gradient_data 298 = Ok mat
      /\ length mat = n_lam flat_gradient_data
      /\ Forall (fun row => length row = n_lam flat_gradient_data
                            /\ Forall (fun v => 0 < v <= 1) row) mat.
Proof.
  assert (H2 : length (vars_intra flat_gradient_data) = n_lam flat_gradient_data)
    by reflexivity.
  assert (H3 : strictly_increasing (lam_vals flat_gradient_data))
    by (cbn; repeat split; lra).
  assert (H4 : Forall (fun v => 0 < v) (vars_intra flat_gradient_data))
    by (cbn; repeat constructor; lra).
  assert (H5 : 0 < 298) by lra.
  split; [exact H2 | split; [exact H3 | split; [exact H4 | split; [exact H5 |]]]].
  exact (predicted_overlap_entries_are_shares flat_gradient_data 298 H2 H3 H4 H5).
Defined.

Lemma predicted_overlap_of_two_windows_symmetric_witness :
  n_lam two_window_gradient_data = 2%nat
  /\ length (vars_intra two_window_gradient_data) = n_lam two_window_gradient_data
  /\ strictly_increasing (lam_vals two_window_gradient_data)
  /\ Forall (fun v => 0 < v) (vars_intra two_window_gradient_data)
  /\ 0 < 298
  /\ exists mat,
      get_predicted_overlap_mat two_window_gradient_data 298 = Ok mat
      /\ symmetric mat.
Proof.
  assert (H1 : n_lam two_window_gradient_data = 2%nat) by reflexivity.
  assert (H2 : length (vars_intra two_window_gradient_data)
               = n_lam two_window_gradient_data) by reflexivity.
  assert (H3 : strictly_increasing (lam_vals two_window_gradient_data))
    by (cbn; repeat split; lra).
  assert (H4 : Forall (fun v => 0 < v) (vars_intra two_window_gradient_data))
    by (cbn; repeat constructor; lra).
  assert (H5 : 0 < 298) by lra.
  split; [exact H1|].
  split; [exact H2 | split; [exact H3 | split; [exact H4 | split; [exact H5 |]]]].
  exact (predicted_overlap_of_two_windows_symmetric two_window_gradient_data 298
           H1 H2 H3 H4 H5).
Defined.

End OverlapWitnesses.

(** ** GradientData.__init__ *)

Section InitProps.
Import ProcessGrads GradientDataInit.
Local Open Scope R_scope.

Variable read_gradients : Simulation.t -> bool -> result (list R).
Variable get_statistical_inefficiency : list R -> R.

Local Abbreviation init := (__init__ read_gradients get_statistical_inefficiency).
Local Abbreviation window_stats :=
  (window_statistics read_gradients get_statistical_inefficiency).

Ltac bind_inv H :=
  repeat match type of H with
         | context [bind ?m _] =>
           let E := fresh "E" in
           destruct m eqn:E; cbn [bind] in H; [|discriminate]
         end.

Lemma zipM_length {A B C : Type} (f : A -> B -> result C) (l : list A) (m : list B)
    (cs : list C) :
  zipM f l m = Ok cs -> length l = length m -> length cs = length l.
Proof.
  revert m cs. induction l as [|a l IH]; intros m cs H Hlen.
  - destruct m; cbn in H; inversion H; reflexivity.
  - destruct m as [|b m]; [discriminate|]. cbn [zipM] in H.
    destruct (f a b); cbn [bind] in H; [|discriminate].
    destruct (zipM f l m) as [cs'|] eqn:E; cbn [bind] in H; [|discriminate].
    inversion H; subst. cbn. f_equal. apply (IH m); [exact E | now inversion Hlen].
Qed.

Lemma mapM_map {A B C : Type} (f : A -> result B) (g : B -> C) (h : A -> C)
    (l : list A) (bs : list B) :
  (forall a b, f a = Ok b -> g b = h a) ->
  mapM f l = Ok bs -> map g bs = map h l.
Proof.
  intro Hgh. revert bs. induction l as [|a l IH]; intros bs H.
  - cbn in H. inversion H. reflexivity.
  - cbn [mapM] in H. destruct (f a) as [b|] eqn:Ea; cbn [bind] in H; [|discriminate].
    destruct (mapM f l) as [bs'|]; cbn [bind] in H; [|discriminate].
    inversion H; subst. cbn. f_equal; [now apply Hgh | now apply IH].
Qed.

Lemma mapM_raises {A B : Type} (f : A -> result B) (l : list A) (a : A) :
  In a l -> raises (f a) -> raises (mapM f l).
Proof.
  intros Hin [e He]. induction l as [|x l IH]; [destruct Hin|].
  cbn [mapM]. destruct Hin as [-> | Hin].
  - rewrite He. apply raises_Raise.
  - destruct (f x); cbn [bind]; [|apply raises_Raise].
    destruct (IH Hin) as [e' He']. rewrite He'. apply raises_Raise.
Qed.

Lemma window_lam (equilibrated : bool) (lam : Stage.LamWindow) (w : wind_stats) :
  window_stats equilibrated lam = Ok w -> w_lam w = Stage.lam lam.
Proof.
  unfold window_statistics. intro H. bind_inv H. now inversion H.
Qed.

(** X24: When the construction of the gradient data returns, every attribute
    holds one entry for each window, in the order of the windows, and the
    lambda values are those of the windows. *)
Theorem init_keeps_one_entry_per_window :
  forall (lam_winds : list Stage.LamWindow) (equilibrated : bool) (gd : GradientData),
    init lam_winds equilibrated = Ok gd ->
    ProcessGrads.equilibrated gd = equilibrated
    /\ lam_vals gd = map Stage.lam lam_winds
    /\ n_lam gd = length lam_winds
    /\ length (sampling_times gd) = length lam_winds
    /\ length (means gd) = length lam_winds
    /\ length (sems_overall gd) = length lam_winds
    /\ length (sems_intra gd) = length lam_winds
    /\ length (sems_inter gd) = length lam_winds
    /\ length (vars_intra gd) = length lam_winds
    /\ length (stat_ineffs gd) = length lam_winds.
Proof.
  intros lam_winds eq gd H. unfold __init__ in H.
  destruct (mapM (window_stats eq) lam_winds) as [winds|] eqn:Hw;
    cbn [bind] in H; [|discriminate].
  destruct (Py.getitem lam_winds 0) as [first_win|]; cbn [bind] in H; [|discriminate].
  destruct (Py.getitem (Stage.sims first_win) 0) as [first_sim|];
    cbn [bind] in H; [|discriminate].
  destruct (mapM end_time lam_winds) as [end_times|] eqn:He;
    cbn [bind] in H; [|discriminate].
  destruct (zipM times_of _ winds) as [ts|]; cbn [bind] in H; [|discriminate].
  match type of H with context [zipM ?f end_times ?st] =>
    destruct (zipM f end_times st) as [sampling|] eqn:Hs end;
    cbn [bind] in H; [|discriminate].
  inversion H; subst gd; clear H.
  pose proof (mapM_length _ _ _ Hw) as Lw.
  pose proof (mapM_length _ _ _ He) as Le.
  assert (Ls : length sampling = length lam_winds).
  { rewrite (zipM_length _ _ _ _ Hs); [exact Le|].
    rewrite Le. destruct eq; now rewrite length_map. }
  unfold n_lam.
  cbn [ProcessGrads.equilibrated lam_vals sampling_times means sems_overall sems_intra
       sems_inter vars_intra stat_ineffs].
  assert (Hlam : map w_lam winds = map Stage.lam lam_winds).
  { apply (mapM_map (window_stats eq)); [|exact Hw].
    intros a b. apply window_lam. }
  rewrite Hlam, !length_map, Lw.
  repeat split; auto.
Qed.

(** X25: No gradient data without windows, and none with a window that has no
    simulation: the construction raises. *)
Theorem init_needs_windows_with_simulations :
  forall (lam_winds : list Stage.LamWindow) (equilibrated : bool),
    lam_winds = [] \/ (exists win, In win lam_winds /\ Stage.sims win = []) ->
    raises (init lam_winds equilibrated).
Proof.
  intros lam_winds eq H. unfold __init__.
  destruct (mapM (window_stats eq) lam_winds) as [winds|]; cbn [bind];
    [|apply raises_Raise].
  destruct H as [-> | [win [Hin Hsims]]]; [apply raises_Raise|].
  destruct (Py.getitem lam_winds 0) as [first_win|]; cbn [bind]; [|apply raises_Raise].
  destruct (Py.getitem (Stage.sims first_win) 0) as [first_sim|]; cbn [bind];
    [|apply raises_Raise].
  destruct (mapM_raises end_time lam_winds win Hin) as [e He].
  { unfold end_time. rewrite Hsims. apply raises_Raise. }
  rewrite He. apply raises_Raise.
Qed.

Lemma mean_nonneg (l : list R) : Forall (fun v => 0 <= v) l -> 0 <= mean l.
Proof.
  intro H. unfold mean. destruct l as [|a l].
  - cbn. unfold Rdiv. rewrite Rmult_0_l. lra.
  - apply Rmult_le_pos; [now apply sum_nonneg|].
    left. apply Rinv_0_lt_compat. apply lt_0_INR. cbn. lia.
Qed.

Lemma var_nonneg (l : list R) : 0 <= var l.
Proof.
  unfold var. apply mean_nonneg. apply Forall_forall. intros v Hv.
  apply in_map_iff in Hv. destruct Hv as [x [<- _]]. cbv beta.
  exact (Rle_0_sqr (x - mean l)).
Qed.

Lemma squared_sem_nonneg (l : list R) : 0 <= var l / INR (length l).
Proof.
  destruct l as [|a l].
  - unfold var, mean. cbn. unfold Rdiv. rewrite !Rmult_0_l. lra.
  - apply Rmult_le_pos; [apply var_nonneg|].
    left. apply Rinv_0_lt_compat. apply lt_0_INR. cbn. lia.
Qed.

Lemma sim_squared_sem_nonneg (equilibrated : bool) (sim : Simulation.t) (s : sim_stats) :
  sim_statistics read_gradients get_statistical_inefficiency equilibrated sim = Ok s ->
  0 <= s_squared_sem s.
Proof.
  unfold sim_statistics. intro H. bind_inv H. inversion H; subst. cbn.
  apply squared_sem_nonneg.
Qed.

Lemma window_quadrature (equilibrated : bool) (lam : Stage.LamWindow) (w : wind_stats) :
  Stage.sims lam <> [] ->
  window_stats equilibrated lam = Ok w ->
  w_sem_tot w * w_sem_tot w
  = w_sem_inter w * w_sem_inter w + w_sem_intra w * w_sem_intra w.
Proof.
  intros Hsims H. unfold window_statistics in H.
  assert (Hn : 0 < INR (length (Stage.sims lam))).
  { apply lt_0_INR. destruct (Stage.sims lam); [contradiction | cbn; lia]. }
  set (n_sims := INR (length (Stage.sims lam))) in *. clearbody n_sims.
  remember (Stage.sims lam) as sims eqn:Heq.
  destruct sims as [|sim0 rest]; [contradiction|].
  destruct (mapM (sim_statistics read_gradients get_statistical_inefficiency equilibrated)
                 (sim0 :: rest)) as [stats|] eqn:Hstats; cbn [bind] in H; [|discriminate].
  destruct (rectangular (map s_gradients stats)); cbn [bind] in H; [|discriminate].
  inversion H; subst w; clear H. cbn [w_sem_tot w_sem_inter w_sem_intra].
  assert (Ha : 0 <= var (map s_mean stats) / n_sims).
  { apply Rmult_le_pos; [apply var_nonneg | left; now apply Rinv_0_lt_compat]. }
  assert (Hb : 0 <= mean (map s_squared_sem stats) / n_sims).
  { apply Rmult_le_pos; [|left; now apply Rinv_0_lt_compat].
    apply mean_nonneg. apply Forall_forall. intros v Hv.
    apply in_map_iff in Hv. destruct Hv as [s [<- Hs]].
    destruct (In_nth _ _ s Hs) as [i [Hi Hnth]].
    pose proof (mapM_length _ _ _ Hstats) as Hlen.
    pose proof (mapM_nth _ _ _ i sim0 s Hstats) as Hsim.
    rewrite Hnth in Hsim. eapply sim_squared_sem_nonneg. apply Hsim. lia. }
  rewrite !sqrt_sqrt; lra.
Qed.

Lemma init_windows (lam_winds : list Stage.LamWindow) (equilibrated : bool)
    (gd : GradientData) :
  init lam_winds equilibrated = Ok gd ->
  exists winds,
    mapM (window_stats equilibrated) lam_winds = Ok winds
    /\ n_lam gd = length lam_winds
    /\ sems_overall gd = map w_sem_tot winds
    /\ sems_intra gd = map w_sem_intra winds
    /\ sems_inter gd = map w_sem_inter winds
    /\ forall win, In win lam_winds -> Stage.sims win <> [].
Proof.
  intro H. unfold __init__ in H.
  destruct (mapM (window_stats equilibrated) lam_winds) as [winds|] eqn:Hw;
    cbn [bind] in H; [|discriminate].
  destruct (Py.getitem lam_winds 0) as [first_win|]; cbn [bind] in H; [|discriminate].
  destruct (Py.getitem (Stage.sims first_win) 0) as [first_sim|];
    cbn [bind] in H; [|discriminate].
  destruct (mapM end_time lam_winds) as [end_times|] eqn:He;
    cbn [bind] in H; [|discriminate].
  destruct (zipM times_of _ winds) as [ts|]; cbn [bind] in H; [|discriminate].
  match type of H with context [zipM ?f end_times ?st] =>
    destruct (zipM f end_times st) as [sampling|] eqn:Hs end;
    cbn [bind] in H; [|discriminate].
  inversion H; subst gd; clear H.
  exists winds. split; [reflexivity|]. split.
  { unfold n_lam. cbn. rewrite length_map. exact (mapM_length _ _ _ Hw). }
  cbn. repeat split; auto.
  intros win Hin Hsims.
  destruct (mapM_raises end_time lam_winds win Hin) as [e He'].
  { unfold end_time. rewrite Hsims. apply raises_Raise. }
  congruence.
Qed.

(** X26: The overall standard error of every window is the sum in quadrature
    of its inter-run and its intra-run standard error, for gradients that
    are not empty and in exact arithmetic. *)
Theorem init_overall_sem_in_quadrature :
  forall (lam_winds : list Stage.LamWindow) (equilibrated : bool) (gd : GradientData),
    (forall sim eq g, read_gradients sim eq = Ok g -> g <> []) ->
    init lam_winds equilibrated = Ok gd ->
    forall i, (i < n_lam gd)%nat ->
      nth i (sems_overall gd) 0 * nth i (sems_overall gd) 0
      = nth i (sems_inter gd) 0 * nth i (sems_inter gd) 0
        + nth i (sems_intra gd) 0 * nth i (sems_intra gd) 0.
Proof.
  intros lam_winds eq gd _ H i Hi.
  destruct (init_windows lam_winds eq gd H) as [winds [Hw [Hn [Ho [Ha [He Hsims]]]]]].
  pose proof (mapM_length _ _ _ Hw) as Lw.
  rewrite Hn in Hi.
  destruct lam_winds as [|win0 lam_winds]; [cbn in Hi; lia|].
  destruct winds as [|w0 winds]; [cbn in Lw; lia|].
  rewrite Ho, Ha, He.
  rewrite (nth_indep _ 0 (w_sem_tot w0)) by (rewrite length_map; lia).
  rewrite (nth_indep _ 0 (w_sem_inter w0)) by (rewrite length_map; lia).
  rewrite (nth_indep _ 0 (w_sem_intra w0)) by (rewrite length_map; lia).
  rewrite !map_nth.
  apply (window_quadrature eq (nth i (win0 :: lam_winds) win0)).
  - apply Hsims. apply nth_In. exact Hi.
  - apply (mapM_nth _ _ _ i win0 w0 Hw). exact Hi.
Qed.

Lemma window_single_repeat (equilibrated : bool) (lam : Stage.LamWindow) (w : wind_stats) :
  length (Stage.sims lam) = 1%nat ->
  window_stats equilibrated lam = Ok w ->
  w_sem_inter w = 0.
Proof.
  intros Hone H. unfold window_statistics in H.
  destruct (mapM (sim_statistics read_gradients get_statistical_inefficiency equilibrated)
                 (Stage.sims lam)) as [stats|] eqn:Hstats; cbn [bind] in H; [|discriminate].
  destruct (rectangular (map s_gradients stats)); cbn [bind] in H; [|discriminate].
  inversion H; subst w; clear H. cbn [w_sem_inter].
  pose proof (mapM_length _ _ _ Hstats) as Hlen. rewrite Hone in *.
  destruct stats as [|s [|? ?]]; cbn in Hlen; try lia.
  unfold var, mean. cbn.
  replace (((s_mean s - (s_mean s + 0) / 1) * (s_mean s - (s_mean s + 0) / 1) + 0) / 1 / 1)
    with 0 by lra.
  apply sqrt_0.
Qed.

(** X27: With a single repeat in every window there is no spread between
    repeats: the inter-run standard error of every window is 0, for
    gradients that are not empty. *)
Theorem init_single_repeat_has_no_inter_run_error :
  forall (lam_winds : list Stage.LamWindow) (equilibrated : bool) (gd : GradientData),
    (forall sim eq g, read_gradients sim eq = Ok g -> g <> []) ->
    (forall win, In win lam_winds -> length (Stage.sims win) = 1%nat) ->
    init lam_winds equilibrated = Ok gd ->
    Forall (fun sem => sem = 0) (sems_inter gd).
Proof.
  intros lam_winds eq gd _ Hone H.
  destruct (init_windows lam_winds eq gd H) as [winds [Hw [_ [_ [_ [He _]]]]]].
  rewrite He. apply Forall_forall. intros v Hv. apply in_map_iff in Hv.
  destruct Hv as [w [<- Hin]].
  destruct (In_nth _ _ w Hin) as [i [Hi Hnth]].
  pose proof (mapM_length _ _ _ Hw) as Lw.
  destruct lam_winds as [|win0 lam_winds]; [cbn in Lw; lia|].
  apply (window_single_repeat eq (nth i (win0 :: lam_winds) win0)).
  - apply Hone. apply nth_In. lia.
  - rewrite <- Hnth. apply (mapM_nth _ _ _ i win0 w Hw). lia.
Qed.

End InitProps.

Section InitWitnesses.
Import ProcessGrads GradientDataInit.
Local Open Scope R_scope.

Lemma int_one : Np.int 1 = 1%Z.
Proof.
  rewrite int_is_floor by lra. apply Zfloor_eq. cbn. lra.
Qed.

Lemma built_gradient_data_ok :
  __init__ two_gradients (fun _ => 1) [equilibrated_window] false
  = Ok built_gradient_data.
Proof.
  unfold built_gradient_data.
  destruct (__init__ two_gradients (fun _ => 1) [equilibrated_window] false) eqn:E;
    [reflexivity|].
  exfalso. revert E.
  unfold __init__, window_statistics, sim_statistics, two_gradients, subsample.
  cbn [mapM Stage.sims equilibrated_window bind]. rewrite int_one.
  cbn. discriminate.
Qed.

Lemma two_gradients_nonempty :
  forall (sim : Simulation.t) (eq : bool) (g : list R), two_gradients sim eq = Ok g -> g <> [].
Proof. intros sim eq g H. inversion H. discriminate. Qed.

Lemma init_keeps_one_entry_per_window_witness :
  __init__ two_gradients (fun _ => 1) [equilibrated_window] false = Ok built_gradient_data
  /\ lam_vals built_gradient_data = [0]
  /\ length (sems_inter built_gradient_data) = 1%nat.
Proof.
  split; [exact built_gradient_data_ok|].
  pose proof (init_keeps_one_entry_per_window two_gradients (fun _ => 1)
                [equilibrated_window] false built_gradient_data built_gradient_data_ok)
    as [_ [Hlam [_ [_ [_ [_ [_ [Hinter _]]]]]]]].
  split; [exact Hlam | exact Hinter].
Defined.

Lemma init_needs_windows_with_simulations_witness :
  ([unequilibrated_window] = []
   \/ exists win, In win [unequilibrated_window] /\ Stage.sims win = [])
  /\ raises (__init__ two_gradients (fun _ => 1) [unequilibrated_window] false).
Proof.
  assert (H : [unequilibrated_window] = []
              \/ exists win, In win [unequilibrated_window] /\ Stage.sims win = []).
  { right. exists unequilibrated_window. split; [now left | reflexivity]. }
  split; [exact H|].
  exact (init_needs_windows_with_simulations two_gradients (fun _ => 1)
           [unequilibrated_window] false H).
Defined.

Lemma init_overall_sem_in_quadrature_witness :
  (forall sim eq g, two_gradients sim eq = Ok g -> g <> [])
  /\ __init__ two_gradients (fun _ => 1) [equilibrated_window] false
     = Ok built_gradient_data
  /\ (0 < n_lam built_gradient_data)%nat
  /\ nth 0 (sems_overall built_gradient_data) 0 * nth 0 (sems_overall built_gradient_data) 0
     = nth 0 (sems_inter built_gradient_data) 0 * nth 0 (sems_inter built_gradient_data) 0
       + nth 0 (sems_intra built_gradient_data) 0
         * nth 0 (sems_intra built_gradient_data) 0.
Proof.
  assert (Hn : (0 < n_lam built_gradient_data)%nat).
  { pose proof built_gradient_data_ok as H. unfold __init__ in H.
    destruct (mapM _ [equilibrated_window]) as [winds|] eqn:Hw;
      cbn [bind] in H; [|discriminate].
    pose proof (mapM_length _ _ _ Hw) as Lw.
    repeat match type of H with
           | context [bind ?m _] => destruct m; cbn [bind] in H; [|discriminate]
           end.
    inversion H as [Hgd]. unfold n_lam. cbn. rewrite length_map, Lw. cbn. lia. }
  split; [exact two_gradients_nonempty|]. split; [exact built_gradient_data_ok|].
  split; [exact Hn|].
  exact (init_overall_sem_in_quadrature two_gradients (fun _ => 1) [equilibrated_window]
           false built_gradient_data two_gradients_nonempty built_gradient_data_ok
           0%nat Hn).
Defined.

Lemma init_single_repeat_has_no_inter_run_error_witness :
  (forall sim eq g, two_gradients sim eq = Ok g -> g <> [])
  /\ (forall win, In win [equilibrated_window] -> length (Stage.sims win) = 1%nat)
  /\ __init__ two_gradients (fun _ => 1) [equilibrated_window] false
     = Ok built_gradient_data
  /\ Forall (fun sem => sem = 0) (sems_inter built_gradient_data).
Proof.
  assert (H : forall win, In win [equilibrated_window] ->
                          length (Stage.sims win) = 1%nat).
  { intros win [<- | []]. reflexivity. }
  split; [exact two_gradients_nonempty|]. split; [exact H|].
  split; [exact built_gradient_data_ok|].
  exact (init_single_repeat_has_no_inter_run_error two_gradients (fun _ => 1)
           [equilibrated_window] false built_gradient_data two_gradients_nonempty H
           built_gradient_data_ok).
Defined.

End InitWitnesses.

(** ** Calculation.setup and Calculation._validate_input, further *)

Section SetupProps.
Import Calculation.

Variable Leg : Type.
Variable new_Leg : LegType -> result Leg.
Variable leg_setup : Leg -> bool -> string -> bool -> bool -> Leg * result unit.

Local Abbreviation setup := (Calculation.setup Leg new_Leg leg_setup).
Local Abbreviation setup_legs := (Calculation.setup_legs Leg new_Leg leg_setup).
Local Abbreviation setup_leg := (Calculation.setup_leg Leg new_Leg leg_setup).

Lemma setup_leg_keeps (slurm : bool) (sel : string) (same short : bool)
    (self : t Leg) (leg_type : LegType) :
  setup_complete Leg (fst (setup_leg slurm sel same short self leg_type))
  = setup_complete Leg self
  /\ dumps Leg (fst (setup_leg slurm sel same short self leg_type)) = dumps Leg self.
Proof.
  unfold Calculation.setup_leg. destruct (new_Leg leg_type) as [leg|e]; [|now cbn].
  destruct (leg_setup leg slurm sel same short) as [leg' r]. now cbn.
Qed.

Lemma setup_legs_keeps (slurm : bool) (sel : string) (same short : bool)
    (leg_types : list LegType) (self : t Leg) :
  setup_complete Leg (fst (setup_legs slurm sel same short self leg_types))
  = setup_complete Leg self
  /\ dumps Leg (fst (setup_legs slurm sel same short self leg_types)) = dumps Leg self.
Proof.
  revert self. induction leg_types as [|leg_type rest IH]; intro self; [now cbn|].
  cbn [Calculation.setup_legs].
  pose proof (setup_leg_keeps slurm sel same short self leg_type) as [Hc Hd].
  destruct (setup_leg slurm sel same short self leg_type) as [self' [u|e]];
    cbn [fst] in *.
  - destruct (IH self') as [Hc' Hd']. split; congruence.
  - split; assumption.
Qed.

(** X28: A call of [setup] that raises leaves the calculation not set up and
    saves nothing, so the next call sets the legs up again. *)
Theorem setup_that_raises_is_not_complete :
  forall (self : t Leg) (slurm : bool) (sel : string) (same short : bool) (e : exn),
    snd (setup self slurm sel same short) = Raise e ->
    setup_complete Leg (fst (setup self slurm sel same short)) = false
    /\ dumps Leg (fst (setup self slurm sel same short)) = dumps Leg self.
Proof.
  intros self slurm sel same short e. unfold Calculation.setup.
  destruct (setup_complete Leg self) eqn:Hc; [cbn; discriminate|].
  pose proof (setup_legs_keeps slurm sel same short (rev required_legs)
                (set_legs Leg self [])) as [Hc' Hd'].
  destruct (setup_legs slurm sel same short (set_legs Leg self []) (rev required_legs))
    as [self' [u|e']]; cbn [fst snd] in *; [discriminate|].
  intros _. cbn [set_legs info setup_complete dumps] in Hc', Hd'. split; congruence.
Qed.

(** X29: When both legs are created and set up without an exception, [setup]
    returns with the calculation complete and saved once; its legs are the
    bound leg and then the free leg, each as its own [setup] left it, and
    the legs it had before are gone. *)
Theorem setup_builds_bound_then_free :
  forall (self : t Leg) (slurm : bool) (sel : string) (same short : bool)
         (bound bound' free free' : Leg),
    setup_complete Leg self = false ->
    new_Leg BOUND = Ok bound ->
    leg_setup bound slurm sel same short = (bound', Ok tt) ->
    new_Leg FREE = Ok free ->
    leg_setup free slurm sel same short = (free', Ok tt) ->
    exists self',
      setup self slurm sel same short = (self', Ok tt)
      /\ setup_complete Leg self' = true
      /\ legs Leg self' = [bound'; free']
      /\ dumps Leg self' = S (dumps Leg self).
Proof.
  intros self slurm sel same short bound bound' free free' Hc Hb Hbs Hf Hfs.
  unfold Calculation.setup. rewrite Hc.
  cbn [rev required_legs app Calculation.setup_legs].
  unfold Calculation.setup_leg. rewrite Hb, Hbs. cbn [Calculation.setup_legs].
  unfold Calculation.setup_leg. rewrite Hf, Hfs.
  eexists. split; [reflexivity|]. cbn. repeat split; reflexivity.
Qed.

End SetupProps.

Section ValidateInputProps.
Import Calculation.

Variable PreparationStage : Type.
Variable preparation_stages : list PreparationStage.
Variable required_input_files : LegType -> PreparationStage -> list string.
Variable isfile : string -> bool.

Local Abbreviation absent := (files_absent PreparationStage required_input_files isfile).
Local Abbreviation first_complete :=
  (Calculation.first_complete PreparationStage required_input_files isfile).

Lemma first_complete_found (input_dir : string) (stages : list PreparationStage)
    (s : PreparationStage) :
  first_complete input_dir stages = Ok s ->
  exists before after,
    stages = before ++ s :: after
    /\ absent input_dir s = false
    /\ forall t, In t before -> absent input_dir t = true.
Proof.
  induction stages as [|a stages IH]; intro H; [discriminate|].
  cbn [Calculation.first_complete] in H.
  destruct (absent input_dir a) eqn:Ea; cbn [negb] in H.
  - destruct (IH H) as [before [after [-> [Hs Hb]]]].
    exists (a :: before), after. split; [reflexivity|]. split; [exact Hs|].
    intros t [<- | Ht]; [exact Ea | now apply Hb].
  - inversion H; subst. exists [], stages. split; [reflexivity|]. split; [exact Ea|].
    intros t [].
Qed.

Lemma first_complete_none (input_dir : string) (stages : list PreparationStage) :
  (forall t, In t stages -> absent input_dir t = true) ->
  first_complete input_dir stages
  = Raise (ValueError "Could not find all required input files for any preparation stage.").
Proof.
  induction stages as [|a stages IH]; intro H; [reflexivity|].
  cbn [Calculation.first_complete]. rewrite (H a) by now left. cbn [negb].
  apply IH. intros t Ht. apply H. now right.
Qed.

Lemma first_complete_some (input_dir : string) (stages : list PreparationStage)
    (s : PreparationStage) :
  In s stages -> absent input_dir s = false ->
  exists s', first_complete input_dir stages = Ok s'.
Proof.
  induction stages as [|a stages IH]; intros Hin Hs; [destruct Hin|].
  cbn [Calculation.first_complete].
  destruct (absent input_dir a) eqn:Ea; cbn [negb]; [|eauto].
  destruct Hin as [-> | Hin]; [congruence | now apply IH].
Qed.

(** X30: [_validate_input] settles on the most advanced preparation stage
    whose files are all there: every stage after the one it returns lacks a
    file.  It raises [ValueError] when every stage lacks a file, and only
    then. *)
Theorem validate_input_finds_most_advanced_stage :
  forall (input_dir : string),
    (forall s,
       _validate_input PreparationStage preparation_stages required_input_files isfile
         input_dir = Ok s ->
       exists earlier later,
         preparation_stages = earlier ++ s :: later
         /\ absent input_dir s = false
         /\ forall t, In t later -> absent input_dir t = true)
    /\ ((forall t, In t preparation_stages -> absent input_dir t = true) <->
        raises (_validate_input PreparationStage preparation_stages required_input_files
                  isfile input_dir)).
Proof.
  intro input_dir. unfold _validate_input. split; [|split].
  - intros s H. destruct (first_complete_found _ _ _ H) as [before [after [Hrev [Hs Hb]]]].
    exists (rev after), (rev before). split; [|split; [exact Hs|]].
    + rewrite <- (rev_involutive preparation_stages), Hrev.
      rewrite rev_app_distr. cbn [rev]. now rewrite <- app_assoc.
    + intros t Ht. apply Hb. now apply in_rev.
  - intro H. rewrite first_complete_none; [apply raises_Raise|].
    intros t Ht. apply H. now apply in_rev.
  - intros [e He] t Ht.
    destruct (absent input_dir t) eqn:Et; [reflexivity|].
    destruct (first_complete_some input_dir (rev preparation_stages) t) as [s' Hs'].
    + now apply -> in_rev.
    + exact Et.
    + congruence.
Qed.

End ValidateInputProps.

Lemma setup_that_raises_is_not_complete_witness :
  snd (Calculation.setup string named_leg failing_leg new_calculation true "" true false)
  = Raise (RuntimeError "setup failed")
  /\ Calculation.setup_complete string
       (fst (Calculation.setup string named_leg failing_leg new_calculation true ""
               true false)) = false
  /\ Calculation.dumps string
       (fst (Calculation.setup string named_leg failing_leg new_calculation true ""
               true false))
     = Calculation.dumps string new_calculation.
Proof.
  assert (H : snd (Calculation.setup string named_leg failing_leg new_calculation true ""
                     true false)
              = Raise (RuntimeError "setup failed")) by reflexivity.
  split; [exact H|].
  exact (setup_that_raises_is_not_complete string named_leg failing_leg new_calculation
           true "" true false _ H).
Defined.

Lemma setup_builds_bound_then_free_witness :
  Calculation.setup_complete string new_calculation = false
  /\ named_leg Calculation.BOUND = Ok "bound"
  /\ ready_leg "bound" true "" true false = ("bound ready", Ok tt)
  /\ named_leg Calculation.FREE = Ok "free"
  /\ ready_leg "free" true "" true false = ("free ready", Ok tt)
  /\ exists self',
      Calculation.setup string named_leg ready_leg new_calculation true "" true false
      = (self', Ok tt)
      /\ Calculation.setup_complete string self' = true
      /\ Calculation.legs string self' = ["bound ready"; "free ready"]
      /\ Calculation.dumps string self' = S (Calculation.dumps string new_calculation).
Proof.
  assert (H1 : Calculation.setup_complete string new_calculation = false) by reflexivity.
  assert (H2 : named_leg Calculation.BOUND = Ok "bound") by reflexivity.
  assert (H3 : ready_leg "bound" true "" true false = ("bound ready", Ok tt))
    by reflexivity.
  assert (H4 : named_leg Calculation.FREE = Ok "free") by reflexivity.
  assert (H5 : ready_leg "free" true "" true false = ("free ready", Ok tt))
    by reflexivity.
  split; [exact H1|]. split; [exact H2|]. split; [exact H3|]. split; [exact H4|].
  split; [exact H5|].
  exact (setup_builds_bound_then_free string named_leg ready_leg new_calculation
           true "" true false "bound" "bound ready" "free" "free ready" H1 H2 H3 H4 H5).
Defined.

Lemma validate_input_finds_most_advanced_stage_witness :
  Calculation._validate_input nat [1; 2; 3] stage_files only_ligand "input" = Ok 2
  /\ exists earlier later,
      [1; 2; 3] = earlier ++ 2 :: later
      /\ Calculation.files_absent nat stage_files only_ligand "input" 2 = false
      /\ forall t, In t later ->
                   Calculation.files_absent nat stage_files only_ligand "input" t = true.
Proof.
  assert (H : Calculation._validate_input nat [1; 2; 3] stage_files only_ligand "input"
              = Ok 2) by reflexivity.
  split; [exact H|].
  exact (proj1 (validate_input_finds_most_advanced_stage nat [1; 2; 3] stage_files
                  only_ligand "input") 2 H).
Defined.
